(** * The scripts of the project orchestrator

    A shallow embedding of [scripts/check_status.py], the status
    aggregator (file discovery, the task-line parser, which is one
    regular-expression scan of a file's text, the summary builder and the
    report renderer), and of [scripts/init_project.py], the initialisation
    script (module [Init]), followed by the properties that were checked
    against them.

    Text is a list of characters.  A character is a code point below 256
    (Rocq's [ascii]); the classes [\w], [\d] and [\s] are those of Python's
    [re] module for [str] patterns on that range. *)

From Stdlib Require Import Ascii String List ZArith NArith Bool Lia.
From Stdlib Require Import Uint63.
From Stdlib Require Import Floats.PrimFloat Floats.SpecFloat Floats.FloatOps.
From stdpp Require Import base option list strings pretty gmap fin_maps.

Open Scope list_scope.

(** ** Text and character classes *)

Definition str := list ascii.

(** A literal of the source, as text. *)
Definition lit_str (s : string) : str := list_ascii_of_string s.

Definition code (c : ascii) : N := N_of_ascii c.

Definition in_range (lo hi : N) (c : ascii) : bool :=
  ((lo <=? code c) && (code c <=? hi))%N.

Definition newline : ascii := ascii_of_N 10.

(** [\d]: the decimal digits. *)
Definition is_digit (c : ascii) : bool := in_range 48 57 c.

(** [\w]: alphanumeric characters and the underscore; above 127 these are
    the letters and numeric characters of Latin-1. *)
Definition is_word (c : ascii) : bool :=
  in_range 48 57 c || in_range 65 90 c || in_range 95 95 c
  || in_range 97 122 c || in_range 170 170 c || in_range 178 179 c
  || in_range 181 181 c || in_range 185 186 c || in_range 188 190 c
  || in_range 192 214 c || in_range 216 246 c || in_range 248 255 c.

(** [\s], which is also what [str.strip] removes: tab, line feed, vertical
    tab, form feed, carriage return, the four separators 28 to 31, space,
    next-line and the no-break space. *)
Definition is_space (c : ascii) : bool :=
  in_range 9 13 c || in_range 28 32 c || in_range 133 133 c
  || in_range 160 160 c.

(** [.] without [re.DOTALL]: anything but a line feed. *)
Definition is_dot (c : ascii) : bool := negb (Ascii.eqb c newline).

(** The character class [[ x]] of the checkbox. *)
Definition is_box (c : ascii) : bool :=
  Ascii.eqb c " "%char || Ascii.eqb c "x"%char.

(** [str.strip()] *)
Fixpoint lstrip (s : str) : str :=
  match s with
  | c :: s' => if is_space c then lstrip s' else s
  | [] => []
  end.

Definition rstrip (s : str) : str := rev (lstrip (rev s)).

Definition strip (s : str) : str := rstrip (lstrip s).

(** ** A backtracking matcher

    Each piece of a pattern is a function from the continuation of the
    match to a matcher of the remaining text; alternatives are tried in the
    order of Python's engine, and the first success is the match. *)

Section Backtracking.
Context {R : Type}.

Definition cont := str -> option R.

(** One literal character. *)
Definition chr (c : ascii) (k : cont) : cont := fun s =>
  match s with
  | a :: s' => if Ascii.eqb a c then k s' else None
  | [] => None
  end.

(** A literal run of characters. *)
Fixpoint chars (l : str) (k : cont) : cont :=
  match l with
  | [] => k
  | c :: l' => chr c (chars l' k)
  end.

(** One character of a class, handed to the continuation. *)
Definition one (p : ascii -> bool) (k : ascii -> cont) : cont := fun s =>
  match s with
  | a :: s' => if p a then k a s' else None
  | [] => None
  end.

(** [X*], greedy: the longest run first, then shorter ones.  [acc] is the
    text already taken. *)
Fixpoint star_from (p : ascii -> bool) (k : str -> cont) (acc : str)
    (s : str) : option R :=
  match s with
  | a :: s' =>
      if p a then
        match star_from p k (acc ++ [a]) s' with
        | Some r => Some r
        | None => k acc s
        end
      else k acc s
  | [] => k acc []
  end.

Definition star (p : ascii -> bool) (k : str -> cont) : cont :=
  star_from p k [].

(** [X+], greedy. *)
Definition plus (p : ascii -> bool) (k : str -> cont) : cont := fun s =>
  match s with
  | a :: s' => if p a then star_from p k [a] s' else None
  | [] => None
  end.

(** [X*?], lazy: the shortest run first, then longer ones. *)
Fixpoint lazy_from (p : ascii -> bool) (k : str -> cont) (acc : str)
    (s : str) : option R :=
  match k acc s with
  | Some r => Some r
  | None =>
      match s with
      | a :: s' => if p a then lazy_from p k (acc ++ [a]) s' else None
      | [] => None
      end
  end.

(** [X+?], lazy. *)
Definition plus_lazy (p : ascii -> bool) (k : str -> cont) : cont :=
  fun s =>
    match s with
    | a :: s' => if p a then lazy_from p k [a] s' else None
    | [] => None
    end.

(** [(?:X)?], greedy: with the group first, without it second.  The
    group hands its capture to the continuation. *)
Definition opt {G : Type} (x : (G -> cont) -> cont)
    (k : option G -> cont) : cont := fun s =>
  match x (fun g => k (Some g)) s with
  | Some r => Some r
  | None => k None s
  end.

(** [$] under [re.MULTILINE]: at the end of the text or before a line
    feed; it consumes nothing. *)
Definition at_eol (s : str) : bool :=
  match s with
  | [] => true
  | a :: _ => Ascii.eqb a newline
  end.

Definition eol (k : cont) : cont := fun s =>
  if at_eol s then k s else None.
End Backtracking.

(** ** The task pattern *)

(** A match object: the five groups, and the text after the match. *)
Record re_match := {
  group1 : ascii;
  group2 : str;
  group3 : str;
  group4 : str;
  group5 : option str;
  m_rest : str
}.

(** The tag group [\s+\[(\w+)\]]; it hands the tag to its continuation. *)
Definition tag_group {R : Type} (k : str -> @cont R) : @cont R :=
  plus is_space (fun _ =>
  chr "["%char (plus is_word (fun g5 => chr "]"%char (k g5)))).

(** [- \[([ x])\] TASK-(\w+)-(\d+):\s*(.+?)(?:\s+\[(\w+)\])?$] tried at the
    start of [s]. *)
Definition task_pattern : str -> option re_match :=
  chars (lit_str "- [") (one is_box (fun g1 =>
  chars (lit_str "] TASK-") (plus is_word (fun g2 =>
  chr "-"%char (plus is_digit (fun g3 =>
  chr ":"%char (star is_space (fun _ =>
  plus_lazy is_dot (fun g4 =>
  opt tag_group (fun g5 =>
  eol (fun rest =>
    Some {| group1 := g1; group2 := g2; group3 := g3; group4 := g4;
            group5 := g5; m_rest := rest |}))))))))))).

(** [task_pattern.finditer(content)]: the matches from left to right, each
    search starting where the previous match ended.  [skip] is the number of
    characters of [s] that still belong to the previous match. *)
Fixpoint finditer_from (skip : nat) (s : str) : list re_match :=
  match s with
  | [] => []
  | _ :: s' =>
      match skip with
      | S n => finditer_from n s'
      | O =>
          match task_pattern s with
          | Some m =>
              m :: finditer_from (length s - length (m_rest m) - 1) s'
          | None => finditer_from 0 s'
          end
      end
  end.

Definition finditer (content : str) : list re_match :=
  finditer_from 0 content.

(** ** Task records *)

(** The dictionary that [parse_task_file] appends for a match. *)
Record task := {
  id : str;
  prd_id : str;
  description : str;
  status : str;
  file : str
}.

(** Python's [a or b] on an optional string: [None] and the empty string
    are false. *)
Definition or_else (a : option str) (b : str) : str :=
  match a with
  | Some (c :: s) => c :: s
  | Some [] => b
  | None => b
  end.

(** The body of the loop over the matches. *)
Definition task_of_match (name : str) (m : re_match) : task :=
  let checked := Ascii.eqb (group1 m) "x"%char in
  let prd_id := group2 m in
  let task_num := group3 m in
  let description := strip (group4 m) in
  let status :=
    or_else (group5 m)
      (if checked then lit_str "done" else lit_str "pending") in
  let task_id := lit_str "TASK-" ++ prd_id ++ lit_str "-" ++ task_num in
  {| id := task_id; prd_id := prd_id; description := description;
     status := status; file := name |}.

(** What [parse_task_file] makes of the text it read from the file called
    [name]. *)
Definition parse_content (name content : str) : list task :=
  map (task_of_match name) (finditer content).

(** ** The project directory

    The aggregator reads two subdirectories of the root state directory.
    A subdirectory that exists is the listing of its entries, in the order
    in which the operating system hands them out; an entry is a file with
    its text, or something [read_text] fails on. *)

Inductive node :=
  | File (content : str)
  | Unreadable.

Definition listing := list (str * node).

Record project_dir := {
  tasks_dir : option listing;
  prds_dir : option listing
}.

Inductive subdir := Tasks | Prds.

Definition subdir_of (d : subdir) (w : project_dir) : option listing :=
  match d with
  | Tasks => tasks_dir w
  | Prds => prds_dir w
  end.

(** A path below the root: the subdirectory and the name of the entry. *)
Record path := { parent : subdir; name : str }.

(** Computations that read the project directory and may raise.  The
    directory is threaded through, so that what a run leaves behind is
    part of its result. *)
Inductive outcome (A : Type) :=
  | Returned (a : A) (w : project_dir)
  | Raised.
Arguments Returned {A} a w.
Arguments Raised {A}.

Definition io (A : Type) := project_dir -> outcome A.

#[global] Instance io_ret : MRet io := fun A a w => Returned a w.

#[global] Instance io_bind : MBind io := fun A B k c w =>
  match c w with
  | Returned a w' => k a w'
  | Raised => Raised
  end.

(** [Path.exists] of a subdirectory. *)
Definition path_exists (d : subdir) : io bool := fun w =>
  Returned (bool_decide (is_Some (subdir_of d w))) w.

Fixpoint prefix_b (p s : str) : bool :=
  match p, s with
  | [], _ => true
  | a :: p', b :: s' => Ascii.eqb a b && prefix_b p' s'
  | _ :: _, [] => false
  end.

(** A pattern [<pre>*<suf>] on an entry name. *)
Definition glob_match (pre suf entry : str) : bool :=
  (length pre + length suf <=? length entry)
  && prefix_b pre entry && prefix_b (rev suf) (rev entry).

(** [Path.glob] of a subdirectory with a pattern [<pre>*<suf>]. *)
Definition glob (d : subdir) (pre suf : str) : io (list path) := fun w =>
  Returned
    (map (fun e => {| parent := d; name := fst e |})
       (List.filter (fun e => glob_match pre suf (fst e))
          (default [] (subdir_of d w))))
    w.

Fixpoint lookup_entry (n : str) (l : listing) : option node :=
  match l with
  | [] => None
  | (n', x) :: l' => if bool_decide (n' = n) then Some x else lookup_entry n l'
  end.

(** [Path.read_text] *)
Definition read_text (p : path) : io str := fun w =>
  match subdir_of (parent p) w ≫= lookup_entry (name p) with
  | Some (File content) => Returned content w
  | _ => Raised
  end.

(** ** File discovery and parsing *)

Definition find_task_files : io (list path) :=
  e ← path_exists Tasks;
  if negb e then mret [] else glob Tasks (lit_str "TASKS-") (lit_str ".md").

Definition parse_task_file (task_file : path) : io (list task) :=
  content ← read_text task_file;
  mret (parse_content (name task_file) content).

Definition find_prd_files : io (list path) :=
  e ← path_exists Prds;
  if negb e then mret [] else glob Prds (lit_str "PRD-") (lit_str ".md").

(** The loop of [get_status_summary] over the task files: each file is
    parsed in turn and its records are appended to [all_tasks]. *)
Fixpoint parse_each (task_files : list path) (all_tasks : list task)
    : io (list task) :=
  match task_files with
  | [] => mret all_tasks
  | task_file :: rest =>
      tasks ← parse_task_file task_file;
      parse_each rest (all_tasks ++ tasks)
  end.

(** ** Numbers *)

(** The two kinds of number a completion can be: the integer [0] of the
    empty case, or a float. *)
Inductive number :=
  | PyInt (z : Z)
  | PyFloat (f : float).

(** [int] to [float]; exact below [2^53], where the quotient of two
    integers is also the quotient of their floats. *)
Definition float_of_nat (n : nat) : float :=
  PrimFloat.of_uint63 (Uint63.of_Z (Z.of_nat n)).

(** [num / den] rounded to the nearest integer, ties to the even one
    ([den] positive). *)
Definition round_half_even (num den : Z) : Z :=
  let q := (num / den)%Z in
  let r := (num mod den)%Z in
  match (2 * r ?= den)%Z with
  | Lt => q
  | Gt => (q + 1)%Z
  | Eq => if Z.even q then q else (q + 1)%Z
  end.

(** Ten times [m * 2^e], rounded to an integer. *)
Definition tenths (m : positive) (e : Z) : Z :=
  if (0 <=? e)%Z then (10 * Z.pos m * 2 ^ e)%Z
  else round_half_even (10 * Z.pos m) (2 ^ (- e)).

Definition tenths_of_float (f : float) : Z :=
  match Prim2SF f with
  | S754_finite _ m e => tenths m e
  | _ => 0%Z
  end.

(** [round(f, 1)] on a float: the exact value of [f] is rounded to one
    decimal digit, ties to even, and the result is the float nearest to
    that decimal.  A float without binary digits after the point is its
    own rounding, and so is one from [2^53 / 10] on, whose neighbours are
    an eighth away or more; below that the tenths are an integer that a
    float holds exactly, and the division rounds to the nearest float. *)
Definition round1_float (f : float) : float :=
  match Prim2SF f with
  | S754_finite s m e =>
      if (0 <=? e)%Z || (2 ^ 53 <=? tenths m e)%Z then f
      else
        let r :=
          PrimFloat.div (PrimFloat.of_uint63 (Uint63.of_Z (tenths m e)))
            (PrimFloat.of_uint63 10) in
        if s then PrimFloat.opp r else r
  | _ => f
  end.

(** [round(x, 1)]: an integer is its own rounding. *)
Definition round1 (x : number) : number :=
  match x with
  | PyInt z => PyInt z
  | PyFloat f => PyFloat (round1_float f)
  end.

(** ** The summary *)

Record summary := {
  total_prds : nat;
  total_tasks : nat;
  pending : nat;
  in_progress : nat;
  done : nat;
  blocked : nat;
  cancelled : nat;
  completion : number;
  tasks : list task
}.

(** [status_counts[task['status']] += 1] on a [defaultdict(int)]. *)
Definition count_status (status_counts : gmap str nat) (t : task)
    : gmap str nat :=
  <[status t := default 0 (status_counts !! status t) + 1]> status_counts.

(** [status_counts.get(key, 0)] *)
Definition get0 (status_counts : gmap str nat) (key : string) : nat :=
  default 0 (status_counts !! lit_str key).

(** Lines 70 to 89 of [get_status_summary]: the summary of the records
    [all_tasks] and of [n_prds] requirement files. *)
Definition summarize (n_prds : nat) (all_tasks : list task) : summary :=
  let status_counts := foldl count_status ∅ all_tasks in
  let total_tasks := length all_tasks in
  let done_tasks := get0 status_counts "done" in
  let completion :=
    if (0 <? total_tasks)%nat then
      PyFloat
        (PrimFloat.mul
           (PrimFloat.div (float_of_nat done_tasks)
              (float_of_nat total_tasks))
           (PrimFloat.of_uint63 100))
    else PyInt 0 in
  {| total_prds := n_prds;
     total_tasks := total_tasks;
     pending := get0 status_counts "pending";
     in_progress := get0 status_counts "in_progress";
     done := done_tasks;
     blocked := get0 status_counts "blocked";
     cancelled := get0 status_counts "cancelled";
     completion := round1 completion;
     tasks := all_tasks |}.

Definition get_status_summary : io summary :=
  task_files ← find_task_files;
  prd_files ← find_prd_files;
  all_tasks ← parse_each task_files [];
  mret (summarize (length prd_files) all_tasks).

(** ** The report *)

(** Printed text is a list of code points: the labels of the report carry
    characters beyond [ascii]. *)
Definition text := list N.

Definition utext (s : str) : text := map code s.

(** A literal of the source without such characters. *)
Definition u (s : string) : text := utext (lit_str s).

(** [str(n)] *)
Definition str_nat (n : nat) : text := u (pretty n).

(** *** [str] of a float

    [str(f)] is [repr(f)]: the shortest decimal that reads back as [f],
    with a point, or with an exponent when the point would be more than
    16 places to the right of the first digit or more than 4 to its
    left.  The decimal [d * 10^q] and the float [b * 2^e] are compared by
    what they are in integers. *)

Definition positive_part (k : Z) : Z := Z.max k 0.

(** The order of [d * 10^q] and [b * 2^e]. *)
Definition compare_decimal (d q b e : Z) : comparison :=
  (d * 10 ^ positive_part q * 2 ^ positive_part (- e)
   ?= b * 2 ^ positive_part e * 10 ^ positive_part (- q))%Z.

(** The integer part of [b * 2^e / 10^q]. *)
Definition floor_decimal (b e q : Z) : Z :=
  ((b * 2 ^ positive_part e * 10 ^ positive_part (- q))
   / (2 ^ positive_part (- e) * 10 ^ positive_part q))%Z.

(** The least [q] from the given one on with [b * 2^e < 10^q]. *)
Fixpoint decimal_point (fuel : nat) (b e q : Z) : Z :=
  match fuel with
  | O => q
  | S fuel' =>
      match compare_decimal 1 q b e with
      | Gt => q
      | _ => decimal_point fuel' b e (q + 1)
      end
  end.

(** The shortest decimal [d * 10^q] that reads back as the float
    [m * 2^e], tried with [k] digits and then with more: of the decimals
    with as many digits that lie nearer to the float than to its
    neighbours (or half way, when [m] is even), the one nearest to the
    float.  Seventeen digits are always enough. *)
Fixpoint shortest (fuel : nat) (m e point k : Z) : Z * Z :=
  let q := (point - k)%Z in
  let x := (4 * m)%Z in
  let narrow := (m =? 2 ^ 52)%Z && (-1074 <? e)%Z in
  let low := (x - (if narrow then 1 else 2))%Z in
  let high := (x + 2)%Z in
  let inside d :=
    match compare_decimal d q low (e - 2),
          compare_decimal d q high (e - 2) with
    | Gt, Lt => true
    | Eq, Lt | Gt, Eq | Eq, Eq => Z.even m
    | _, _ => false
    end in
  let d := floor_decimal x (e - 2) q in
  let pick :=
    match inside d, inside (d + 1)%Z with
    | true, false => Some d
    | false, true => Some (d + 1)%Z
    | true, true =>
        match compare_decimal (2 * d + 1) q (2 * x) (e - 2) with
        | Gt => Some d
        | Lt => Some (d + 1)%Z
        | Eq => Some (if Z.even d then d else (d + 1)%Z)
        end
    | false, false => None
    end in
  match pick, fuel with
  | Some d, _ => (d, q)
  | None, S fuel' => shortest fuel' m e point (k + 1)
  | None, O => (d, q)
  end.

(** Without the zeros at the end. *)
Fixpoint strip_zeros (fuel : nat) (d q : Z) : Z * Z :=
  match fuel with
  | O => (d, q)
  | S fuel' =>
      if (0 <? d)%Z && (d mod 10 =? 0)%Z
      then strip_zeros fuel' (d / 10)%Z (q + 1)%Z
      else (d, q)
  end.

Definition zeros (n : Z) : str := repeat "0"%char (Z.to_nat n).

Definition digits_of (d : Z) : str := lit_str (pretty d).

(** [repr] of the float [m * 2^e]. *)
Definition repr_positive (m e : Z) : str :=
  let bits := (Z.log2 m + 1 + e)%Z in
  let q0 := ((bits - 1) * 30103 / 100000 - 1)%Z in
  let point := decimal_point 8 (4 * m) (e - 2) q0 in
  let '(d, q) := shortest 17 m e point 1 in
  let '(d, q) := strip_zeros 20 d q in
  let ds := digits_of d in
  let k := Z.of_nat (length ds) in
  let decpt := (k + q)%Z in
  if (decpt <=? -4)%Z || (16 <? decpt)%Z then
    let x := (decpt - 1)%Z in
    take 1 ds
    ++ (if (1 <? k)%Z then "."%char :: drop 1 ds else [])
    ++ "e"%char :: (if (x <? 0)%Z then "-"%char else "+"%char)
    :: (if (Z.abs x <? 10)%Z then ["0"%char] else []) ++ digits_of (Z.abs x)
  else if (decpt <=? 0)%Z then
    lit_str "0." ++ zeros (- decpt) ++ ds
  else if (k <=? decpt)%Z then
    ds ++ zeros (decpt - k) ++ lit_str ".0"
  else
    take (Z.to_nat decpt) ds ++ "."%char :: drop (Z.to_nat decpt) ds.

(** [repr(f)] *)
Definition repr_float (f : float) : str :=
  match Prim2SF f with
  | S754_zero s => lit_str (if s then "-0.0" else "0.0")
  | S754_infinity s => lit_str (if s then "-inf" else "inf")
  | S754_nan => lit_str "nan"
  | S754_finite s m e =>
      (if s then ["-"%char] else []) ++ repr_positive (Z.pos m) e
  end.

(** [str(x)] of a completion. *)
Definition str_number (x : number) : text :=
  match x with
  | PyInt z => u (pretty z)
  | PyFloat f => utext (repr_float f)
  end.

(** ["=" * 60] *)
Definition rule : text := repeat (code "="%char) 60.

(** The line of one task in a section. *)
Definition task_line (t : task) : text :=
  u "  - " ++ utext (id t) ++ u ": " ++ utext (take 60 (description t))
  ++ u "...".

(** [[t for t in summary['tasks'] if t['status'] == key]] *)
Definition with_status (key : string) (l : list task) : list task :=
  filter (fun t => status t = lit_str key) l.

Definition pending_section (s : summary) : list text :=
  let pending := with_status "pending" (tasks s) in
  match pending with
  | [] => []
  | _ :: _ =>
      [[10%N; 0x23F3%N] ++ u " Pending Tasks (" ++ str_nat (length pending)
       ++ u "):"]
      ++ map task_line (take 10 pending)
      ++ (if (10 <? length pending)%nat
          then [u "  ... and " ++ str_nat (length pending - 10) ++ u " more"]
          else [])
  end.

Definition in_progress_section (s : summary) : list text :=
  let in_progress := with_status "in_progress" (tasks s) in
  match in_progress with
  | [] => []
  | _ :: _ =>
      [[10%N; 0x1F504%N] ++ u " In Progress Tasks ("
       ++ str_nat (length in_progress) ++ u "):"]
      ++ map task_line in_progress
  end.

Definition blocked_section (s : summary) : list text :=
  let blocked := with_status "blocked" (tasks s) in
  match blocked with
  | [] => []
  | _ :: _ =>
      [[10%N; 0x1F6AB%N] ++ u " Blocked Tasks (" ++ str_nat (length blocked)
       ++ u "):"]
      ++ map task_line blocked
  end.

(** The first twelve calls of [print]: the banner, the counts, the
    breakdown and the completion. *)
Definition summary_lines (s : summary) : list text :=
  [ [10%N] ++ rule;
    u "PROJECT STATUS SUMMARY";
    rule;
    [10%N; 0x1F4CB%N] ++ u " PRDs: " ++ str_nat (total_prds s);
    [0x1F4DD%N] ++ u " Total Tasks: " ++ str_nat (total_tasks s);
    [10%N] ++ u "Status Breakdown:";
    u "  " ++ [0x23F3%N] ++ u " Pending:     " ++ str_nat (pending s);
    u "  " ++ [0x1F504%N] ++ u " In Progress:  " ++ str_nat (in_progress s);
    u "  " ++ [0x2705%N] ++ u " Done:        " ++ str_nat (done s);
    u "  " ++ [0x1F6AB%N] ++ u " Blocked:     " ++ str_nat (blocked s);
    u "  " ++ [0x274C%N] ++ u " Cancelled:   " ++ str_nat (cancelled s);
    [10%N; 0x1F4CA%N] ++ u " Completion: " ++ str_number (completion s)
    ++ u "%" ].

(** The texts that [print_status_summary] prints, one per call of
    [print]. *)
Definition print_status_summary (s : summary) : list text :=
  summary_lines s
  ++ pending_section s
  ++ in_progress_section s
  ++ blocked_section s
  ++ [ [10%N] ++ rule ].

(** [main], given whether the root state directory exists: the message and
    nothing else when it does not. *)
Definition main (root_exists : bool) : io (list text) :=
  if negb root_exists then
    mret [ [0x274C%N]
           ++ u " Project not initialized. Run init_project.py first." ]
  else
    summary ← get_status_summary;
    mret (print_status_summary summary).

(** The five statuses that the summary names. *)
Definition named_statuses : list str :=
  map lit_str ["pending"; "in_progress"; "done"; "blocked"; "cancelled"]%string.

(** The records whose status is none of the five. *)
Definition with_other_status (l : list task) : list task :=
  filter (fun t => status t ∉ named_statuses) l.

(** What a run discovers: the entries of [tasks/] that match [TASKS-*.md],
    in the order of the listing, and the entries of [prds/] that match
    [PRD-*.md]. *)
Definition task_entries (w : project_dir) : listing :=
  List.filter (fun e => glob_match (lit_str "TASKS-") (lit_str ".md") (fst e))
    (default [] (tasks_dir w)).

Definition prd_entries (w : project_dir) : listing :=
  List.filter (fun e => glob_match (lit_str "PRD-") (lit_str ".md") (fst e))
    (default [] (prds_dir w)).

(** The value of a run, whatever it leaves behind. *)
Definition value {A} (o : outcome A) : option A :=
  match o with
  | Returned a _ => Some a
  | Raised => None
  end.

(** The records of the discovered entries [l], read from the entries [all]
    and appended to [all_tasks]; [None] when an entry cannot be read. *)
Fixpoint records_of (all l : listing) (all_tasks : list task)
    : option (list task) :=
  match l with
  | [] => Some all_tasks
  | (n, _) :: l' =>
      match lookup_entry n all with
      | Some (File content) =>
          records_of all l' (all_tasks ++ parse_content n content)
      | _ => None
      end
  end.

(** The tasks that the report lists: the first ten pending ones, then the
    ones in progress, then the blocked ones. *)
Definition listed (s : summary) : list task :=
  take 10 (with_status "pending" (tasks s))
  ++ with_status "in_progress" (tasks s)
  ++ with_status "blocked" (tasks s).

(** A text with fifteen unchecked task lines. *)
Definition fifteen_lines : str :=
  concat
    (map (fun i => lit_str "- [ ] TASK-A-" ++ lit_str (pretty i)
                   ++ lit_str ": item" ++ [newline])
       (seq 1 15)).

(** ** The shape of a match

    What the pattern describes, as a decomposition of the text: a header
    [- [c] TASK-<prd>-<num>:], white space, a description on one line, and
    possibly a gap of white space and a bracketed tag, up to an end of
    line. *)

Definition header (c : ascii) (prd num : str) : str :=
  lit_str "- [" ++ [c] ++ lit_str "] TASK-" ++ prd ++ lit_str "-" ++ num
  ++ lit_str ":".

Definition tag_text (gap : str) (tag : option str) : str :=
  match tag with
  | Some w => gap ++ lit_str "[" ++ w ++ lit_str "]"
  | None => []
  end.

(** The text that a match with groups [m] covers. *)
Definition match_text (m : re_match) (ws gap : str) : str :=
  header (group1 m) (group2 m) (group3 m) ++ ws ++ group4 m
  ++ tag_text gap (group5 m).

Record well_formed (m : re_match) (ws gap : str) : Prop := {
  wf_box : is_box (group1 m) = true;
  wf_prd : group2 m <> [] /\ forallb is_word (group2 m) = true;
  wf_num : group3 m <> [] /\ forallb is_digit (group3 m) = true;
  wf_ws : forallb is_space ws = true;
  wf_desc : group4 m <> [] /\ forallb is_dot (group4 m) = true;
  wf_tag :
    match group5 m with
    | Some w =>
        w <> [] /\ forallb is_word w = true
        /\ gap <> [] /\ forallb is_space gap = true
    | None => True
    end;
  wf_eol : at_eol (m_rest m) = true
}.

(** [s] starts with a match with groups [m]. *)
Definition matches (s : str) (m : re_match) : Prop :=
  exists ws gap, s = match_text m ws gap ++ m_rest m /\ well_formed m ws gap.

(** A line has the shape of a task line when it holds a header
    [- [ ] TASK-<prd>-<num>:] or [- [x] TASK-<prd>-<num>:] that is followed
    by at least one character, the description and the optional tag. *)
Definition task_shape (line : str) : Prop :=
  exists pre c prd num tail,
    line = pre ++ header c prd num ++ tail
    /\ is_box c = true
    /\ prd <> [] /\ forallb is_word prd = true
    /\ num <> [] /\ forallb is_digit num = true
    /\ tail <> [].

(** ** Texts of several lines *)

(** ["\n".join(ls)] *)
Fixpoint join_lines (ls : list str) : str :=
  match ls with
  | [] => []
  | [l] => l
  | l :: ls' => l ++ newline :: join_lines ls'
  end.

(** A line on which every header is followed by something that is not
    white space. *)
Definition described (line : str) : Prop :=
  forall pre c prd num tail,
    line = pre ++ header c prd num ++ tail ->
    is_box c = true ->
    prd <> [] -> forallb is_word prd = true ->
    num <> [] -> forallb is_digit num = true ->
    forallb is_space tail = false.

(** A line that is nothing but a bracketed word, possibly indented. *)
Definition bare_tag (line : str) : Prop :=
  exists gap w,
    line = gap ++ lit_str "[" ++ w ++ lit_str "]"
    /\ forallb is_space gap = true
    /\ w <> [] /\ forallb is_word w = true.

(** The text [t] begins, after white space, with a bracketed word that
    ends its line: what the tag group of the pattern takes. *)
Definition tag_ahead (t : str) : Prop :=
  exists gap w s',
    t = gap ++ "["%char :: w ++ "]"%char :: s'
    /\ forallb is_space gap = true
    /\ w <> [] /\ forallb is_word w = true
    /\ at_eol s' = true.

(** The match [m] when the text goes on with a line feed and [after]. *)
Definition followed_by (after : str) (m : re_match) : re_match :=
  {| group1 := group1 m; group2 := group2 m; group3 := group3 m;
     group4 := group4 m; group5 := group5 m;
     m_rest := m_rest m ++ newline :: after |}.

(** A continuation that does on [s ++ newline :: after] what it does on
    [s], for every [s] without line feed that satisfies [P]. *)
Definition local_on (after : str) (P : str -> Prop) (k : @cont re_match)
    : Prop :=
  forall s,
    forallb is_dot s = true -> P s ->
    k (s ++ newline :: after) = option_map (followed_by after) (k s).

(** ** Checking the lines of a text *)

(** The text after a header at the start of [s], if [s] starts with one. *)
Definition header_tail : str -> option str :=
  chars (lit_str "- [") (one is_box (fun _ =>
  chars (lit_str "] TASK-") (plus is_word (fun _ =>
  chr "-"%char (plus is_digit (fun _ =>
  chr ":"%char (fun tail => Some tail))))))).

(** Every header of [line] from the position of [s] on is followed by
    something that is not white space. *)
Fixpoint described_from (s : str) : bool :=
  match header_tail s with
  | Some tail => negb (forallb is_space tail)
  | None => true
  end
  && match s with
     | [] => true
     | _ :: s' => described_from s'
     end.

(** [line] is a bracketed word, possibly indented. *)
Definition is_bare_tag (line : str) : bool :=
  match lstrip line with
  | a :: r =>
      Ascii.eqb a "["
      && match rev r with
         | b :: w => Ascii.eqb b "]" && forallb is_word w
                     && negb (Nat.eqb (length w) 0)
         | [] => false
         end
  | [] => false
  end.

(** The records of one discovered entry. *)
Definition entry_records (e : str * node) : list task :=
  match snd e with
  | File content => parse_content (fst e) content
  | Unreadable => []
  end.

Definition is_file (x : node) : bool :=
  match x with
  | File _ => true
  | Unreadable => false
  end.

(** The decimal [n / 10] with one digit after the point. *)
Definition one_decimal (n : Z) : str :=
  lit_str (pretty (n / 10)%Z) ++ lit_str "." ++ lit_str (pretty (n mod 10)%Z).

(** The check of one pair of counts: what is printed for the rounded
    [d / t * 100] is a decimal [n / 10] with one digit after the point,
    with [n] between 0 and 1000 and within one half of [1000 * d / t]. *)
Definition nearest_tenth (d t : nat) : bool :=
  let f :=
    round1_float
      (PrimFloat.mul (PrimFloat.div (float_of_nat d) (float_of_nat t))
         (PrimFloat.of_uint63 100)) in
  let n := tenths_of_float f in
  bool_decide (repr_float f = one_decimal n)
  && (0 <=? n)%Z && (n <=? 1000)%Z
  && (2 * Z.abs (n * Z.of_nat t - 1000 * Z.of_nat d) <=? Z.of_nat t)%Z.

(** The check of all pairs [d <= t] with [0 < t <= N]. *)
Definition nearest_tenth_upto (N : nat) : bool :=
  forallb (fun t => forallb (fun d => nearest_tenth d t) (seq 0 (S t)))
    (seq 1 N).

(** A computation that reads only: when it returns, the directory is as it
    was. *)
Definition reads_only {A} (c : io A) : Prop :=
  forall w a w', c w = Returned a w' -> w' = w.

(** ** Tactics *)

(** Brings both sides of an equation between texts to the form
    [c1 :: ... :: (l1 ++ (c2 :: ... ++ ln))]. *)
Ltac flatten :=
  repeat (progress (cbn [app lit_str list_ascii_of_string group1 group2
                         group3 group4 group5 m_rest];
                    rewrite <- ?app_assoc, ?app_nil_r)).

Ltac flatten_in H :=
  repeat (progress (cbn [app lit_str list_ascii_of_string chars group1
                         group2 group3 group4 group5 m_rest] in H;
                    rewrite <- ?app_assoc, ?app_nil_r in H)).

(** Decides equations between a status that is known and the literals. *)
Ltac decide_literals :=
  repeat match goal with
    | |- context [decide (?a = ?b)] =>
        first [ rewrite (decide_True (P := a = b)) by reflexivity
              | rewrite (decide_False (P := a = b))
                  by (vm_compute; discriminate) ]
    end.

(** * The initialisation script

    A shallow embedding of [scripts/init_project.py].  The script works on
    the file tree below the project root, which it reaches through
    [pathlib]; it prints, asks one question and reads the clock.  The tree,
    the lines waiting on the standard input and what was written to the
    terminal are the state of a run; a failing call raises the exception
    of the operating system, and leaves behind what was done before it.

    What is left out: links, and the refusal of an operation for lack of
    permission or of space; a terminal that cannot show a character; a
    line of input that cannot be decoded. *)

Module Init.

(** ** The file tree

    A regular file holds its text, as it is stored, or bytes that are no
    text in the encoding in use ([Undecodable]); a directory lists its
    entries in the order in which the operating system hands them out,
    and a new entry goes to the end. *)

#[warnings="-register-all"]
Inductive fnode :=
  | Regular (content : str)
  | Undecodable
  | Directory (entries : list (str * fnode)).

(** What the path of the project root leads to: a node, or nothing when
    the path names nothing ([Absent]); the directories above a missing
    root are then there or missing as well.  A root whose path leads
    through a regular file behaves as a root that is a regular file:
    nothing resolves below it, with [ENOTDIR]. *)
Inductive tree :=
  | Absent
  | At (x : fnode).

Coercion At : fnode >-> tree.

Fixpoint child (n : str) (es : list (str * fnode)) : option fnode :=
  match es with
  | [] => None
  | (n', x) :: es' => if bool_decide (n' = n) then Some x else child n es'
  end.

(** The entries with [x] under the name [n]: in the place of the entry of
    that name, or at the end. *)
Fixpoint put (n : str) (x : fnode) (es : list (str * fnode))
    : list (str * fnode) :=
  match es with
  | [] => [(n, x)]
  | (n', y) :: es' =>
      if bool_decide (n' = n) then (n', x) :: es' else (n', y) :: put n x es'
  end.

(** What the resolution of a path gives: the node, or the failure of the
    first component that cannot be entered ([ENOENT] when it is missing,
    [ENOTDIR] when the path goes on below a regular file). *)
Inductive resolution :=
  | Found (x : fnode)
  | NoEntry
  | NotDir.

Fixpoint walk (p : list str) (x : fnode) : resolution :=
  match p with
  | [] => Found x
  | n :: p' =>
      match x with
      | Directory es =>
          match child n es with
          | Some y => walk p' y
          | None => NoEntry
          end
      | Regular _ | Undecodable => NotDir
      end
  end.

(** The same from the project root. *)
Definition resolve (p : list str) (r : tree) : resolution :=
  match r with
  | Absent => NoEntry
  | At x => walk p x
  end.

(** The node with [new] at the path [p], whose parent is a directory. *)
Fixpoint graft (p : list str) (new : fnode) (x : fnode) : fnode :=
  match p, x with
  | [], _ => new
  | n :: p', Directory es =>
      match p', child n es with
      | [], _ => Directory (put n new es)
      | _, Some y => Directory (put n (graft p' new y) es)
      | _, None => x
      end
  | _ :: _, _ => x
  end.

(** ** Paths

    A path is [Path(project_root)] or [parent / name]. *)

Inductive path :=
  | Root
  | Child (parent : path) (name : str).

Notation "p </> n" := (Child p (lit_str n)) (at level 40, left associativity).

Fixpoint parts (p : path) : list str :=
  match p with
  | Root => []
  | Child q n => parts q ++ [n]
  end.

Definition parent (p : path) : path :=
  match p with
  | Root => Root
  | Child q _ => q
  end.

Definition stat (p : path) (root : tree) : resolution :=
  resolve (parts p) root.

Definition store (p : path) (new : fnode) (root : tree) : tree :=
  match root with
  | Absent => Absent
  | At x => At (graft (parts p) new x)
  end.

Definition is_dir (p : path) (root : tree) : bool :=
  match stat p root with
  | Found (Directory _) => true
  | _ => false
  end.

(** *** Paths as text *)

Definition slash : ascii := "/"%char.

(** [s.split("/")] *)
Fixpoint split_slash (s : str) : list str :=
  match s with
  | [] => [[]]
  | c :: s' =>
      if Ascii.eqb c slash then [] :: split_slash s'
      else match split_slash s' with
           | l :: ls => (c :: l) :: ls
           | [] => [[c]]
           end
  end.

(** The components of [Path(s)]: empty components and [.] are dropped. *)
Definition path_parts (s : str) : list str :=
  List.filter
    (fun c =>
       negb (bool_decide (c = [])) && negb (bool_decide (c = lit_str ".")))
    (split_slash s).

(** The root of [Path(s)]: [/], or [//] for exactly two leading slashes. *)
Definition path_anchor (s : str) : str :=
  match s with
  | a :: b :: c :: _ =>
      if Ascii.eqb a slash then
        if Ascii.eqb b slash && negb (Ascii.eqb c slash) then lit_str "//"
        else lit_str "/"
      else []
  | [a; b] =>
      if Ascii.eqb a slash then
        if Ascii.eqb b slash then lit_str "//" else lit_str "/"
      else []
  | [a] => if Ascii.eqb a slash then lit_str "/" else []
  | [] => []
  end.

(** ["/".join(ls)] *)
Fixpoint join_slash (ls : list str) : str :=
  match ls with
  | [] => []
  | [l] => l
  | l :: ls' => l ++ slash :: join_slash ls'
  end.

(** ** Errors, state and computations *)

Inductive error :=
  | FileExistsError
  | FileNotFoundError
  | NotADirectoryError
  | IsADirectoryError
  | UnicodeDecodeError
  | EOFError.

(** What reaches the terminal: the text of one call of [print], or the
    prompt of one call of [input]. *)
Inductive event :=
  | Printed (t : text)
  | Prompted (t : text).

Record world := {
  root : tree;
  stdin : list str;
  stdout : list event
}.

Definition set_root (r : tree) (w : world) : world :=
  {| root := r; stdin := stdin w; stdout := stdout w |}.

Inductive result (A : Type) :=
  | Ok (a : A) (w : world)
  | Err (e : error) (w : world).
Arguments Ok {A} a w.
Arguments Err {A} e w.

Definition cmd (A : Type) := world -> result A.

#[global] Instance cmd_ret : MRet cmd := fun A a w => Ok a w.

#[global] Instance cmd_bind : MBind cmd := fun A B k c w =>
  match c w with
  | Ok a w' => k a w'
  | Err e w' => Err e w'
  end.

(** [print(t)] *)
Definition print (t : text) : cmd unit := fun w =>
  Ok tt {| root := root w; stdin := stdin w;
           stdout := stdout w ++ [Printed t] |}.

(** [input(prompt)]: the next line, without its end; [EOFError] when there
    is none. *)
Definition input (prompt : text) : cmd str := fun w =>
  match stdin w with
  | line :: rest =>
      Ok line {| root := root w; stdin := rest;
                 stdout := stdout w ++ [Prompted prompt] |}
  | [] =>
      Err EOFError {| root := root w; stdin := [];
                      stdout := stdout w ++ [Prompted prompt] |}
  end.

(** ** The file system calls *)

(** [Path.exists] *)
Definition path_exists (p : path) : cmd bool := fun w =>
  Ok (match stat p (root w) with Found _ => true | _ => false end) w.

(** The creation of the entry [p], which does not resolve, as [x].  The
    directory above a missing project root is taken to be there: where
    it is missing too, [mkdir] with [parents=True], the one call that
    gets as far as the root, makes it on the way. *)
Definition create (p : path) (x : fnode) : cmd unit := fun w =>
  match stat p (root w), p with
  | NotDir, _ => Err NotADirectoryError w
  | _, Root => Ok tt (set_root (At x) w)
  | _, Child q _ =>
      match stat q (root w) with
      | Found (Directory _) => Ok tt (set_root (store p x (root w)) w)
      | _ => Err FileNotFoundError w
      end
  end.

(** [os.mkdir] *)
Definition os_mkdir (p : path) : cmd unit := fun w =>
  match stat p (root w) with
  | Found _ => Err FileExistsError w
  | _ => create p (Directory []) w
  end.

(** [Path.mkdir(exist_ok=True)]: a failure other than of a missing parent
    is let through when the path is a directory. *)
Definition mkdir_exist_ok (p : path) : cmd unit := fun w =>
  match os_mkdir p w with
  | Ok a w' => Ok a w'
  | Err FileNotFoundError w' => Err FileNotFoundError w'
  | Err e w' => if is_dir p (root w') then Ok tt w' else Err e w'
  end.

(** [Path.mkdir(parents=True, exist_ok=True)]: when the parent is missing
    it is made in the same way first. *)
Fixpoint mkdir (p : path) : cmd unit := fun w =>
  match os_mkdir p w with
  | Ok a w' => Ok a w'
  | Err FileNotFoundError w' =>
      match p with
      | Root => Err FileNotFoundError w'
      | Child q _ => (mkdir q ≫= fun _ => mkdir_exist_ok p) w'
      end
  | Err e w' => if is_dir p (root w') then Ok tt w' else Err e w'
  end.

(** [Path.touch]: nothing but the times of what exists is touched; what
    does not exist is created as an empty file. *)
Definition touch (p : path) : cmd unit := fun w =>
  match stat p (root w) with
  | Found _ => Ok tt w
  | _ => create p (Regular []) w
  end.

(** [open(p, mode)], [write(data)] and [close()], with the mode ["a"] or
    ["w"].  Bytes that are no text are no text either with text written
    after them. *)
Definition open_write (append : bool) (p : path) (data : str) : cmd unit :=
  fun w =>
    match stat p (root w) with
    | Found (Regular old) =>
        Ok tt
          (set_root
             (store p (Regular (if append then old ++ data else data))
                (root w)) w)
    | Found Undecodable =>
        if append then Ok tt w
        else Ok tt (set_root (store p (Regular data) (root w)) w)
    | Found (Directory _) => Err IsADirectoryError w
    | _ => create p (Regular data) w
    end.

(** [Path.write_text] *)
Definition write_text (p : path) (data : str) : cmd unit :=
  open_write false p data.

Definition carriage_return : ascii := ascii_of_N 13.

(** What text mode makes of the stored text: a carriage return, with the
    line feed that follows it if there is one, is read as a line feed. *)
Fixpoint universal_newlines (s : str) : str :=
  match s with
  | [] => []
  | c :: s' =>
      if Ascii.eqb c carriage_return then
        newline ::
        match s' with
        | d :: s'' =>
            if Ascii.eqb d newline then universal_newlines s''
            else universal_newlines s'
        | [] => []
        end
      else c :: universal_newlines s'
  end.

(** [Path.read_text] *)
Definition read_text (p : path) : cmd str := fun w =>
  match stat p (root w) with
  | Found (Regular content) => Ok (universal_newlines content) w
  | Found Undecodable => Err UnicodeDecodeError w
  | Found (Directory _) => Err IsADirectoryError w
  | NoEntry => Err FileNotFoundError w
  | NotDir => Err NotADirectoryError w
  end.

(** [needle in s] *)
Fixpoint contains (needle s : str) : bool :=
  prefix_b needle s
  || match s with
     | [] => false
     | _ :: s' => contains needle s'
     end.

(** ** [json.dump] with [indent=2]

    The values of the configuration are strings, integers and lists of
    strings. *)

Inductive jvalue :=
  | JString (s : str)
  | JInt (z : Z)
  | JStrings (l : list str).

Definition double_quote : ascii := ascii_of_N 34.
Definition backslash : ascii := ascii_of_N 92.

Definition hex_digit (n : N) : ascii :=
  nth (N.to_nat n) (lit_str "0123456789abcdef") "0"%char.

(** One character of a string, with [ensure_ascii]. *)
Definition json_char (c : ascii) : str :=
  if Ascii.eqb c double_quote then [backslash; double_quote]
  else if Ascii.eqb c backslash then [backslash; backslash]
  else if (code c =? 10)%N then backslash :: lit_str "n"
  else if (code c =? 13)%N then backslash :: lit_str "r"
  else if (code c =? 9)%N then backslash :: lit_str "t"
  else if (code c =? 12)%N then backslash :: lit_str "f"
  else if (code c =? 8)%N then backslash :: lit_str "b"
  else if in_range 32 126 c then [c]
  else backslash :: lit_str "u00"
       ++ [hex_digit (code c / 16); hex_digit (code c mod 16)].

Definition json_string (s : str) : str :=
  double_quote :: flat_map json_char s ++ [double_quote].

(** [sep.join(ls)] *)
Fixpoint join (sep : str) (ls : list str) : str :=
  match ls with
  | [] => []
  | [l] => l
  | l :: ls' => l ++ sep ++ join sep ls'
  end.

(** A value at the first level of an object. *)
Definition dump_value (v : jvalue) : str :=
  match v with
  | JString s => json_string s
  | JInt z => lit_str (pretty z)
  | JStrings [] => lit_str "[]"
  | JStrings l =>
      lit_str "[" ++ newline :: lit_str "    "
      ++ join (lit_str "," ++ newline :: lit_str "    ") (map json_string l)
      ++ newline :: lit_str "  ]"
  end.

(** [json.dumps(o, indent=2)] of a dictionary. *)
Definition dump (o : list (string * jvalue)) : str :=
  match o with
  | [] => lit_str "{}"
  | _ =>
      lit_str "{" ++ newline :: lit_str "  "
      ++ join (lit_str "," ++ newline :: lit_str "  ")
           (map (fun kv =>
                   json_string (lit_str (fst kv)) ++ lit_str ": "
                   ++ dump_value (snd kv)) o)
      ++ newline :: lit_str "}"
  end.

(** ** The script *)

Section Script.

(** The directory that the paths start from, as the caller names it. *)
Variable project_root : str.

(** [str(p)] *)
Definition path_str (p : path) : str :=
  match path_parts project_root ++ parts p with
  | [] =>
      match path_anchor project_root with
      | [] => lit_str "."
      | anchor => anchor
      end
  | ps => path_anchor project_root ++ join_slash ps
  end.

(** [Path(p.parent).name] *)
Definition parent_name (p : path) : str :=
  List.last (removelast (path_parts project_root ++ parts p)) [].

Definition create_project_structure : cmd path :=
  let project_dir := Root </> ".project" in
  let prds_dir := project_dir </> "prds" in
  let tasks_dir := project_dir </> "tasks" in
  mkdir prds_dir ;;
  mkdir tasks_dir ;;
  touch (prds_dir </> ".gitkeep") ;;
  touch (tasks_dir </> ".gitkeep") ;;
  mret project_dir.

(** The dictionary of [create_config]; [now] is
    [datetime.now().isoformat()]. *)
Definition config (project_name now : str) : list (string * jvalue) :=
  [ ("project_name", JString project_name);
    ("initialized", JString now);
    ("task_id_counter", JInt 0);
    ("prd_id_counter", JInt 0);
    ("ignore_patterns",
     JStrings
       (map lit_str
          [ ".project/tasks/**/node_modules";
            ".project/tasks/**/__pycache__";
            ".project/tasks/**/.env";
            ".project/tasks/**/dist";
            ".project/tasks/**/build" ])) ]%string.

Definition create_config (now : str) (project_dir : path)
    (project_name : option str) : cmd path :=
  let config_path := project_dir </> ".project-config.json" in
  e ← path_exists config_path;
  if e : bool then
    print (u "Config file already exists at "
           ++ utext (path_str config_path)) ;;
    mret config_path
  else
    let config :=
      config (or_else project_name (parent_name project_dir)) now in
    open_write false config_path (dump config) ;;
    print (u "Created config file at " ++ utext (path_str config_path)) ;;
    mret config_path.

Definition ignore_entry : str :=
  newline :: lit_str "# Project management files"
  ++ newline :: lit_str ".project/" ++ [newline].

Definition update_gitignore : cmd unit :=
  let gitignore_path := Root </> ".gitignore" in
  e ← path_exists gitignore_path;
  if negb e then
    write_text gitignore_path ignore_entry ;;
    print (u "Created .gitignore with project exclusion")
  else
    content ← read_text gitignore_path;
    if contains (lit_str ".project/") content then
      print (u ".project/ already in .gitignore")
    else
      open_write true gitignore_path ignore_entry ;;
      print (u "Updated .gitignore to exclude .project/").

(** [os.getcwd()], which returns [project_root]: it fails when the
    working directory is gone. *)
Definition getcwd : cmd unit := fun w =>
  match root w with
  | Absent => Err FileNotFoundError w
  | At _ => Ok tt w
  end.

(** [main], in the directory [project_root] that [os.getcwd()] returns
    and at the time [now] that [datetime.now().isoformat()] returns. *)
Definition main (now : str) : cmd unit :=
  getcwd ;;
  print (u "Initializing project management in " ++ utext project_root) ;;
  project_dir ← create_project_structure;
  print (u "Created project directory structure at "
         ++ utext (path_str project_dir)) ;;
  line ←
    input (u "Enter project name (or press Enter to use directory name): ");
  let project_name := strip line in
  let project_name :=
    match project_name with
    | [] => None
    | _ => Some project_name
    end in
  create_config now project_dir project_name ;;
  update_gitignore ;;
  print ([10%N; 0x2705%N]
         ++ u " Project management initialized successfully!") ;;
  print ([10%N] ++ u "Directory structure:") ;;
  print (u "  " ++ utext (path_str project_dir) ++ u "/") ;;
  print (u "    prds/     - Product Requirement Documents") ;;
  print (u "    tasks/    - Task lists and task files") ;;
  print (u "    .project-config.json - Configuration").

End Script.

(** ** What the properties speak of *)

Definition project_path : path := Root </> ".project".
Definition prds_path : path := project_path </> "prds".
Definition tasks_path : path := project_path </> "tasks".
Definition config_path : path := project_path </> ".project-config.json".
Definition gitignore_path : path := Root </> ".gitignore".

Definition present (p : path) (r : tree) : bool :=
  match stat p r with
  | Found _ => true
  | _ => false
  end.

(** The state that a computation ends in, returned or raised. *)
Definition final {A} (x : result A) : world :=
  match x with
  | Ok _ w => w
  | Err _ w => w
  end.

Definition error_of {A} (x : result A) : option error :=
  match x with
  | Ok _ _ => None
  | Err e _ => Some e
  end.

(** *** The trees that the script leaves

    The calls of the script, written as functions on the entries of the
    project root. *)

(** The entries of a directory; none for anything else. *)
Definition entries_of (o : option fnode) : list (str * fnode) :=
  match o with
  | Some (Directory es) => es
  | _ => []
  end.

(** Whether the entry [n] is a regular file. *)
Definition regular_child (n : string) (es : list (str * fnode)) : bool :=
  match child (lit_str n) es with
  | Some (Regular _) | Some Undecodable => true
  | _ => false
  end.

(** The entries with an empty file [n], unless there is an entry [n]. *)
Definition touched (n : str) (es : list (str * fnode)) : list (str * fnode) :=
  match child n es with
  | Some _ => es
  | None => put n (Regular []) es
  end.

(** The entries of the root once the two directories and their
    [.gitkeep] files are there. *)
Definition structured (es : list (str * fnode)) : list (str * fnode) :=
  let ps := entries_of (child (lit_str ".project") es) in
  let prds :=
    touched (lit_str ".gitkeep") (entries_of (child (lit_str "prds") ps)) in
  let tasks :=
    touched (lit_str ".gitkeep") (entries_of (child (lit_str "tasks") ps)) in
  put (lit_str ".project")
    (Directory
       (put (lit_str "tasks") (Directory tasks)
          (put (lit_str "prds") (Directory prds) ps)))
    es.

(** What stops [create_project_structure]: a regular file where a
    directory has to be.  A missing root does not stop it. *)
Definition obstruction (r : tree) : option error :=
  match r with
  | Absent => None
  | At (Directory es) =>
      let ps := entries_of (child (lit_str ".project") es) in
      if regular_child ".project" es then Some NotADirectoryError
      else if regular_child "prds" ps || regular_child "tasks" ps
           then Some FileExistsError
           else None
  | At _ => Some NotADirectoryError
  end.

(** What stops [update_gitignore]: a root that is missing or is a regular
    file, or a [.gitignore] that is a directory or cannot be decoded. *)
Definition gitignore_obstruction (r : tree) : option error :=
  match r with
  | Absent => Some FileNotFoundError
  | At (Directory es) =>
      match child (lit_str ".gitignore") es with
      | Some (Directory _) => Some IsADirectoryError
      | Some Undecodable => Some UnicodeDecodeError
      | _ => None
      end
  | At _ => Some NotADirectoryError
  end.

(** The entries of the root once the configuration file is there:
    [data] is written when there is none. *)
Definition configured (data : str) (es : list (str * fnode))
    : list (str * fnode) :=
  let ps := entries_of (child (lit_str ".project") es) in
  match child (lit_str ".project-config.json") ps with
  | Some _ => es
  | None =>
      put (lit_str ".project")
        (Directory (put (lit_str ".project-config.json") (Regular data) ps))
        es
  end.

(** Whether the text of [.gitignore] names the state directory. *)
Definition excludes (content : str) : bool :=
  contains (lit_str ".project/") (universal_newlines content).

(** The entries of the root once [.gitignore] excludes the state
    directory. *)
Definition ignored (es : list (str * fnode)) : list (str * fnode) :=
  match child (lit_str ".gitignore") es with
  | None => put (lit_str ".gitignore") (Regular ignore_entry) es
  | Some (Regular content) =>
      if excludes content then es
      else put (lit_str ".gitignore") (Regular (content ++ ignore_entry)) es
  | Some Undecodable | Some (Directory _) => es
  end.

(** The state with more on the terminal. *)
Definition shown (events : list event) (w : world) : world :=
  {| root := root w; stdin := stdin w; stdout := stdout w ++ events |}.

(** Whether there is a configuration file. *)
Definition has_config (es : list (str * fnode)) : bool :=
  match child (lit_str ".project-config.json")
          (entries_of (child (lit_str ".project") es)) with
  | Some _ => true
  | None => false
  end.

(** What [create_config] prints in the directory [project_root]. *)
Definition config_message (project_root : str) (es : list (str * fnode))
    : text :=
  (if has_config es then u "Config file already exists at "
   else u "Created config file at ")
  ++ utext (path_str project_root config_path).

(** What [update_gitignore] prints. *)
Definition gitignore_message (es : list (str * fnode)) : text :=
  match child (lit_str ".gitignore") es with
  | None => u "Created .gitignore with project exclusion"
  | Some (Regular content) =>
      if excludes content then u ".project/ already in .gitignore"
      else u "Updated .gitignore to exclude .project/"
  | Some Undecodable | Some (Directory _) => []
  end.

(** The name that [main] passes on for the line that was typed. *)
Definition project_name_of (project_root line : str) : str :=
  match strip line with
  | [] => parent_name project_root project_path
  | name => name
  end.

(** What a run of [main] that returns leaves on the terminal, from the
    entries [es] that it found in [project_root]. *)
Definition transcript (project_root : str) (es : list (str * fnode))
    : list event :=
  [ Printed (u "Initializing project management in " ++ utext project_root);
    Printed (u "Created project directory structure at "
             ++ utext (path_str project_root project_path));
    Prompted (u "Enter project name (or press Enter to use directory name): ");
    Printed (config_message project_root es);
    Printed (gitignore_message es);
    Printed ([10%N; 0x2705%N]
             ++ u " Project management initialized successfully!");
    Printed ([10%N] ++ u "Directory structure:");
    Printed (u "  " ++ utext (path_str project_root project_path) ++ u "/");
    Printed (u "    prds/     - Product Requirement Documents");
    Printed (u "    tasks/    - Task lists and task files");
    Printed (u "    .project-config.json - Configuration") ].

(** The state that a run leaves: the two directories with their
    [.gitkeep] entries, a configuration file, and a [.gitignore] that
    excludes the state directory. *)
Definition initialized (r : tree) : bool :=
  is_dir prds_path r && is_dir tasks_path r
  && present (prds_path </> ".gitkeep") r
  && present (tasks_path </> ".gitkeep") r
  && present config_path r
  && match stat gitignore_path r with
     | Found (Regular content) => excludes content
     | _ => false
     end.

(** What stops [main], and with which exception: what stops one of its
    calls, in the order of the calls. *)
Definition verdict (w : world) : option error :=
  match root w with
  | Absent => Some FileNotFoundError
  | At _ =>
      match obstruction (root w) with
      | Some e => Some e
      | None =>
          match stdin w with
          | [] => Some EOFError
          | _ :: _ => gitignore_obstruction (root w)
          end
      end
  end.

(** *** The tree as the status aggregator sees it

    A regular file is read as text; a directory among the entries, or a
    file that is no text, cannot be read; a regular file in the place of
    a subdirectory exists and has no entries. *)

Definition node_of (x : fnode) : node :=
  match x with
  | Regular content => File (universal_newlines content)
  | Undecodable | Directory _ => Unreadable
  end.

Definition listing_of (r : resolution) : option listing :=
  match r with
  | Found (Directory es) => Some (map (fun e => (fst e, node_of (snd e))) es)
  | Found (Regular _) | Found Undecodable => Some []
  | _ => None
  end.

Definition status_view (r : tree) : project_dir :=
  {| tasks_dir := listing_of (stat tasks_path r);
     prds_dir := listing_of (stat prds_path r) |}.

(** *** Reading an escaped character back *)

Definition hex_value (c : ascii) : option N :=
  if in_range 48 57 c then Some (code c - 48)%N
  else if in_range 97 102 c then Some (code c - 87)%N
  else None.

(** The character that a text written by [json_char] starts with, and the
    rest of the text. *)
Definition json_char_inv (s : str) : option (ascii * str) :=
  match s with
  | [] => None
  | c :: rest =>
      if negb (Ascii.eqb c backslash) then Some (c, rest)
      else
        match rest with
        | [] => None
        | e :: rest' =>
            if Ascii.eqb e "n" then Some (ascii_of_N 10, rest')
            else if Ascii.eqb e "r" then Some (ascii_of_N 13, rest')
            else if Ascii.eqb e "t" then Some (ascii_of_N 9, rest')
            else if Ascii.eqb e "f" then Some (ascii_of_N 12, rest')
            else if Ascii.eqb e "b" then Some (ascii_of_N 8, rest')
            else if Ascii.eqb e "u" then
              match rest' with
              | _ :: _ :: h :: l :: rest'' =>
                  match hex_value h, hex_value l with
                  | Some a, Some b => Some (ascii_of_N (16 * a + b), rest'')
                  | _, _ => None
                  end
              | _ => None
              end
            else Some (e, rest')
        end
  end.

(** A character of a file in plain ASCII. *)
Definition plain (c : ascii) : bool :=
  in_range 32 126 c || Ascii.eqb c newline.

(** Nothing of the tree [r] is lost in [r']: what was a directory is a
    directory, and a regular file has its text, with something after it
    at most for the file at [spare], or is no text as before. *)
Definition kept_but (spare : list str) (r r' : tree) : Prop :=
  forall p,
    match resolve p r with
    | Found (Regular c) =>
        exists d, resolve p r' = Found (Regular (c ++ d))
                  /\ (p <> spare -> d = [])
    | Found Undecodable => resolve p r' = Found Undecodable
    | Found (Directory _) => exists es, resolve p r' = Found (Directory es)
    | _ => True
    end.

(** The same without an exception. *)
Definition kept (r r' : tree) : Prop :=
  forall p,
    match resolve p r with
    | Found (Regular c) => resolve p r' = Found (Regular c)
    | Found Undecodable => resolve p r' = Found Undecodable
    | Found (Directory _) => exists es, resolve p r' = Found (Directory es)
    | _ => True
    end.

(** A computation that loses nothing, however it ends. *)
Definition keeps {A} (c : cmd A) : Prop :=
  forall w, kept (root w) (root (final (c w))).

Definition keeps_but {A} (spare : list str) (c : cmd A) : Prop :=
  forall w, kept_but spare (root w) (root (final (c w))).

(** Neither path leads through the other. *)
Fixpoint independent (p q : list str) : bool :=
  match p, q with
  | a :: p', b :: q' => if bool_decide (a = b) then independent p' q' else true
  | _, _ => false
  end.

(** *** Two project roots to run the script in *)

(** A root with a task file below [.project/tasks] and a [.gitignore]. *)
Definition used_root : fnode :=
  Directory
    [ (lit_str "README.md", Regular (lit_str "demo"));
      (lit_str ".gitignore", Regular (lit_str "node_modules/"));
      (lit_str ".project",
       Directory
         [ (lit_str "tasks",
            Directory
              [ (lit_str "TASKS-A.md",
                 Regular (lit_str "- [x] TASK-A-1: one")) ]) ]) ].

(** The state in which [demo] and then nothing is typed. *)
Definition used_world : world :=
  {| root := used_root; stdin := [lit_str " demo "; []]; stdout := [] |}.

(** A root without state directory and without [.gitignore]. *)
Definition fresh_world : world :=
  {| root := Directory [(lit_str "README.md", Regular (lit_str "demo"))];
     stdin := [[]];
     stdout := [] |}.

End Init.

(** * Properties *)

(** ** The matcher finds a match exactly when there is one

    For each piece, a successful run decomposes the text ([_Some]), and a
    failed run means that every decomposition fails ([_None]). *)

Section BacktrackingFacts.
Context {R : Type}.
Implicit Types (k : @cont R) (s t : str) (r : R) (p : ascii -> bool).

Lemma chr_Some c k s r :
  chr c k s = Some r -> exists s', s = c :: s' /\ k s' = Some r.
Proof.
  destruct s as [|a s']; simpl; [discriminate|].
  destruct (Ascii.eqb_spec a c) as [->|]; [eauto|discriminate].
Qed.

Lemma chr_cons c k s : chr c k (c :: s) = k s.
Proof. simpl. now rewrite Ascii.eqb_refl. Qed.

Lemma chars_Some l k s r :
  chars l k s = Some r -> exists s', s = l ++ s' /\ k s' = Some r.
Proof.
  revert s; induction l as [|c l IH]; intros s H; simpl in *; [eauto|].
  apply chr_Some in H as (s1 & -> & H).
  apply IH in H as (s' & -> & H). eauto.
Qed.

Lemma chars_app l k s : chars l k (l ++ s) = k s.
Proof.
  induction l as [|c l IH]; simpl; [reflexivity|].
  now rewrite Ascii.eqb_refl.
Qed.

Lemma one_Some p (k : ascii -> @cont R) s r :
  one p k s = Some r ->
  exists a s', s = a :: s' /\ p a = true /\ k a s' = Some r.
Proof.
  destruct s as [|a s']; simpl; [discriminate|].
  destruct (p a) eqn:E; [eauto|discriminate].
Qed.

Lemma star_from_Some p (k : str -> @cont R) acc s r :
  star_from p k acc s = Some r ->
  exists t s', s = t ++ s' /\ forallb p t = true
               /\ k (acc ++ t) s' = Some r.
Proof.
  revert acc; induction s as [|a s IH]; intros acc H; simpl in H.
  - exists [], []. simpl. rewrite app_nil_r. auto.
  - destruct (p a) eqn:E.
    + destruct (star_from p k (acc ++ [a]) s) eqn:E1.
      * injection H as ->. apply IH in E1 as (t & s' & -> & Ht & Hk).
        exists (a :: t), s'. simpl. rewrite E, Ht.
        rewrite <- app_assoc in Hk. auto.
      * exists [], (a :: s). simpl. rewrite app_nil_r. auto.
    + exists [], (a :: s). simpl. rewrite app_nil_r. auto.
Qed.

Lemma star_from_None p (k : str -> @cont R) acc t s' :
  star_from p k acc (t ++ s') = None ->
  forallb p t = true -> k (acc ++ t) s' = None.
Proof.
  revert acc; induction t as [|a t IH]; intros acc H Ht; simpl in *.
  - rewrite app_nil_r. destruct s' as [|b s']; simpl in H; [exact H|].
    destruct (p b); [|exact H].
    destruct (star_from p k (acc ++ [b]) s'); [discriminate|exact H].
  - apply andb_true_iff in Ht as [Ha Ht]. rewrite Ha in H.
    destruct (star_from p k (acc ++ [a]) (t ++ s')) eqn:E; [discriminate|].
    apply IH in E; [|exact Ht]. now rewrite <- app_assoc in E.
Qed.

Lemma plus_Some p (k : str -> @cont R) s r :
  plus p k s = Some r ->
  exists t s', s = t ++ s' /\ t <> [] /\ forallb p t = true
               /\ k t s' = Some r.
Proof.
  destruct s as [|a s]; simpl; [discriminate|].
  destruct (p a) eqn:E; [|discriminate]. intros H.
  apply star_from_Some in H as (t & s' & -> & Ht & Hk).
  exists (a :: t), s'. simpl. rewrite E, Ht. auto.
Qed.

Lemma plus_None p (k : str -> @cont R) t s' :
  plus p k (t ++ s') = None ->
  t <> [] -> forallb p t = true -> k t s' = None.
Proof.
  destruct t as [|a t]; [congruence|]. simpl. intros H _ Ht.
  apply andb_true_iff in Ht as [Ha Ht]. rewrite Ha in H.
  now apply star_from_None in H.
Qed.

Lemma lazy_from_Some p (k : str -> @cont R) acc s r :
  lazy_from p k acc s = Some r ->
  exists t s', s = t ++ s' /\ forallb p t = true
               /\ k (acc ++ t) s' = Some r.
Proof.
  revert acc; induction s as [|a s IH]; intros acc H; simpl in H.
  - exists [], []. simpl. rewrite app_nil_r.
    destruct (k acc []); [auto|discriminate].
  - destruct (k acc (a :: s)) eqn:Ek.
    + exists [], (a :: s). simpl. rewrite app_nil_r. injection H as ->. auto.
    + destruct (p a) eqn:E; [|discriminate].
      apply IH in H as (t & s' & -> & Ht & Hk).
      exists (a :: t), s'. simpl. rewrite E, Ht.
      rewrite <- app_assoc in Hk. auto.
Qed.

Lemma lazy_from_None p (k : str -> @cont R) acc t s' :
  lazy_from p k acc (t ++ s') = None ->
  forallb p t = true -> k (acc ++ t) s' = None.
Proof.
  revert acc; induction t as [|a t IH]; intros acc H Ht; simpl in *.
  - rewrite app_nil_r. destruct s' as [|b s']; simpl in H.
    + destruct (k acc []); [discriminate|reflexivity].
    + destruct (k acc (b :: s')); [discriminate|reflexivity].
  - apply andb_true_iff in Ht as [Ha Ht].
    destruct (k acc (a :: t ++ s')); [discriminate|].
    rewrite Ha in H. apply IH in H; [|exact Ht].
    now rewrite <- app_assoc in H.
Qed.

Lemma plus_lazy_Some p (k : str -> @cont R) s r :
  plus_lazy p k s = Some r ->
  exists t s', s = t ++ s' /\ t <> [] /\ forallb p t = true
               /\ k t s' = Some r.
Proof.
  destruct s as [|a s]; simpl; [discriminate|].
  destruct (p a) eqn:E; [|discriminate]. intros H.
  apply lazy_from_Some in H as (t & s' & -> & Ht & Hk).
  exists (a :: t), s'. simpl. rewrite E, Ht. auto.
Qed.

Lemma plus_lazy_None p (k : str -> @cont R) t s' :
  plus_lazy p k (t ++ s') = None ->
  t <> [] -> forallb p t = true -> k t s' = None.
Proof.
  destruct t as [|a t]; [congruence|]. simpl. intros H _ Ht.
  apply andb_true_iff in Ht as [Ha Ht]. rewrite Ha in H.
  now apply lazy_from_None in H.
Qed.

Lemma opt_Some {G} (x : (G -> @cont R) -> @cont R)
    (k : option G -> @cont R) s r :
  opt x k s = Some r ->
  x (fun g => k (Some g)) s = Some r
  \/ (x (fun g => k (Some g)) s = None /\ k None s = Some r).
Proof. unfold opt. destruct (x _ s); intros H; [left|right]; auto. Qed.

Lemma opt_None {G} (x : (G -> @cont R) -> @cont R)
    (k : option G -> @cont R) s :
  opt x k s = None ->
  x (fun g => k (Some g)) s = None /\ k None s = None.
Proof. unfold opt. destruct (x _ s); intros H; [discriminate|auto]. Qed.

Lemma eol_Some k s r :
  eol k s = Some r -> at_eol s = true /\ k s = Some r.
Proof. unfold eol. destruct (at_eol s); [auto|discriminate]. Qed.
End BacktrackingFacts.

(** ** The task pattern *)

Lemma tag_group_Some {R} (k : str -> @cont R) s r :
  tag_group k s = Some r ->
  exists gap w s',
    s = gap ++ "["%char :: w ++ "]"%char :: s'
    /\ gap <> [] /\ forallb is_space gap = true
    /\ w <> [] /\ forallb is_word w = true
    /\ k w s' = Some r.
Proof.
  unfold tag_group. intros H.
  apply plus_Some in H as (gap & s1 & -> & Hgap & Hgaps & H).
  apply chr_Some in H as (s2 & -> & H).
  apply plus_Some in H as (w & s3 & -> & Hw & Hww & H).
  apply chr_Some in H as (s4 & -> & H).
  exists gap, w, s4. auto 10.
Qed.

Lemma task_pattern_Some s m : task_pattern s = Some m -> matches s m.
Proof.
  unfold task_pattern. intros H.
  apply chars_Some in H as (s1 & -> & H).
  apply one_Some in H as (c & s2 & -> & Hc & H).
  apply chars_Some in H as (s3 & -> & H).
  apply plus_Some in H as (prd & s4 & -> & Hprd & Hprdw & H).
  apply chr_Some in H as (s5 & -> & H).
  apply plus_Some in H as (num & s6 & -> & Hnum & Hnumd & H).
  apply chr_Some in H as (s7 & -> & H).
  apply star_from_Some in H as (ws & s8 & -> & Hws & H).
  apply plus_lazy_Some in H as (d & s9 & -> & Hd & Hdd & H).
  apply opt_Some in H as [H|[_ H]].
  - apply tag_group_Some in H
      as (gap & w & s13 & -> & Hgap & Hgaps & Hw & Hww & H).
    apply eol_Some in H as [He H]. injection H as <-.
    exists ws, gap. split.
    + unfold match_text, header, tag_text. now flatten.
    + constructor; simpl; auto.
  - apply eol_Some in H as [He H]. injection H as <-.
    exists ws, []. split.
    + unfold match_text, header, tag_text. now flatten.
    + constructor; simpl; auto.
Qed.

Lemma one_cons {R} p (k : ascii -> @cont R) a s :
  p a = true -> one p k (a :: s) = k a s.
Proof. simpl. now intros ->. Qed.

Lemma task_pattern_complete s m :
  matches s m -> exists m', task_pattern s = Some m'.
Proof.
  intros (ws & gap & -> & [Hc [Hp Hpw] [Hn Hnd] Hws [Hd Hdd] Htag He]).
  destruct (task_pattern _) eqn:E; [eauto|exfalso].
  destruct m as [c prd num d tag rest].
  unfold task_pattern, match_text, header, tag_text in E.
  cbn [group1 group2 group3 group4 group5 m_rest] in *.
  destruct tag as [w|]; flatten_in E.
  all: rewrite !chr_cons, one_cons in E by exact Hc.
  all: rewrite !chr_cons in E.
  all: apply plus_None in E; [|assumption..].
  all: rewrite chr_cons in E.
  all: apply plus_None in E; [|assumption..].
  all: rewrite chr_cons in E.
  all: apply star_from_None in E; [|assumption].
  all: apply plus_lazy_None in E; [|assumption..].
  all: apply opt_None in E as [E1 E2].
  - destruct Htag as (Hw & Hww & Hg & Hgs). unfold tag_group in E1.
    apply plus_None in E1; [|assumption..].
    rewrite chr_cons in E1.
    apply plus_None in E1; [|assumption..].
    rewrite chr_cons in E1. unfold eol in E1. rewrite He in E1.
    discriminate.
  - unfold eol in E2. rewrite He in E2. discriminate.
Qed.

(** A match covers at least the header, so it is never empty. *)
Lemma matches_length s m : matches s m -> length (m_rest m) < length s.
Proof.
  intros (ws & gap & -> & _). unfold match_text, header.
  rewrite !length_app. simpl. lia.
Qed.

(** ** The scan *)

Lemma finditer_from_skip pre s :
  finditer_from (length pre) (pre ++ s) = finditer_from 0 s.
Proof. induction pre as [|a pre IH]; simpl; [reflexivity|exact IH]. Qed.

(** The scan, by its first match: the match found at the start and then
    the scan of what follows it, or else the scan from the next
    character. *)
Lemma finditer_eq s :
  finditer s =
  match task_pattern s with
  | Some m => m :: finditer (m_rest m)
  | None =>
      match s with
      | [] => []
      | _ :: s' => finditer s'
      end
  end.
Proof.
  unfold finditer. destruct s as [|a s'].
  - simpl. destruct (task_pattern []) eqn:E; [|reflexivity].
    apply task_pattern_Some, matches_length in E. simpl in E. lia.
  - simpl. destruct (task_pattern (a :: s')) eqn:E; [|reflexivity].
    f_equal. pose proof (task_pattern_Some _ _ E) as Hm.
    pose proof (matches_length _ _ Hm) as Hlen.
    destruct Hm as (ws & gap & Hs & _).
    remember (match_text r ws gap) as mt eqn:Hmt.
    destruct mt as [|b mt].
    { simpl in Hs. rewrite <- Hs in Hlen. lia. }
    simpl in Hs. injection Hs as -> ->.
    rewrite length_app.
    replace (S (length mt + length (m_rest r)) - length (m_rest r) - 1)
      with (length mt) by lia.
    apply finditer_from_skip.
Qed.

(** Every match of the scan is a match of the pattern at some position of
    the text. *)
Lemma finditer_In content m :
  In m (finditer content) ->
  exists pre suf, content = pre ++ suf /\ task_pattern suf = Some m.
Proof.
  remember (length content) as n eqn:Hn. revert content Hn.
  induction n as [n IH] using lt_wf_ind. intros content -> H.
  rewrite finditer_eq in H. destruct (task_pattern content) eqn:E.
  - destruct H as [<-|H]; [exists [], content; auto|].
    pose proof (task_pattern_Some _ _ E) as Hm.
    pose proof (matches_length _ _ Hm) as Hlen.
    destruct (IH _ Hlen _ eq_refl H) as (pre & suf & Hr & Hs).
    destruct Hm as (ws & gap & -> & _).
    exists (match_text r ws gap ++ pre), suf.
    rewrite Hr, <- app_assoc. auto.
  - destruct content as [|a s']; [destruct H|].
    destruct (IH (length s') (Nat.lt_succ_diag_r _) _ eq_refl H)
      as (pre & suf & -> & Hs).
    exists (a :: pre), suf. auto.
Qed.

(** ** Status derivation *)

(** Every record that the parser derives from a text comes from a match
    of the task pattern somewhere in that text, and its status is the tag of
    the match when the match has one, a non-empty run of word characters
    that stands in brackets right before the end of line whatever the word
    is; without a tag the status is [done] for the checkbox [x] and
    [pending] for the empty checkbox.  The match need not lie on one
    line. *)
Lemma status_of_matched_line (fname content : str) (t : task) :
  In t (parse_content fname content) ->
  exists m ws gap pre,
    content = pre ++ match_text m ws gap ++ m_rest m
    /\ well_formed m ws gap
    /\ t = task_of_match fname m
    /\ status t =
       match group5 m with
       | Some tag => tag
       | None =>
           if Ascii.eqb (group1 m) "x" then lit_str "done"
           else lit_str "pending"
       end.
Proof.
  unfold parse_content. intros H. apply in_map_iff in H as (m & <- & H).
  apply finditer_In in H as (pre & suf & -> & H).
  apply task_pattern_Some in H as (ws & gap & -> & Hwf).
  exists m, ws, gap, pre.
  split; [reflexivity|]. split; [exact Hwf|]. split; [reflexivity|].
  unfold task_of_match; simpl. pose proof (wf_tag _ _ _ Hwf) as Htag.
  destruct (group5 m) as [[|c w]|]; simpl; [|reflexivity..].
  now destruct Htag.
Qed.

Example status_of_matched_line_example :
  let content := lit_str "- [ ] TASK-AUTH-002: Add password reset [blocked]" in
  let t :=
    {| id := lit_str "TASK-AUTH-002"; prd_id := lit_str "AUTH";
       description := lit_str "Add password reset";
       status := lit_str "blocked"; file := lit_str "TASKS-AUTH.md" |} in
  exists m ws gap pre,
    content = pre ++ match_text m ws gap ++ m_rest m
    /\ well_formed m ws gap
    /\ t = task_of_match (lit_str "TASKS-AUTH.md") m
    /\ status t =
       match group5 m with
       | Some tag => tag
       | None =>
           if Ascii.eqb (group1 m) "x" then lit_str "done"
           else lit_str "pending"
       end.
Proof.
  intros content t.
  apply (status_of_matched_line (lit_str "TASKS-AUTH.md") content t).
  vm_compute. left. reflexivity.
Defined.

(** ** Counting *)

Lemma count_status_lookup (status_counts : gmap str nat) t key :
  default 0 (count_status status_counts t !! key) =
  default 0 (status_counts !! key)
  + (if decide (status t = key) then 1 else 0).
Proof.
  unfold count_status. destruct (decide (status t = key)) as [->|Hne].
  - now rewrite lookup_insert_eq.
  - rewrite lookup_insert_ne by exact Hne. lia.
Qed.

(** The dictionary of the counting loop holds, for every status, the number
    of records with that status. *)
Lemma status_counts_spec (all_tasks : list task) status_counts key :
  default 0 (foldl count_status status_counts all_tasks !! key) =
  default 0 (status_counts !! key)
  + length (filter (fun t => status t = key) all_tasks).
Proof.
  revert status_counts.
  induction all_tasks as [|t l IH]; intros status_counts; simpl.
  - lia.
  - rewrite IH, count_status_lookup, filter_cons.
    destruct (decide (status t = key)); simpl; lia.
Qed.

Lemma get0_spec (all_tasks : list task) key :
  get0 (foldl count_status ∅ all_tasks) key =
  length (with_status key all_tasks).
Proof.
  unfold get0, with_status. rewrite status_counts_spec, lookup_empty.
  reflexivity.
Qed.

(** ** Reading the project directory *)

Lemma bind_Returned {A B} (c : io A) (k : A -> io B) w b w' :
  (c ≫= k) w = Returned b w' ->
  exists a w1, c w = Returned a w1 /\ k a w1 = Returned b w'.
Proof.
  unfold mbind, io_bind. destruct (c w) as [a w1|]; [eauto|discriminate].
Qed.

Lemma reads_only_ret {A} (a : A) : reads_only (mret a).
Proof. intros w a' w' H. now injection H. Qed.

Lemma reads_only_bind {A B} (c : io A) (k : A -> io B) :
  reads_only c -> (forall a, reads_only (k a)) -> reads_only (c ≫= k).
Proof.
  intros Hc Hk w b w' H. apply bind_Returned in H as (a & w1 & H1 & H2).
  apply Hc in H1 as ->. now apply Hk in H2.
Qed.

Lemma reads_only_path_exists d : reads_only (path_exists d).
Proof. intros w a w' H. now injection H. Qed.

Lemma reads_only_glob d pre suf : reads_only (glob d pre suf).
Proof. intros w a w' H. now injection H. Qed.

Lemma reads_only_read_text p : reads_only (read_text p).
Proof.
  intros w a w'. unfold read_text.
  destruct (_ ≫= _) as [[content|]|]; intros H; try discriminate.
  now injection H.
Qed.

Lemma reads_only_find_task_files : reads_only find_task_files.
Proof.
  apply reads_only_bind; [apply reads_only_path_exists|].
  intros []; simpl; [apply reads_only_glob|apply reads_only_ret].
Qed.

Lemma reads_only_find_prd_files : reads_only find_prd_files.
Proof.
  apply reads_only_bind; [apply reads_only_path_exists|].
  intros []; simpl; [apply reads_only_glob|apply reads_only_ret].
Qed.

Lemma reads_only_parse_task_file p : reads_only (parse_task_file p).
Proof.
  apply reads_only_bind; [apply reads_only_read_text|].
  intros content. apply reads_only_ret.
Qed.

Lemma reads_only_parse_each task_files all_tasks :
  reads_only (parse_each task_files all_tasks).
Proof.
  revert all_tasks. induction task_files as [|f l IH]; intros all_tasks.
  - apply reads_only_ret.
  - simpl. apply reads_only_bind; [apply reads_only_parse_task_file|].
    intros tasks. apply IH.
Qed.

Lemma reads_only_get_status_summary : reads_only get_status_summary.
Proof.
  apply reads_only_bind; [apply reads_only_find_task_files|]. intros tf.
  apply reads_only_bind; [apply reads_only_find_prd_files|]. intros pf.
  apply reads_only_bind; [apply reads_only_parse_each|]. intros l.
  apply reads_only_ret.
Qed.

(** Every summary that the aggregator returns is the summary of some list
    of records. *)
Lemma get_status_summary_Returned w s w' :
  get_status_summary w = Returned s w' ->
  exists n_prds all_tasks, s = summarize n_prds all_tasks.
Proof.
  intros H. apply bind_Returned in H as (tf & w1 & _ & H).
  apply bind_Returned in H as (pf & w2 & _ & H).
  apply bind_Returned in H as (l & w3 & _ & H).
  injection H as <- _. eauto.
Qed.

(** ** The summary builder *)

Lemma named_or_other (l : list task) :
  length l =
  length (with_status "pending" l) + length (with_status "in_progress" l)
  + length (with_status "done" l) + length (with_status "blocked" l)
  + length (with_status "cancelled" l) + length (with_other_status l).
Proof.
  unfold with_status, with_other_status.
  induction l as [|t l IH]; [reflexivity|].
  rewrite !filter_cons. simpl length. rewrite IH. clear IH.
  destruct (decide (status t ∉ named_statuses)) as [Hn|Hn].
  - repeat case_decide; simpl; try lia; exfalso; apply Hn;
      match goal with H : status t = _ |- _ => rewrite H end;
      unfold named_statuses; simpl; set_solver.
  - apply dec_stable in Hn. unfold named_statuses in Hn. simpl in Hn.
    repeat (apply elem_of_cons in Hn as [Hn|Hn];
            [rewrite Hn; decide_literals; simpl; lia|]).
    now apply elem_of_nil in Hn.
Qed.

(** C6. In the summary of any list of records, each of the five named
    fields is the number of records with exactly that status; the total
    counts every record, so it is the sum of the five fields and of the
    number of records with any other status, and the five fields together
    never exceed it. *)
Theorem named_counts (n_prds : nat) (all_tasks : list task) :
  let s := summarize n_prds all_tasks in
  pending s = length (with_status "pending" all_tasks)
  /\ in_progress s = length (with_status "in_progress" all_tasks)
  /\ done s = length (with_status "done" all_tasks)
  /\ blocked s = length (with_status "blocked" all_tasks)
  /\ cancelled s = length (with_status "cancelled" all_tasks)
  /\ total_tasks s =
     pending s + in_progress s + done s + blocked s + cancelled s
     + length (with_other_status all_tasks)
  /\ pending s + in_progress s + done s + blocked s + cancelled s
     <= total_tasks s.
Proof.
  cbn [summarize pending in_progress done blocked cancelled total_tasks].
  rewrite !get0_spec. pose proof (named_or_other all_tasks). lia.
Qed.

(** ** Rounding *)

(** [round_half_even num den] is an integer nearest to [num / den], and the
    even one of the two when [num / den] lies half way between them. *)
Lemma round_half_even_nearest (num den : Z) :
  (0 < den)%Z ->
  let q := round_half_even num den in
  (Z.abs (2 * num - 2 * den * q) <= den)%Z
  /\ (Z.abs (2 * num - 2 * den * q) = den -> Z.even q = true).
Proof.
  intros Hden. unfold round_half_even.
  pose proof (Z.div_mod num den ltac:(lia)) as Hdm.
  pose proof (Z.mod_pos_bound num den Hden) as Hr.
  set (d := (num / den)%Z) in *. set (r := (num mod den)%Z) in *.
  destruct (Z.compare_spec (2 * r) den) as [E|E|E].
  - destruct (Z.even d) eqn:Ev.
    + split; [lia|auto].
    + split; [lia|]. intros _. rewrite Z.even_add, Ev. reflexivity.
  - split; lia.
  - split; lia.
Qed.

(** The integer that [round(f, 1)] works with is ten times the value
    [m * 2^e] of the float: exactly for an integral float, and within one
    half of it otherwise. *)
Lemma tenths_nearest (m : positive) (e : Z) :
  ((0 <= e -> tenths m e = 10 * Z.pos m * 2 ^ e)
   /\ (e < 0 ->
       Z.abs (2 * (10 * Z.pos m) - 2 * 2 ^ (- e) * tenths m e)
       <= 2 ^ (- e)))%Z.
Proof.
  unfold tenths. split; intros He.
  - apply Z.leb_le in He. now rewrite He.
  - assert (Hlt : (0 <=? e)%Z = false) by (apply Z.leb_gt; exact He).
    rewrite Hlt.
    apply (round_half_even_nearest (10 * Z.pos m) (2 ^ (- e))).
    apply Z.pow_pos_nonneg; lia.
Qed.

(** The integer that [round(f, 1)] works with is an integer nearest to
    ten times [m * 2^e], written without fractions, and the even one of
    the two when ten times the value lies half way between them. *)
Lemma tenths_nearest_even (m : positive) (e : Z) :
  let n := tenths m e in
  let scale := (2 ^ Z.max (- e) 0)%Z in
  let exact := (10 * Z.pos m * 2 ^ Z.max e 0)%Z in
  (2 * Z.abs (exact - n * scale) <= scale)%Z
  /\ ((2 * Z.abs (exact - n * scale))%Z = scale -> Z.even n = true).
Proof.
  intros n scale exact. subst n scale exact. unfold tenths.
  destruct (Z.leb_spec 0 e) as [He|He].
  - rewrite (Z.max_r (- e) 0), (Z.max_l e 0) by lia.
    change (2 ^ 0)%Z with 1%Z. split; [lia|]. intros H. exfalso. lia.
  - rewrite (Z.max_l (- e) 0), (Z.max_r e 0) by lia.
    change (2 ^ 0)%Z with 1%Z.
    assert (Hpos : (0 < 2 ^ (- e))%Z) by (apply Z.pow_pos_nonneg; lia).
    pose proof (round_half_even_nearest (10 * Z.pos m) (2 ^ (- e)) Hpos)
      as [H1 H2].
    cbv zeta in H1, H2. split.
    + lia.
    + intros H. apply H2. lia.
Qed.

(** C3. The completion of the summary of any list of records is the
    integer [0] when the list is empty.  Otherwise it is a float [f] got
    from the ratio, which is the number of records with status [done]
    divided by the number of records and multiplied by 100, all three as
    binary64 floats: where the ratio is [m * 2^e] with its sign, [f] is
    the float nearest to [n / 10], with that sign, for the integer [n]
    nearest to ten times [m * 2^e], the even one of two that are equally
    near; a ratio without binary digits after the point, or so large that
    its tenths are no float, is left as it is, and so is a zero. *)
Theorem completion_is_rounded_ratio (n_prds : nat) (all_tasks : list task) :
  let total_count := length all_tasks in
  let done_count :=
    length (filter (fun t => status t = lit_str "done") all_tasks) in
  let ratio :=
    PrimFloat.mul
      (PrimFloat.div
         (PrimFloat.of_uint63 (Uint63.of_Z (Z.of_nat done_count)))
         (PrimFloat.of_uint63 (Uint63.of_Z (Z.of_nat total_count))))
      (PrimFloat.of_uint63 100) in
  (total_count = 0 /\ completion (summarize n_prds all_tasks) = PyInt 0)
  \/ (0 < total_count
      /\ exists f : float,
           completion (summarize n_prds all_tasks) = PyFloat f
           /\ match Prim2SF ratio with
              | S754_finite s m e =>
                  exists n : Z,
                    let scale := (2 ^ Z.max (- e) 0)%Z in
                    let exact := (10 * Z.pos m * 2 ^ Z.max e 0)%Z in
                    (2 * Z.abs (exact - n * scale) <= scale)%Z
                    /\ ((2 * Z.abs (exact - n * scale))%Z = scale ->
                        Z.even n = true)
                    /\ f =
                       if (0 <=? e)%Z || (2 ^ 53 <=? n)%Z then ratio
                       else
                         let r :=
                           PrimFloat.div
                             (PrimFloat.of_uint63 (Uint63.of_Z n))
                             (PrimFloat.of_uint63 10) in
                         if s then PrimFloat.opp r else r
              | _ => f = ratio
              end).
Proof.
  intros total_count done_count ratio.
  cbn [summarize completion]. rewrite get0_spec.
  unfold with_status, float_of_nat. fold done_count total_count ratio.
  destruct total_count as [|k] eqn:E.
  - left. split; reflexivity.
  - right. split; [lia|]. cbn [Nat.ltb Nat.leb round1].
    eexists. split; [reflexivity|]. unfold round1_float.
    destruct (Prim2SF ratio) as [| | |s m e]; try reflexivity.
    exists (tenths m e).
    pose proof (tenths_nearest_even m e) as [H1 H2].
    split; [exact H1|]. split; [exact H2|]. reflexivity.
Qed.

(** C9. In every summary that the aggregator returns, the total is the
    length of the list of records and each of the five named fields is the
    number of records of the list with exactly that status; so the count
    in the header of each printed section is the field of the breakdown,
    and the section is there exactly when that field is not zero. *)
Theorem summary_invariant (w : project_dir) (s : summary) (w' : project_dir) :
  get_status_summary w = Returned s w' ->
  total_tasks s = length (tasks s)
  /\ pending s = length (with_status "pending" (tasks s))
  /\ in_progress s = length (with_status "in_progress" (tasks s))
  /\ done s = length (with_status "done" (tasks s))
  /\ blocked s = length (with_status "blocked" (tasks s))
  /\ cancelled s = length (with_status "cancelled" (tasks s))
  /\ pending_section s =
     match pending s with
     | 0 => []
     | S _ =>
         ([10%N; 0x23F3%N] ++ u " Pending Tasks (" ++ str_nat (pending s)
          ++ u "):")
         :: map task_line (take 10 (with_status "pending" (tasks s)))
         ++ (if (10 <? pending s)%nat
             then [u "  ... and " ++ str_nat (pending s - 10) ++ u " more"]
             else [])
     end
  /\ in_progress_section s =
     match in_progress s with
     | 0 => []
     | S _ =>
         ([10%N; 0x1F504%N] ++ u " In Progress Tasks ("
          ++ str_nat (in_progress s) ++ u "):")
         :: map task_line (with_status "in_progress" (tasks s))
     end
  /\ blocked_section s =
     match blocked s with
     | 0 => []
     | S _ =>
         ([10%N; 0x1F6AB%N] ++ u " Blocked Tasks (" ++ str_nat (blocked s)
          ++ u "):")
         :: map task_line (with_status "blocked" (tasks s))
     end.
Proof.
  intros H. apply get_status_summary_Returned in H as (n & l & ->).
  unfold pending_section, in_progress_section, blocked_section.
  cbn [summarize tasks total_tasks pending in_progress done blocked
       cancelled].
  rewrite !get0_spec. repeat split.
  - now destruct (with_status "pending" l).
  - now destruct (with_status "in_progress" l).
  - now destruct (with_status "blocked" l).
Qed.

(** ** The run as a function of what it discovers *)

Lemma lookup_entry_filter (f : str -> bool) n (l : listing) :
  f n = true ->
  lookup_entry n (List.filter (fun e => f (fst e)) l) = lookup_entry n l.
Proof.
  intros Hn. induction l as [|[n' x] l IH]; simpl; [reflexivity|].
  destruct (f n') eqn:E; simpl; [now rewrite IH|].
  rewrite bool_decide_eq_false_2; [exact IH|congruence].
Qed.

Lemma parse_each_records w (l : listing) (all_tasks : list task) :
  Forall (fun e => glob_match (lit_str "TASKS-") (lit_str ".md") (fst e) = true)
    l ->
  parse_each (map (fun e => {| parent := Tasks; name := fst e |}) l)
    all_tasks w =
  match records_of (task_entries w) l all_tasks with
  | Some r => Returned r w
  | None => Raised
  end.
Proof.
  intros Hl. revert all_tasks.
  induction Hl as [|[n x] l Hn Hl IH]; intros all_tasks; [reflexivity|].
  cbn [map parse_each records_of fst]. unfold mbind at 1, io_bind.
  unfold parse_task_file, mbind at 1, io_bind, read_text. cbn [parent name].
  unfold task_entries at 1. rewrite lookup_entry_filter by exact Hn.
  cbn [subdir_of]. destruct (tasks_dir w) as [all|]; simpl.
  - destruct (lookup_entry n all) as [[content|]|]; [apply IH|reflexivity..].
  - reflexivity.
Qed.

Lemma filter_Forall {A} (f : A -> bool) (l : list A) :
  Forall (fun a => f a = true) (List.filter f l).
Proof.
  apply List.Forall_forall. intros a Ha. now apply filter_In in Ha.
Qed.

Lemma find_task_files_eq w :
  find_task_files w =
  Returned (map (fun e => {| parent := Tasks; name := fst e |})
              (task_entries w)) w.
Proof.
  unfold find_task_files, path_exists, glob, task_entries, mbind, io_bind,
    mret, io_ret.
  cbn [subdir_of]. destruct (tasks_dir w) as [l|] eqn:E.
  - rewrite bool_decide_eq_true_2 by eauto. simpl. now rewrite E.
  - rewrite bool_decide_eq_false_2 by apply is_Some_None. reflexivity.
Qed.

Lemma find_prd_files_eq w :
  find_prd_files w =
  Returned (map (fun e => {| parent := Prds; name := fst e |})
              (prd_entries w)) w.
Proof.
  unfold find_prd_files, path_exists, glob, prd_entries, mbind, io_bind,
    mret, io_ret.
  cbn [subdir_of]. destruct (prds_dir w) as [l|] eqn:E.
  - rewrite bool_decide_eq_true_2 by eauto. simpl. now rewrite E.
  - rewrite bool_decide_eq_false_2 by apply is_Some_None. reflexivity.
Qed.

(** The run in closed form. *)
Lemma get_status_summary_eq w :
  get_status_summary w =
  match records_of (task_entries w) (task_entries w) [] with
  | Some all_tasks =>
      Returned (summarize (length (prd_entries w)) all_tasks) w
  | None => Raised
  end.
Proof.
  unfold get_status_summary, mbind, io_bind.
  rewrite find_task_files_eq, find_prd_files_eq, parse_each_records
    by apply filter_Forall.
  rewrite length_map.
  destruct (records_of _ _ _); reflexivity.
Qed.

(** C8. The summary is a function of what a run discovers: two runs over
    directories with the same discovered task files, in the same order and
    with the same contents, and with as many discovered requirement files,
    return the same summary or both fail; and a run that returns leaves the
    directory as it found it, so nothing is carried to the next run. *)
Theorem aggregation_is_repeatable (w1 w2 : project_dir) :
  task_entries w1 = task_entries w2 ->
  length (prd_entries w1) = length (prd_entries w2) ->
  value (get_status_summary w1) = value (get_status_summary w2)
  /\ (forall s w', get_status_summary w1 = Returned s w' ->
        w' = w1 /\ get_status_summary w' = Returned s w').
Proof.
  intros Ht Hp. split.
  - rewrite !get_status_summary_eq, Ht, Hp.
    destruct (records_of _ _ _); reflexivity.
  - intros s w' H. pose proof (reads_only_get_status_summary _ _ _ H) as ->.
    split; [reflexivity|exact H].
Qed.

Lemma aggregation_is_repeatable_witness :
  let tasks_file :=
    (lit_str "TASKS-AUTH.md",
     File (lit_str "- [x] TASK-AUTH-001: Implement login")) in
  let w1 :=
    {| tasks_dir := Some [tasks_file];
       prds_dir := Some [(lit_str "PRD-AUTH.md", Unreadable)] |} in
  let w2 :=
    {| tasks_dir := Some [(lit_str "notes.txt", Unreadable); tasks_file];
       prds_dir := Some [(lit_str "PRD-AUTH.md", File []);
                         (lit_str ".gitkeep", File [])] |} in
  value (get_status_summary w1) = value (get_status_summary w2)
  /\ (forall s w', get_status_summary w1 = Returned s w' ->
        w' = w1 /\ get_status_summary w' = Returned s w').
Proof.
  intros tasks_file w1 w2.
  apply (aggregation_is_repeatable w1 w2); reflexivity.
Defined.

(** C7. When [tasks/] is missing, no task file is discovered, and when
    [prds/] is missing, no requirement file is, without an error; and with
    [tasks/] missing and [prds/] holding one entry, whose name matches
    [PRD-*.md], the run returns a summary with one requirement file, no
    task and the completion [0]. *)
Theorem missing_subdirectory (w : project_dir) :
  (tasks_dir w = None -> find_task_files w = Returned [] w)
  /\ (prds_dir w = None -> find_prd_files w = Returned [] w)
  /\ (forall entry x,
        tasks_dir w = None ->
        prds_dir w = Some [(entry, x)] ->
        glob_match (lit_str "PRD-") (lit_str ".md") entry = true ->
        exists s,
          get_status_summary w = Returned s w
          /\ total_prds s = 1 /\ total_tasks s = 0
          /\ completion s = PyInt 0 /\ tasks s = []).
Proof.
  split; [|split].
  - intros H. rewrite find_task_files_eq. unfold task_entries. now rewrite H.
  - intros H. rewrite find_prd_files_eq. unfold prd_entries. now rewrite H.
  - intros entry x Ht Hp He. rewrite get_status_summary_eq.
    unfold task_entries, prd_entries. rewrite Ht, Hp.
    change (default [] (Some [(entry, x)])) with [(entry, x)].
    change (default [] (@None listing)) with (@nil (str * node)).
    cbn [List.filter fst]. rewrite He. simpl. eexists.
    split; [reflexivity|]. repeat split.
Qed.

Lemma missing_subdirectory_witness :
  let w :=
    {| tasks_dir := None;
       prds_dir :=
         Some [(lit_str "PRD-AUTH.md", File (lit_str "# Login"))] |} in
  exists s,
    get_status_summary w = Returned s w
    /\ total_prds s = 1 /\ total_tasks s = 0
    /\ completion s = PyInt 0 /\ tasks s = [].
Proof.
  intros w.
  apply (proj2 (proj2 (missing_subdirectory w))
           (lit_str "PRD-AUTH.md") (File (lit_str "# Login")));
    reflexivity.
Defined.

Lemma summary_invariant_witness :
  let w :=
    {| tasks_dir :=
         Some [(lit_str "TASKS-AUTH.md",
                File (lit_str "- [x] TASK-AUTH-001: Implement login"))];
       prds_dir := None |} in
  let s :=
    summarize 0
      (parse_content (lit_str "TASKS-AUTH.md")
         (lit_str "- [x] TASK-AUTH-001: Implement login")) in
  total_tasks s = length (tasks s)
  /\ pending s = length (with_status "pending" (tasks s))
  /\ in_progress s = length (with_status "in_progress" (tasks s))
  /\ done s = length (with_status "done" (tasks s))
  /\ blocked s = length (with_status "blocked" (tasks s))
  /\ cancelled s = length (with_status "cancelled" (tasks s))
  /\ pending_section s =
     match pending s with
     | 0 => []
     | S _ =>
         ([10%N; 0x23F3%N] ++ u " Pending Tasks (" ++ str_nat (pending s)
          ++ u "):")
         :: map task_line (take 10 (with_status "pending" (tasks s)))
         ++ (if (10 <? pending s)%nat
             then [u "  ... and " ++ str_nat (pending s - 10) ++ u " more"]
             else [])
     end
  /\ in_progress_section s =
     match in_progress s with
     | 0 => []
     | S _ =>
         ([10%N; 0x1F504%N] ++ u " In Progress Tasks ("
          ++ str_nat (in_progress s) ++ u "):")
         :: map task_line (with_status "in_progress" (tasks s))
     end
  /\ blocked_section s =
     match blocked s with
     | 0 => []
     | S _ =>
         ([10%N; 0x1F6AB%N] ++ u " Blocked Tasks (" ++ str_nat (blocked s)
          ++ u "):")
         :: map task_line (with_status "blocked" (tasks s))
     end.
Proof.
  intros w s. apply (summary_invariant w s w). reflexivity.
Defined.

(** ** The report *)

(** C4. In the report of any summary, the section of the pending tasks is
    left out when no record of the summary has the status [pending]; with
    more than ten such records it is the header with their number, one
    line [  - <id>: <first 60 characters of the description>...] for each
    of the first ten of them in the order of the list, and a last line
    [... and N more] where [N] is their number minus ten; so with fifteen
    of them the report has ten lines of pending tasks and then
    [... and 5 more]. *)
Theorem pending_pagination (s : summary) :
  let pending := filter (fun t => status t = lit_str "pending") (tasks s) in
  let line (t : task) :=
    u "  - " ++ utext (id t) ++ u ": " ++ utext (take 60 (description t))
    ++ u "..." in
  let others :=
    in_progress_section s ++ blocked_section s ++ [ [10%N] ++ rule ] in
  (pending = [] -> print_status_summary s = summary_lines s ++ others)
  /\ (10 < length pending ->
      print_status_summary s =
      summary_lines s
      ++ [ [10%N; 0x23F3%N] ++ u " Pending Tasks ("
           ++ u (pretty (length pending)) ++ u "):" ]
      ++ map line (take 10 pending)
      ++ [ u "  ... and " ++ u (pretty (length pending - 10)) ++ u " more" ]
      ++ others)
  /\ (length pending = 15 ->
      print_status_summary s =
      summary_lines s
      ++ [ [10%N; 0x23F3%N] ++ u " Pending Tasks (15):" ]
      ++ map line (take 10 pending)
      ++ [ u "  ... and 5 more" ]
      ++ others
      /\ length (map line (take 10 pending)) = 10).
Proof.
  intros pending line others.
  unfold print_status_summary, pending_section, with_status.
  change task_line with line. unfold str_nat.
  fold pending. fold others. split; [|split].
  - now intros ->.
  - intros H. destruct pending as [|t l]; [simpl in H; lia|].
    apply Nat.ltb_lt in H. rewrite H. now rewrite <- !app_assoc.
  - intros H. destruct pending as [|t l] eqn:E; [discriminate|].
    rewrite H. split; [now rewrite <- !app_assoc|].
    rewrite length_map, length_take. lia.
Qed.

Lemma pending_pagination_witness :
  let s := summarize 0 (parse_content (lit_str "TASKS-A.md") fifteen_lines) in
  length (filter (fun t => status t = lit_str "pending") (tasks s)) = 15
  /\ print_status_summary s =
     summary_lines s
     ++ [ [10%N; 0x23F3%N] ++ u " Pending Tasks (15):";
          u "  - TASK-A-1: item...";
          u "  - TASK-A-2: item...";
          u "  - TASK-A-3: item...";
          u "  - TASK-A-4: item...";
          u "  - TASK-A-5: item...";
          u "  - TASK-A-6: item...";
          u "  - TASK-A-7: item...";
          u "  - TASK-A-8: item...";
          u "  - TASK-A-9: item...";
          u "  - TASK-A-10: item...";
          u "  ... and 5 more";
          [10%N] ++ rule ].
Proof.
  intros s.
  assert (H : length (filter (fun t => status t = lit_str "pending")
                        (tasks s)) = 15) by (vm_compute; reflexivity).
  split; [exact H|].
  rewrite (proj1 (proj2 (proj2 (pending_pagination s)) H)).
  vm_compute. reflexivity.
Defined.

Lemma task_line_marker t : take 4 (task_line t) = u "  - ".
Proof. reflexivity. Qed.

Lemma In_task_lines line (l : list task) :
  In line (map task_line l) -> exists t, In t l /\ line = task_line t.
Proof. intros H. apply in_map_iff in H as (t & <- & H). eauto. Qed.

(** C5. The lines of the report that start with the task marker are the
    lines of the listed tasks, one for each: the marker, the identifier, a
    colon, the first 60 characters of the description, the whole of it
    when it is no longer, and then the ellipsis, whatever the length. *)
Theorem task_lines_truncate (s : summary) :
  (forall line,
     In line (print_status_summary s) -> take 4 line = u "  - " ->
     exists t d,
       In t (listed s)
       /\ line = u "  - " ++ utext (id t) ++ u ": " ++ utext d ++ u "..."
       /\ d = take 60 (description t) /\ length d <= 60)
  /\ (forall t,
        In t (listed s) ->
        In (u "  - " ++ utext (id t) ++ u ": "
            ++ utext (take 60 (description t)) ++ u "...")
          (print_status_summary s)
        /\ (length (description t) <= 60 ->
            take 60 (description t) = description t)
        /\ (60 < length (description t) ->
            length (take 60 (description t)) = 60)).
Proof.
  split.
  - intros line H Hm.
    assert (Ht : exists t, In t (listed s) /\ line = task_line t).
    { unfold print_status_summary in H.
      rewrite !in_app_iff in H. destruct H as [H|[H|[H|[H|H]]]].
      - unfold summary_lines in H. simpl in H.
        repeat (destruct H as [<-|H]; [discriminate Hm|]). destruct H.
      - unfold pending_section in H.
        destruct (with_status "pending" (tasks s)) as [|t0 l0] eqn:E;
          [destruct H|].
        cbn [app In] in H. destruct H as [<-|H]; [discriminate Hm|].
        rewrite in_app_iff in H. destruct H as [H|H].
        + apply In_task_lines in H as (t & H & ->). exists t.
          split; [|reflexivity]. unfold listed. rewrite E.
          apply in_or_app. now left.
        + destruct (10 <? length (t0 :: l0))%nat; [|destruct H].
          destruct H as [<-|[]]. discriminate Hm.
      - unfold in_progress_section in H.
        destruct (with_status "in_progress" (tasks s)) as [|t0 l0] eqn:E;
          [destruct H|].
        cbn [app In] in H. destruct H as [<-|H]; [discriminate Hm|].
        apply In_task_lines in H as (t & H & ->). exists t.
        split; [|reflexivity]. unfold listed. rewrite E.
        apply in_or_app. right. apply in_or_app. now left.
      - unfold blocked_section in H.
        destruct (with_status "blocked" (tasks s)) as [|t0 l0] eqn:E;
          [destruct H|].
        cbn [app In] in H. destruct H as [<-|H]; [discriminate Hm|].
        apply In_task_lines in H as (t & H & ->). exists t.
        split; [|reflexivity]. unfold listed. rewrite E.
        apply in_or_app. right. apply in_or_app. now right.
      - destruct H as [<-|[]]. discriminate Hm. }
    destruct Ht as (t & Ht & ->). exists t, (take 60 (description t)).
    repeat split; [exact Ht|]. rewrite length_take. lia.
  - intros t Ht. split; [|split].
    + change (In (task_line t) (print_status_summary s)).
      unfold print_status_summary. unfold listed in Ht.
      apply in_or_app. right.
      apply in_app_or in Ht as [Ht|Ht]; [|apply in_app_or in Ht as [Ht|Ht]].
      * apply in_or_app. left.
        unfold pending_section.
        destruct (with_status "pending" (tasks s)) as [|t0 l0];
          [destruct Ht|].
        cbn [app In]. right. rewrite in_app_iff. left. now apply in_map.
      * apply in_or_app. right. apply in_or_app. left.
        unfold in_progress_section.
        destruct (with_status "in_progress" (tasks s)) as [|t0 l0];
          [destruct Ht|].
        cbn [app In]. right. now apply in_map.
      * apply in_or_app. right. apply in_or_app. right.
        apply in_or_app. left. unfold blocked_section.
        destruct (with_status "blocked" (tasks s)) as [|t0 l0];
          [destruct Ht|].
        cbn [app In]. right. now apply in_map.
    + intros H. now apply take_ge.
    + intros H. rewrite length_take. lia.
Qed.

(** ** Texts of one line *)

Lemma at_eol_dot s : at_eol s = true -> forallb is_dot s = true -> s = [].
Proof.
  destruct s as [|a s]; [reflexivity|]. simpl. unfold is_dot.
  intros ->. discriminate.
Qed.

Lemma finditer_nil : finditer [] = [].
Proof. reflexivity. Qed.

(** A match in a text without line feed ends the text, so the scan of
    such a text finds at most one match. *)
Lemma finditer_one_line s :
  forallb is_dot s = true -> length (finditer s) <= 1.
Proof.
  induction s as [|a s IH]; intros Hs; [simpl; lia|].
  rewrite finditer_eq. destruct (task_pattern (a :: s)) eqn:E.
  - apply task_pattern_Some in E as (ws & gap & E & Hwf).
    rewrite E in Hs. rewrite forallb_app in Hs.
    apply andb_true_iff in Hs as [_ Hs].
    rewrite (at_eol_dot _ (wf_eol _ _ _ Hwf) Hs). simpl. lia.
  - simpl in Hs. apply andb_true_iff in Hs as [_ Hs]. auto.
Qed.

(** A position where the pattern matches is not passed over without a
    match. *)
Lemma finditer_finds pre suf m :
  task_pattern suf = Some m -> finditer (pre ++ suf) <> [].
Proof.
  intros H. induction pre as [|a pre IH]; rewrite finditer_eq.
  - simpl. now rewrite H.
  - destruct (task_pattern ((a :: pre) ++ suf)); [discriminate|exact IH].
Qed.

(** X5. In a text without line feed, the parser derives a record, and
    then just one, exactly when the text holds a header
    [- [ ] TASK-<prd>-<num>:] or [- [x] TASK-<prd>-<num>:] that is
    followed by at least one character, whatever that character is: it
    need not be white space, and what follows the header may be blank. *)
Lemma one_line_record_iff_shape (fname line : str) :
  forallb is_dot line = true ->
  task_shape line <-> exists t, parse_content fname line = [t].
Proof.
  intros Hline. unfold parse_content. split.
  - intros (pre & c & prd & num & tail & -> & Hc & Hp & Hpw & Hn & Hnd & Ht).
    assert (Hm : matches (header c prd num ++ tail)
                   {| group1 := c; group2 := prd; group3 := num;
                      group4 := tail; group5 := None; m_rest := [] |}).
    { exists [], []. split; [unfold match_text; now flatten|].
      rewrite !forallb_app in Hline.
      apply andb_true_iff in Hline as [_ Hline].
      apply andb_true_iff in Hline as [_ Hline].
      constructor; simpl; auto. }
    apply task_pattern_complete in Hm as (m & Hm).
    pose proof (finditer_finds pre _ _ Hm) as Hne.
    pose proof (finditer_one_line _ Hline) as Hle.
    destruct (finditer _) as [|m1 [|m2 l]]; [congruence| |simpl in Hle; lia].
    simpl. eauto.
  - intros (t & Ht).
    destruct (finditer line) as [|m [|m2 l]] eqn:E; try discriminate.
    assert (Hin : In m (finditer line)) by (rewrite E; now left).
    apply finditer_In in Hin as (pre & suf & -> & Hm).
    apply task_pattern_Some in Hm as (ws & gap & -> & Hwf).
    destruct Hwf as [Hc [Hp Hpw] [Hn Hnd] _ [Hd _] _ _].
    exists pre, (group1 m), (group2 m), (group3 m),
      (ws ++ group4 m ++ tag_text gap (group5 m) ++ m_rest m).
    split; [unfold match_text; now rewrite <- !app_assoc|].
    repeat (split; [assumption|]).
    intros H. apply app_eq_nil in H as [_ H].
    apply app_eq_nil in H as [H _]. contradiction.
Qed.

(** ** Where a header ends *)

(** A run of characters of a class that is followed by a character outside
    the class is determined by the text. *)
Lemma span_unique (p : ascii -> bool) t1 t2 a1 a2 (s1 s2 : str) :
  forallb p t1 = true -> forallb p t2 = true ->
  p a1 = false -> p a2 = false ->
  t1 ++ a1 :: s1 = t2 ++ a2 :: s2 ->
  t1 = t2 /\ a1 = a2 /\ s1 = s2.
Proof.
  revert t2. induction t1 as [|b t1 IH]; intros [|b2 t2] H1 H2 Ha1 Ha2 E;
    simpl in *.
  - now injection E.
  - injection E as -> _. apply andb_true_iff in H2 as [H2 _]. congruence.
  - injection E as -> _. apply andb_true_iff in H1 as [H1 _]. congruence.
  - injection E as -> E. apply andb_true_iff in H1 as [_ H1].
    apply andb_true_iff in H2 as [_ H2].
    destruct (IH t2 H1 H2 Ha1 Ha2 E) as (-> & -> & ->). auto.
Qed.

Lemma header_inj c1 prd1 num1 c2 prd2 num2 (x1 x2 : str) :
  forallb is_word prd1 = true -> forallb is_word prd2 = true ->
  forallb is_digit num1 = true -> forallb is_digit num2 = true ->
  header c1 prd1 num1 ++ x1 = header c2 prd2 num2 ++ x2 ->
  c1 = c2 /\ prd1 = prd2 /\ num1 = num2 /\ x1 = x2.
Proof.
  intros Hp1 Hp2 Hn1 Hn2 E. unfold header in E. flatten_in E.
  injection E as -> E.
  apply span_unique with (p := is_word) in E as (-> & _ & E);
    [|assumption|assumption|reflexivity|reflexivity].
  apply span_unique with (p := is_digit) in E as (-> & _ & E);
    [|assumption|assumption|reflexivity|reflexivity].
  auto.
Qed.

(** ** White space *)

Lemma lstrip_space s : forallb is_space s = true -> lstrip s = [].
Proof.
  induction s as [|a s IH]; simpl; [reflexivity|].
  intros H. apply andb_true_iff in H as [-> H]. auto.
Qed.

Lemma strip_space s : forallb is_space s = true -> strip s = [].
Proof. intros H. unfold strip. now rewrite lstrip_space. Qed.

(** The scan finds nothing in white space. *)
Lemma finditer_space s : forallb is_space s = true -> finditer s = [].
Proof.
  intros Hs. destruct (finditer s) as [|m l] eqn:E; [reflexivity|exfalso].
  assert (Hin : In m (finditer s)) by (rewrite E; now left).
  apply finditer_In in Hin as (pre & suf & -> & Hm).
  apply task_pattern_Some in Hm as (ws & gap & -> & _).
  rewrite forallb_app in Hs. apply andb_true_iff in Hs as [_ Hs].
  unfold match_text, header in Hs. flatten_in Hs. discriminate.
Qed.

(** X11. A header [- [c] TASK-<prd>-<num>:] at the start of the text that
    has after it on its line at least one character of white space and
    nothing else, and after that line nothing but white space up to the
    end of the text, gives one record; the description of that record is
    empty and its status is [done] for the checkbox [x] and [pending]
    for the empty one. *)
Lemma blank_description_at_end (fname : str) c prd num ws tl :
  is_box c = true ->
  prd <> [] -> forallb is_word prd = true ->
  num <> [] -> forallb is_digit num = true ->
  ws <> [] -> forallb is_space ws = true -> forallb is_dot ws = true ->
  forallb is_space tl = true -> at_eol tl = true ->
  parse_content fname (header c prd num ++ ws ++ tl) =
  [ {| id := lit_str "TASK-" ++ prd ++ lit_str "-" ++ num;
       prd_id := prd;
       description := [];
       status := if Ascii.eqb c "x" then lit_str "done" else lit_str "pending";
       file := fname |} ].
Proof.
  intros Hc Hp Hpw Hn Hnd Hws Hwss Hwsd Htl Heol.
  assert (Hm : matches (header c prd num ++ ws ++ tl)
                 {| group1 := c; group2 := prd; group3 := num;
                    group4 := [List.last ws newline]; group5 := None;
                    m_rest := tl |}).
  { exists (removelast ws), []. split.
    - unfold match_text. flatten.
      rewrite (app_removelast_last newline Hws) at 1.
      now rewrite <- app_assoc.
    - assert (Hl : In (List.last ws newline) ws).
      { rewrite (app_removelast_last newline Hws) at 2.
        apply in_or_app. right. now left. }
      constructor; simpl; auto.
      + rewrite (app_removelast_last newline Hws), forallb_app in Hwss.
        now apply andb_true_iff in Hwss as [? _].
      + split; [discriminate|]. rewrite andb_true_r.
        rewrite List.forallb_forall in Hwsd. auto. }
  apply task_pattern_complete in Hm as (m & Hm).
  unfold parse_content. rewrite finditer_eq, Hm.
  apply task_pattern_Some in Hm as (ws' & gap & E & Hwf).
  destruct Hwf as [_ [_ Hpw'] [_ Hnd'] _ _ Htag _].
  unfold match_text in E. rewrite <- !app_assoc in E.
  apply header_inj in E as (Ec & Ep & En & E); try assumption.
  assert (Hall : forallb is_space
                   (ws' ++ group4 m ++ tag_text gap (group5 m) ++ m_rest m)
                 = true).
  { rewrite <- E, forallb_app, Hwss, Htl. reflexivity. }
  rewrite !forallb_app in Hall.
  apply andb_true_iff in Hall as [_ Hall].
  apply andb_true_iff in Hall as [Hd Hall].
  apply andb_true_iff in Hall as [Hg Hr].
  rewrite (finditer_space _ Hr). simpl.
  unfold task_of_match. rewrite (strip_space _ Hd), <- Ec, <- Ep, <- En.
  destruct (group5 m) as [w|]; [|reflexivity].
  unfold tag_text in Hg. rewrite forallb_app in Hg.
  apply andb_true_iff in Hg as [_ Hg]. discriminate.
Qed.

(** ** Which match is the first

    A greedy run that can stop only in one place stops there when the rest
    matches; a lazy run stops at the first place where the rest matches. *)

Lemma star_from_first {R} p (k : str -> @cont R) acc t s' r :
  forallb p t = true -> forallb p (firstn 1 s') = false \/ s' = [] ->
  k (acc ++ t) s' = Some r ->
  star_from p k acc (t ++ s') = Some r.
Proof.
  revert acc. induction t as [|b t IH]; intros acc Ht Hs Hk; simpl in *.
  - rewrite app_nil_r in Hk. destruct s' as [|a s']; simpl; [exact Hk|].
    destruct Hs as [Hs|Hs]; [|discriminate]. simpl in Hs.
    rewrite andb_true_r in Hs. now rewrite Hs.
  - apply andb_true_iff in Ht as [-> Ht].
    rewrite (IH (acc ++ [b])); auto. now rewrite <- app_assoc.
Qed.

Lemma plus_first {R} p (k : str -> @cont R) t s' r :
  t <> [] -> forallb p t = true ->
  forallb p (firstn 1 s') = false \/ s' = [] ->
  k t s' = Some r ->
  plus p k (t ++ s') = Some r.
Proof.
  destruct t as [|b t]; [congruence|]. intros _ Ht Hs Hk. simpl in *.
  apply andb_true_iff in Ht as [-> Ht]. now apply star_from_first.
Qed.

Lemma lazy_from_first {R} p (k : str -> @cont R) acc t s' r :
  forallb p t = true ->
  k (acc ++ t) s' = Some r ->
  (forall t1 t2, t = t1 ++ t2 -> t2 <> [] ->
     k (acc ++ t1) (t2 ++ s') = None) ->
  lazy_from p k acc (t ++ s') = Some r.
Proof.
  revert acc. induction t as [|b t IH]; intros acc Ht Hk Hnone.
  - rewrite app_nil_r in Hk. destruct s'; simpl; now rewrite Hk.
  - simpl in Ht. apply andb_true_iff in Ht as [Hb Ht].
    assert (H0 : k acc (b :: t ++ s') = None).
    { rewrite <- (app_nil_r acc). now apply (Hnone [] (b :: t)). }
    cbn [app lazy_from]. rewrite H0, Hb.
    apply IH; [exact Ht|now rewrite <- app_assoc|].
    intros t1 t2 -> Ht2. rewrite <- app_assoc.
    apply (Hnone (b :: t1) t2 eq_refl Ht2).
Qed.

Lemma plus_lazy_first {R} p (k : str -> @cont R) t s' r :
  t <> [] -> forallb p t = true ->
  k t s' = Some r ->
  (forall t1 t2, t = t1 ++ t2 -> t1 <> [] -> t2 <> [] ->
     k t1 (t2 ++ s') = None) ->
  plus_lazy p k (t ++ s') = Some r.
Proof.
  destruct t as [|b t]; [congruence|]. intros _ Ht Hk Hnone. simpl in *.
  apply andb_true_iff in Ht as [-> Ht].
  apply lazy_from_first; [exact Ht|exact Hk|].
  intros t1 t2 -> Ht2. apply (Hnone (b :: t1) t2 eq_refl); [discriminate|auto].
Qed.

Lemma tag_group_first {R} (k : str -> @cont R) gap w s' r :
  gap <> [] -> forallb is_space gap = true ->
  w <> [] -> forallb is_word w = true ->
  k w s' = Some r ->
  tag_group k (gap ++ "["%char :: w ++ "]"%char :: s') = Some r.
Proof.
  intros Hg Hgs Hw Hww Hk. unfold tag_group.
  apply plus_first; [assumption|assumption|now left|].
  rewrite chr_cons. apply plus_first; [assumption|assumption|now left|].
  now rewrite chr_cons.
Qed.

(** ** A line with a tag *)

Lemma forallb_rev_true (p : ascii -> bool) (l : str) :
  forallb p l = true -> forallb p (rev l) = true.
Proof.
  rewrite !List.forallb_forall. intros H a Ha. apply H.
  now apply in_rev.
Qed.

Lemma span_unique_r (p : ascii -> bool) t1 t2 a1 a2 (s1 s2 : str) :
  forallb p t1 = true -> forallb p t2 = true ->
  p a1 = false -> p a2 = false ->
  s1 ++ a1 :: t1 = s2 ++ a2 :: t2 ->
  s1 = s2 /\ t1 = t2.
Proof.
  intros H1 H2 Ha1 Ha2 E. apply (f_equal (@rev ascii)) in E.
  rewrite !rev_app_distr in E. simpl in E. rewrite <- !app_assoc in E.
  simpl in E.
  apply span_unique with (p := p) in E as (E1 & _ & E2);
    try assumption; try (now apply forallb_rev_true).
  split; [now apply rev_inj|now apply rev_inj].
Qed.

Lemma last_In (l : str) d : l <> [] -> In (List.last l d) l.
Proof.
  intros H. rewrite (app_removelast_last d H) at 2.
  apply in_or_app. right. now left.
Qed.

Lemma last_app_r (l1 l2 : str) d :
  l2 <> [] -> List.last (l1 ++ l2) d = List.last l2 d.
Proof.
  intros H. induction l1 as [|a l1 IH]; [reflexivity|].
  simpl. rewrite IH. destruct (l1 ++ l2) eqn:E; [|reflexivity].
  apply app_eq_nil in E as [_ E]. contradiction.
Qed.

Lemma word_is_dot w : forallb is_word w = true -> forallb is_dot w = true.
Proof.
  induction w as [|a w IH]; simpl; [reflexivity|]. intros H.
  apply andb_true_iff in H as [Ha H]. rewrite IH by exact H.
  rewrite andb_true_r. unfold is_dot.
  destruct (Ascii.eqb_spec a newline) as [->|]; [discriminate|reflexivity].
Qed.

(** A text that starts and ends with something other than white space is
    its own [strip()]. *)
Lemma strip_id s :
  is_space (hd newline s) = false ->
  is_space (List.last s newline) = false ->
  strip s = s.
Proof.
  intros Hh Hl. unfold strip, rstrip.
  assert (E : lstrip s = s).
  { destruct s as [|a s]; [reflexivity|]. simpl in *. now rewrite Hh. }
  rewrite E. destruct s as [|a s]; [reflexivity|].
  destruct (@exists_last _ (a :: s)) as (l & x & Hs); [discriminate|].
  rewrite Hs in *. rewrite last_last in Hl.
  rewrite rev_app_distr. cbn [rev app lstrip]. rewrite Hl.
  cbn [rev]. now rewrite rev_involutive.
Qed.

(** The match of a line that ends with a bracketed word after its
    description: the description is the text up to the gap before the
    bracket, and the word is the tag. *)
Lemma task_pattern_tagged c prd num ws desc gap tag :
  is_box c = true ->
  prd <> [] -> forallb is_word prd = true ->
  num <> [] -> forallb is_digit num = true ->
  forallb is_space ws = true ->
  forallb is_dot desc = true ->
  is_space (hd newline desc) = false ->
  is_space (List.last desc newline) = false ->
  gap <> [] -> forallb is_space gap = true -> forallb is_dot gap = true ->
  tag <> [] -> forallb is_word tag = true ->
  task_pattern
    (header c prd num ++ ws ++ desc ++ gap ++ lit_str "[" ++ tag
     ++ lit_str "]") =
  Some {| group1 := c; group2 := prd; group3 := num; group4 := desc;
          group5 := Some tag; m_rest := [] |}.
Proof.
  intros Hc Hp Hpw Hn Hnd Hws Hdd Hdh Hdl Hg Hgs Hgd Ht Htw.
  assert (Hdne : desc <> []).
  { intros ->. simpl in Hdh. discriminate. }
  unfold task_pattern, header. flatten.
  cbn [chars]. rewrite !chr_cons, one_cons by exact Hc. rewrite !chr_cons.
  apply plus_first; [assumption|assumption|now left|]. rewrite chr_cons.
  apply plus_first; [assumption|assumption|now left|]. rewrite chr_cons.
  unfold star. apply star_from_first; [assumption| |].
  { left. destruct desc as [|a desc]; [congruence|]. simpl in *.
    now rewrite Hdh. }
  cbn [app].
  apply plus_lazy_first; [assumption|assumption| |].
  - unfold opt. rewrite tag_group_first with (r :=
      {| group1 := c; group2 := prd; group3 := num; group4 := desc;
         group5 := Some tag; m_rest := [] |}); auto.
  - intros t1 t2 -> Ht1 Ht2.
    rewrite forallb_app in Hdd. apply andb_true_iff in Hdd as [_ Hd2].
    rewrite last_app_r in Hdl by exact Ht2.
    unfold opt.
    destruct (tag_group _ _) as [r|] eqn:E.
    + exfalso. apply tag_group_Some in E
        as (g0 & w0 & s4 & E & _ & Hg0 & _ & Hw0 & Hk).
      apply eol_Some in Hk as [He _].
      assert (Hs4 : s4 = []).
      { apply at_eol_dot; [exact He|].
        assert (Hall : forallb is_dot
                         (t2 ++ gap ++ "["%char :: tag ++ ["]"%char]) = true).
        { rewrite !forallb_app. cbn [forallb]. rewrite !forallb_app.
          rewrite Hd2, Hgd, (word_is_dot _ Htw). reflexivity. }
        rewrite E in Hall. rewrite forallb_app in Hall.
        apply andb_true_iff in Hall as [_ Hall]. cbn [forallb] in Hall.
        apply andb_true_iff in Hall as [_ Hall].
        rewrite forallb_app in Hall.
        apply andb_true_iff in Hall as [_ Hall]. cbn [forallb] in Hall.
        now apply andb_true_iff in Hall as [_ Hall]. }
      subst s4.
      assert (E' : (t2 ++ gap) ++ "["%char :: tag = g0 ++ "["%char :: w0).
      { apply (app_inj_tail _ _ "]"%char "]"%char).
        rewrite <- !app_assoc. cbn [app]. exact E. }
      apply span_unique_r with (p := is_word) in E' as [E' _];
        [|assumption|assumption|reflexivity|reflexivity].
      rewrite <- E', forallb_app in Hg0.
      apply andb_true_iff in Hg0 as [Hg0 _].
      rewrite List.forallb_forall in Hg0.
      rewrite (Hg0 _ (last_In t2 newline Ht2)) in Hdl. discriminate.
    + unfold eol. destruct t2 as [|b t2]; [congruence|].
      cbn [app at_eol]. simpl in Hd2.
      apply andb_true_iff in Hd2 as [Hb _]. unfold is_dot in Hb.
      destruct (Ascii.eqb b newline); [discriminate|reflexivity].
Qed.

(** X10. A line that ends with a bracketed word after its description
    gives one record, whose status is that word, whatever the checkbox
    says. *)
Lemma tagged_line_status (fname : str) c prd num ws desc gap tag :
  is_box c = true ->
  prd <> [] -> forallb is_word prd = true ->
  num <> [] -> forallb is_digit num = true ->
  forallb is_space ws = true ->
  forallb is_dot desc = true ->
  is_space (hd newline desc) = false ->
  is_space (List.last desc newline) = false ->
  gap <> [] -> forallb is_space gap = true -> forallb is_dot gap = true ->
  tag <> [] -> forallb is_word tag = true ->
  parse_content fname
    (header c prd num ++ ws ++ desc ++ gap ++ lit_str "[" ++ tag
     ++ lit_str "]") =
  [ {| id := lit_str "TASK-" ++ prd ++ lit_str "-" ++ num;
       prd_id := prd;
       description := desc;
       status := tag;
       file := fname |} ].
Proof.
  intros Hc Hp Hpw Hn Hnd Hws Hdd Hdh Hdl Hg Hgs Hgd Ht Htw.
  unfold parse_content. rewrite finditer_eq.
  rewrite task_pattern_tagged by assumption.
  cbn [m_rest]. rewrite finditer_nil. cbn [map].
  unfold task_of_match. cbn [group1 group2 group3 group4 group5].
  rewrite strip_id by assumption.
  destruct tag as [|a tag]; [congruence|reflexivity].
Qed.

(** ** Matches stay on their line

    When every header of a line is followed by something that is not white
    space, and the text after the line does not begin with a bracketed
    word on a line of its own, the pattern matches in the text as it does
    in the line alone. *)

Section Locality.
Variable after : str.

Local Abbreviation local := (local_on after).

Lemma is_dot_cons a s :
  forallb is_dot (a :: s) = true ->
  Ascii.eqb a newline = false /\ forallb is_dot s = true.
Proof.
  simpl. intros H. apply andb_true_iff in H as [Ha H]. split; [|exact H].
  unfold is_dot in Ha. now destruct (Ascii.eqb a newline).
Qed.

Lemma local_weaken (P Q : str -> Prop) k :
  (forall s, P s -> Q s) -> local Q k -> local P k.
Proof. intros HPQ Hk s Hs HP. apply Hk; auto. Qed.

Lemma local_chr c P k :
  Ascii.eqb newline c = false ->
  local P k -> local (fun s => forall s', s = c :: s' -> P s') (chr c k).
Proof.
  intros Hc Hk [|a s] Hs HP; cbn [app chr].
  - now rewrite Hc.
  - apply is_dot_cons in Hs as [_ Hs].
    destruct (Ascii.eqb_spec a c) as [->|]; [|reflexivity].
    apply Hk; auto.
Qed.

Lemma local_chars l P k :
  forallb is_dot l = true ->
  local P k -> local (fun s => forall s', s = l ++ s' -> P s') (chars l k).
Proof.
  revert P. induction l as [|c l IH]; intros P Hl Hk.
  - intros s Hs HP. cbn [chars]. apply Hk; auto.
  - apply is_dot_cons in Hl as [Hc Hl]. cbn [chars].
    eapply local_weaken; [|apply local_chr;
                            [now rewrite Ascii.eqb_sym|apply IH; eauto]].
    intros s HP s1 -> s' ->. now apply HP.
Qed.

Lemma local_one p (P : ascii -> str -> Prop) (k : ascii -> @cont re_match) :
  p newline = false ->
  (forall a, local (P a) (k a)) ->
  local (fun s => forall a s', s = a :: s' -> p a = true -> P a s')
    (one p k).
Proof.
  intros Hp Hk [|a s] Hs HP; cbn [app one].
  - now rewrite Hp.
  - apply is_dot_cons in Hs as [_ Hs].
    destruct (p a) eqn:E; [|reflexivity]. apply Hk; auto.
Qed.

(** A greedy run of a class without the line feed. *)
Lemma local_star_from p (P : str -> str -> Prop) (k : str -> @cont re_match)
    acc :
  p newline = false ->
  (forall g, local (P g) (k g)) ->
  local (fun s => forall t s', s = t ++ s' -> forallb p t = true ->
                   P (acc ++ t) s')
    (star_from p k acc).
Proof.
  intros Hp Hk s. revert acc. induction s as [|a s IH]; intros acc Hs HP.
  - cbn [app star_from]. rewrite Hp. apply (Hk acc []); [reflexivity|].
    rewrite <- (app_nil_r acc). now apply (HP [] []).
  - pose proof Hs as Hs0. apply is_dot_cons in Hs as [Ha Hs].
    cbn [app star_from].
    assert (Hhere : k acc ((a :: s) ++ newline :: after)
                    = option_map (followed_by after) (k acc (a :: s))).
    { apply (Hk acc (a :: s)); [exact Hs0|].
      rewrite <- (app_nil_r acc). now apply (HP [] (a :: s)). }
    destruct (p a) eqn:E; [|exact Hhere].
    rewrite (IH (acc ++ [a])); [|exact Hs|].
    + destruct (star_from p k (acc ++ [a]) s); [reflexivity|exact Hhere].
    + intros t s' -> Ht. rewrite <- app_assoc.
      apply (HP (a :: t) s'); [reflexivity|]. simpl. now rewrite E.
Qed.

Lemma local_plus p (P : str -> str -> Prop) (k : str -> @cont re_match) :
  p newline = false ->
  (forall g, local (P g) (k g)) ->
  local (fun s => forall t s', s = t ++ s' -> t <> [] ->
                   forallb p t = true -> P t s')
    (plus p k).
Proof.
  intros Hp Hk [|a s] Hs HP; cbn [app plus].
  - now rewrite Hp.
  - apply is_dot_cons in Hs as [_ Hs].
    destruct (p a) eqn:E; [|reflexivity].
    apply (local_star_from p P k [a] Hp Hk); [exact Hs|].
    intros t s' -> Ht. apply (HP (a :: t) s'); [reflexivity|discriminate|].
    simpl. now rewrite E.
Qed.

Lemma local_lazy_from (P : str -> str -> Prop) (k : str -> @cont re_match)
    acc :
  (forall g, local (P g) (k g)) ->
  local (fun s => forall t s', s = t ++ s' -> P (acc ++ t) s')
    (lazy_from is_dot k acc).
Proof.
  intros Hk s. revert acc. induction s as [|a s IH]; intros acc Hs HP.
  - assert (Hhere : k acc ([] ++ newline :: after)
                    = option_map (followed_by after) (k acc [])).
    { apply (Hk acc []); [reflexivity|].
      rewrite <- (app_nil_r acc). now apply (HP [] []). }
    cbn [app lazy_from] in *. rewrite Hhere.
    destruct (k acc []); reflexivity.
  - pose proof Hs as Hs0. apply is_dot_cons in Hs as [Ha Hs].
    assert (Hhere : k acc ((a :: s) ++ newline :: after)
                    = option_map (followed_by after) (k acc (a :: s))).
    { apply (Hk acc (a :: s)); [exact Hs0|].
      rewrite <- (app_nil_r acc). now apply (HP [] (a :: s)). }
    cbn [app lazy_from] in *. rewrite Hhere.
    destruct (k acc (a :: s)); [reflexivity|]. cbn [option_map].
    unfold is_dot. rewrite Ha. cbn [negb].
    apply IH; [exact Hs|].
    intros t s' ->. rewrite <- app_assoc. now apply (HP (a :: t) s').
Qed.

Lemma local_plus_lazy (P : str -> str -> Prop) (k : str -> @cont re_match) :
  (forall g, local (P g) (k g)) ->
  local (fun s => forall t s', s = t ++ s' -> t <> [] -> P t s')
    (plus_lazy is_dot k).
Proof.
  intros Hk [|a s] Hs HP; cbn [app plus_lazy].
  - unfold is_dot. now rewrite Ascii.eqb_refl.
  - apply is_dot_cons in Hs as [Ha Hs]. unfold is_dot at 1 3.
    rewrite Ha. cbn [negb].
    apply (local_lazy_from P k [a] Hk); [exact Hs|].
    intros t s' ->. apply (HP (a :: t) s'); [reflexivity|discriminate].
Qed.
(** White space: a run may go over the line feed, unless it has to stop
    on the line. *)
Lemma local_star_space (P : str -> str -> Prop) (k : str -> @cont re_match)
    acc :
  (forall g, local (P g) (k g)) ->
  local (fun s => forallb is_space s = false
                  /\ forall t s', s = t ++ s' -> forallb is_space t = true ->
                                  P (acc ++ t) s')
    (star_from is_space k acc).
Proof.
  intros Hk s. revert acc. induction s as [|a s IH]; intros acc Hs [Hsp HP].
  - discriminate.
  - pose proof Hs as Hs0. apply is_dot_cons in Hs as [Ha Hs].
    cbn [app star_from].
    assert (Hhere : k acc ((a :: s) ++ newline :: after)
                    = option_map (followed_by after) (k acc (a :: s))).
    { apply (Hk acc (a :: s)); [exact Hs0|].
      rewrite <- (app_nil_r acc). now apply (HP [] (a :: s)). }
    destruct (is_space a) eqn:E; [|exact Hhere].
    rewrite (IH (acc ++ [a])); [|exact Hs|].
    + destruct (star_from is_space k (acc ++ [a]) s);
        [reflexivity|exact Hhere].
    + split.
      * cbn [forallb] in Hsp. now rewrite E in Hsp.
      * intros t s' -> Ht. rewrite <- app_assoc.
        apply (HP (a :: t) s'); [reflexivity|]. simpl. now rewrite E.
Qed.

Lemma local_plus_space (P : str -> str -> Prop) (k : str -> @cont re_match) :
  (forall g, local (P g) (k g)) ->
  local (fun s => forallb is_space s = false
                  /\ forall t s', s = t ++ s' -> t <> [] ->
                                  forallb is_space t = true -> P t s')
    (plus is_space k).
Proof.
  intros Hk [|a s] Hs [Hsp HP]; [discriminate|]. cbn [app plus].
  apply is_dot_cons in Hs as [_ Hs].
  destruct (is_space a) eqn:E; [|reflexivity].
  apply (local_star_space P k [a] Hk); [exact Hs|]. split.
  - cbn [forallb] in Hsp. now rewrite E in Hsp.
  - intros t s' -> Ht. apply (HP (a :: t) s'); [reflexivity|discriminate|].
    simpl. now rewrite E.
Qed.

(** The end of the match. *)
Lemma local_final g1 g2 g3 g4 g5 :
  local (fun _ => True)
    (eol (fun rest =>
       Some {| group1 := g1; group2 := g2; group3 := g3; group4 := g4;
               group5 := g5; m_rest := rest |})).
Proof.
  intros [|a s] Hs _; unfold eol; cbn [app at_eol].
  - now rewrite Ascii.eqb_refl.
  - apply is_dot_cons in Hs as [-> _]. reflexivity.
Qed.

(** The tag group, on a line that does not end in white space only. *)
Lemma local_tag_group (k : str -> @cont re_match) :
  (forall g, local (fun _ => True) (k g)) ->
  local (fun s => forallb is_space s = false) (tag_group k).
Proof.
  intros Hk. unfold tag_group.
  eapply local_weaken;
    [|apply (local_plus_space (fun _ _ => True)); intros _;
      eapply local_weaken;
        [|apply local_chr; [reflexivity|
          apply (local_plus is_word (fun _ _ => True)); [reflexivity|
            intros g5; eapply local_weaken;
              [|apply local_chr; [reflexivity|apply Hk]]]]]];
    cbv beta; auto.
Qed.

Hypothesis no_tag :
  forall ws, forallb is_space ws = true ->
             ~ tag_ahead (ws ++ newline :: after).

(** The optional tag and the end of the match. *)
Lemma local_tag g1 g2 g3 g4 :
  local (fun _ => True)
    (opt tag_group (fun g5 =>
       eol (fun rest =>
         Some {| group1 := g1; group2 := g2; group3 := g3; group4 := g4;
                 group5 := g5; m_rest := rest |}))).
Proof.
  intros s Hs _. unfold opt.
  destruct (forallb is_space s) eqn:Esp.
  - destruct (tag_group _ (s ++ newline :: after)) as [r|] eqn:E1.
    { exfalso. apply tag_group_Some in E1
        as (gap & w & s' & E & _ & Hg & Hw & Hww & Hk).
      apply eol_Some in Hk as [He _].
      apply (no_tag s Esp). exists gap, w, s'. auto. }
    destruct (tag_group _ s) as [r|] eqn:E2.
    { exfalso. apply tag_group_Some in E2 as (gap & w & s' & -> & _).
      rewrite forallb_app in Esp. apply andb_true_iff in Esp as [_ Esp].
      discriminate. }
    now apply local_final.
  - match goal with
    | |- context [tag_group ?K (s ++ _)] =>
        rewrite (local_tag_group K); [|intros g; apply local_final|exact Hs
                                      |exact Esp]
    end.
    destruct (tag_group _ s); [reflexivity|]. now apply local_final.
Qed.
(** The pattern, at a position of a line whose headers are described. *)
Lemma local_task_pattern pre :
  local (fun s => described (pre ++ s)) task_pattern.
Proof.
  unfold task_pattern.
  eapply local_weaken;
    [|apply local_chars; [reflexivity|];
      apply (local_one is_box); [reflexivity|]; intros c;
      apply local_chars; [reflexivity|];
      apply (local_plus is_word); [reflexivity|]; intros prd;
      apply local_chr; [reflexivity|];
      apply (local_plus is_digit); [reflexivity|]; intros num;
      apply local_chr; [reflexivity|];
      apply (local_star_space (fun _ _ => True)); intros _;
      eapply local_weaken;
        [|apply (local_plus_lazy (fun _ _ => True)); intros g4;
          apply local_tag];
      cbv beta; auto].
  cbv beta. intros s Hd s1 -> c s2 -> Hc s3 -> prd s4 -> Hp Hpw s5 ->
    num s6 -> Hn Hnd s7 ->.
  split; [|auto].
  apply (Hd pre c prd num s7); try assumption.
  unfold header. now flatten.
Qed.
End Locality.

(** The scan of a line and of what follows it. *)
Lemma finditer_line after pre s :
  (forall ws, forallb is_space ws = true ->
              ~ tag_ahead (ws ++ newline :: after)) ->
  forallb is_dot s = true -> described (pre ++ s) ->
  finditer (s ++ newline :: after) =
  map (followed_by after) (finditer s) ++ finditer after.
Proof.
  intros Htag. revert pre. induction s as [|a s IH]; intros pre Hs Hd.
  - rewrite (finditer_eq (_ ++ _)). reflexivity.
  - rewrite (finditer_eq (_ ++ _)), (finditer_eq (a :: s)).
    rewrite (local_task_pattern after Htag pre (a :: s) Hs Hd).
    destruct (task_pattern (a :: s)) as [m|] eqn:E; cbn [option_map].
    + apply task_pattern_Some in E as (ws & gap & E & Hwf).
      assert (Hr : m_rest m = []).
      { apply at_eol_dot; [exact (wf_eol _ _ _ Hwf)|].
        rewrite E, forallb_app in Hs.
        now apply andb_true_iff in Hs as [_ Hs]. }
      cbn [followed_by m_rest]. rewrite Hr. cbn [app map].
      rewrite finditer_nil. reflexivity.
    + cbn [app]. apply is_dot_cons in Hs as [_ Hs].
      apply (IH (pre ++ [a])); [exact Hs|]. now rewrite <- app_assoc.
Qed.

(** ** Lines that are a bracketed word *)

Lemma first_not_space (l : str) :
  forallb is_space l = true
  \/ exists l1 x l2,
       l = l1 ++ x :: l2 /\ forallb is_space l1 = true
       /\ is_space x = false.
Proof.
  induction l as [|a l IH]; [now left|].
  destruct (is_space a) eqn:E.
  - destruct IH as [IH|(l1 & x & l2 & -> & H1 & Hx)].
    + left. simpl. now rewrite E.
    + right. exists (a :: l1), x, l2. simpl. rewrite E. auto.
  - right. exists [], a, l. auto.
Qed.

Lemma space_prefix (x y gap z : str) b :
  forallb is_space x = true -> forallb is_space gap = true ->
  is_space b = false ->
  x ++ y = gap ++ b :: z ->
  exists gap', gap = x ++ gap' /\ y = gap' ++ b :: z.
Proof.
  revert gap. induction x as [|a x IH]; intros gap Hx Hg Hb E.
  - exists gap. auto.
  - simpl in Hx. apply andb_true_iff in Hx as [Ha Hx].
    destruct gap as [|c gap]; simpl in E.
    + injection E as -> _. congruence.
    + injection E as -> E. simpl in Hg.
      apply andb_true_iff in Hg as [_ Hg].
      destruct (IH gap Hx Hg Hb E) as (gap' & -> & ->).
      exists gap'. auto.
Qed.

Lemma tag_ahead_line l :
  forallb is_dot l = true -> tag_ahead l -> bare_tag l.
Proof.
  intros Hl (gap & w & s' & -> & Hg & Hw & Hww & He).
  assert (Hs' : s' = []).
  { apply at_eol_dot; [exact He|]. rewrite forallb_app in Hl.
    apply andb_true_iff in Hl as [_ Hl]. cbn [forallb] in Hl.
    apply andb_true_iff in Hl as [_ Hl]. rewrite forallb_app in Hl.
    apply andb_true_iff in Hl as [_ Hl]. cbn [forallb] in Hl.
    now apply andb_true_iff in Hl as [_ Hl]. }
  subst s'. exists gap, w. auto.
Qed.

Lemma tag_ahead_lines l after :
  forallb is_dot l = true ->
  tag_ahead (l ++ newline :: after) -> bare_tag l \/ tag_ahead after.
Proof.
  intros Hl (gap & w & s' & E & Hg & Hw & Hww & He).
  destruct (first_not_space l) as [Hsp|(l1 & x & l2 & -> & H1 & Hx)].
  - right.
    assert (Hsp' : forallb is_space (l ++ [newline]) = true).
    { rewrite forallb_app, Hsp. reflexivity. }
    replace (l ++ newline :: after) with ((l ++ [newline]) ++ after) in E
      by now rewrite <- app_assoc.
    apply space_prefix in E as (gap' & -> & ->); [|assumption..|reflexivity].
    rewrite forallb_app in Hg. apply andb_true_iff in Hg as [_ Hg].
    exists gap', w, s'. auto.
  - left. rewrite <- app_assoc in E. cbn [app] in E.
    apply span_unique with (p := is_space) in E as (<- & -> & E);
      [|assumption|assumption|assumption|reflexivity].
    rewrite forallb_app in Hl. apply andb_true_iff in Hl as [_ Hl].
    apply is_dot_cons in Hl as [_ Hl].
    symmetry in E. apply app_eq_app in E as (z & [[-> E]|[-> E]]).
    + (* the word would have to hold the line feed *)
      exfalso. destruct z as [|c z]; [discriminate|].
      injection E as <- _. rewrite forallb_app in Hww.
      apply andb_true_iff in Hww as [_ Hww]. discriminate.
    + destruct z as [|c z]; [discriminate|]. injection E as <- E.
      destruct z as [|c z].
      * exists l1, w. auto.
      * exfalso. subst s'. cbn [app at_eol] in He.
        rewrite forallb_app in Hl. apply andb_true_iff in Hl as [_ Hl].
        apply is_dot_cons in Hl as [_ Hl].
        apply is_dot_cons in Hl as [Hc _]. congruence.
Qed.

Lemma no_tag_ahead (ls : list str) :
  Forall (fun l => forallb is_dot l = true) ls ->
  Forall (fun l => ~ bare_tag l) ls ->
  ~ tag_ahead (join_lines ls).
Proof.
  induction ls as [|l ls IH]; intros Hd Hb.
  - intros (gap & w & s' & E & _). destruct gap; discriminate.
  - inversion Hd as [|? ? Hl Hd']; subst. inversion Hb as [|? ? Hbl Hb']; subst.
    destruct ls as [|l' ls].
    + intros H. apply Hbl. now apply tag_ahead_line.
    + intros H. change (tag_ahead (l ++ newline :: join_lines (l' :: ls))) in H.
      apply tag_ahead_lines in H as [H|H]; [auto|now apply IH|exact Hl].
Qed.

Lemma no_tag_after_space ws after :
  forallb is_space ws = true -> ~ tag_ahead after ->
  ~ tag_ahead (ws ++ newline :: after).
Proof.
  intros Hws Hn (gap & w & s' & E & Hg & Hw & Hww & He). apply Hn.
  replace (ws ++ newline :: after) with ((ws ++ [newline]) ++ after) in E
    by now rewrite <- app_assoc.
  apply space_prefix in E as (gap' & -> & ->);
    [|now rewrite forallb_app, Hws|assumption|reflexivity].
  rewrite forallb_app in Hg. apply andb_true_iff in Hg as [_ Hg].
  exists gap', w, s'. auto.
Qed.

(** ** The parser, line by line *)

(** In a text where every header is followed on its line by something that
    is not white space, and where no line is just a bracketed word, the
    records are those of the lines, each parsed alone, in order. *)
Lemma line_by_line (fname : str) (ls : list str) :
  Forall (fun l => forallb is_dot l = true) ls ->
  Forall described ls ->
  Forall (fun l => ~ bare_tag l) ls ->
  parse_content fname (join_lines ls) =
  flat_map (parse_content fname) ls.
Proof.
  induction ls as [|l ls IH]; intros Hd Hh Hb; [reflexivity|].
  inversion Hd as [|? ? Hl Hd']; subst. inversion Hh as [|? ? Hhl Hh']; subst.
  inversion Hb as [|? ? Hbl Hb']; subst.
  destruct ls as [|l' ls].
  - cbn [join_lines flat_map]. now rewrite app_nil_r.
  - change (join_lines (l :: l' :: ls))
      with (l ++ newline :: join_lines (l' :: ls)).
    change (flat_map (parse_content fname) (l :: l' :: ls))
      with (parse_content fname l
            ++ flat_map (parse_content fname) (l' :: ls)).
    rewrite <- (IH Hd' Hh' Hb').
    unfold parse_content.
    rewrite (finditer_line _ [] l); [| |exact Hl|exact Hhl].
    + rewrite map_app, map_map. reflexivity.
    + intros ws Hws. apply no_tag_after_space; [exact Hws|].
      now apply no_tag_ahead.
Qed.

(** ** Task lines that run into the next line

    The white space after the colon, and the gap before a tag, may hold
    line feeds, so a match can begin on one line and end on a later one. *)

(** C1, on a checked task line without a tag that is followed by an empty
    line and a line that is only a bracketed word: alone the line gives a
    record with the status [done], as a checked line without a tag
    should, but in the text its record has the word of the later line as
    status. *)
Theorem untagged_line_takes_later_tag :
  let fname := lit_str "TASKS-A.md" in
  let line := lit_str "- [x] TASK-A-2: b" in
  parse_content fname line =
    [ {| id := lit_str "TASK-A-2"; prd_id := lit_str "A";
         description := lit_str "b"; status := lit_str "done";
         file := fname |} ]
  /\ parse_content fname
       (line ++ [newline] ++ [newline] ++ lit_str "[cancelled]") =
    [ {| id := lit_str "TASK-A-2"; prd_id := lit_str "A";
         description := lit_str "b"; status := lit_str "cancelled";
         file := fname |} ].
Proof. repeat split. Qed.

(** C2, on the text of two task lines of which the first has only a space
    after its colon: each line alone gives its own record, but the text
    gives a single record, that of the first line with the whole second
    line as its description, and none for [TASK-B-2]. *)
Theorem next_task_line_swallowed :
  let fname := lit_str "TASKS-A.md" in
  let line1 := lit_str "- [ ] TASK-A-1: " in
  let line2 := lit_str "- [x] TASK-B-2: real" in
  parse_content fname line1 =
    [ {| id := lit_str "TASK-A-1"; prd_id := lit_str "A"; description := [];
         status := lit_str "pending"; file := fname |} ]
  /\ parse_content fname line2 =
    [ {| id := lit_str "TASK-B-2"; prd_id := lit_str "B";
         description := lit_str "real"; status := lit_str "done";
         file := fname |} ]
  /\ parse_content fname (line1 ++ [newline] ++ line2) =
    [ {| id := lit_str "TASK-A-1"; prd_id := lit_str "A";
         description := line2; status := lit_str "pending";
         file := fname |} ].
Proof. repeat split. Qed.

(** C10, on a task line with two spaces after its colon that is followed
    by a line of prose: alone the line gives a record with an empty
    description, but in the text the description of its record is the
    prose of the next line. *)
Theorem blank_description_takes_next_line :
  let fname := lit_str "TASKS-A.md" in
  let line := lit_str "- [ ] TASK-A-1:  " in
  parse_content fname line =
    [ {| id := lit_str "TASK-A-1"; prd_id := lit_str "A"; description := [];
         status := lit_str "pending"; file := fname |} ]
  /\ parse_content fname (line ++ [newline] ++ lit_str "Notes follow") =
    [ {| id := lit_str "TASK-A-1"; prd_id := lit_str "A";
         description := lit_str "Notes follow"; status := lit_str "pending";
         file := fname |} ].
Proof. repeat split. Qed.

(** ** Examples *)

(** The two task lines of the specification's end-to-end example. *)
Example end_to_end :
  let fname := lit_str "TASKS-AUTH.md" in
  let content :=
    lit_str "- [x] TASK-AUTH-001: Implement login" ++ [newline]
    ++ lit_str "- [ ] TASK-AUTH-002: Add password reset [blocked]"
    ++ [newline] in
  let w :=
    {| tasks_dir := Some [(fname, File content)]; prds_dir := None |} in
  parse_content fname content =
    [ {| id := lit_str "TASK-AUTH-001"; prd_id := lit_str "AUTH";
         description := lit_str "Implement login"; status := lit_str "done";
         file := fname |};
      {| id := lit_str "TASK-AUTH-002"; prd_id := lit_str "AUTH";
         description := lit_str "Add password reset";
         status := lit_str "blocked"; file := fname |} ]
  /\ exists s,
       get_status_summary w = Returned s w
       /\ total_tasks s = 2 /\ done s = 1 /\ blocked s = 1 /\ pending s = 0
       /\ completion s = PyFloat 50%float
       /\ str_number (completion s) = u "50.0".
Proof.
  intros fname content w. split; [reflexivity|].
  eexists. split; [reflexivity|]. repeat split.
Qed.

(** One record done out of three is 33.3 percent, and one out of 400 is
    0.2 percent: the quotient 0.25 lies half way and goes to the even
    digit.  The floats are the ones nearest to 33.3 and to 0.2. *)
Example completion_examples :
  let t status :=
    {| id := []; prd_id := []; description := []; status := lit_str status;
       file := [] |} in
  completion (summarize 0 [t "done"; t "pending"; t "blocked"])
  = PyFloat 0x1.0a66666666666p+5%float
  /\ str_number (completion (summarize 0 [t "done"; t "pending"; t "blocked"]))
     = u "33.3"
  /\ completion (summarize 0 (t "done" :: repeat (t "pending") 399))
     = PyFloat 0x1.999999999999ap-3%float
  /\ str_number
       (completion (summarize 0 (t "done" :: repeat (t "pending") 399)))
     = u "0.2"
  /\ completion (summarize 0 []) = PyInt 0.
Proof. intros t. repeat split. Qed.

(** * Further properties of the parser *)

(** X1. The pattern matches at the start of a text exactly when the text
    starts with a header, white space, a description of at least one
    character on one line and possibly a gap and a bracketed word, up to
    an end of line; and the match it returns is such a decomposition of
    the text. *)
Theorem task_pattern_decides (s : str) :
  (forall m, task_pattern s = Some m -> matches s m)
  /\ ((exists m, matches s m) -> exists m, task_pattern s = Some m).
Proof.
  split.
  - apply task_pattern_Some.
  - intros (m & Hm). now apply (task_pattern_complete s m).
Qed.

Lemma finditer_after_newline s : finditer (newline :: s) = finditer s.
Proof. reflexivity. Qed.

Lemma count_newline_app (s1 s2 : str) :
  count_occ ascii_dec (s1 ++ s2) newline =
  count_occ ascii_dec s1 newline + count_occ ascii_dec s2 newline.
Proof. apply count_occ_app. Qed.

Lemma finditer_length s :
  length (finditer s) <= S (count_occ ascii_dec s newline).
Proof.
  remember (length s) as n eqn:Hn. revert s Hn.
  induction n as [n IH] using lt_wf_ind. intros s ->.
  rewrite finditer_eq. destruct (task_pattern s) as [m|] eqn:E.
  - pose proof (task_pattern_Some _ _ E) as Hm.
    pose proof (matches_length _ _ Hm) as Hlen.
    destruct Hm as (ws & gap & Hs & Hwf).
    assert (Hc : count_occ ascii_dec (m_rest m) newline
                 <= count_occ ascii_dec s newline).
    { rewrite Hs, count_newline_app. lia. }
    pose proof (wf_eol _ _ _ Hwf) as He.
    destruct (m_rest m) as [|a r] eqn:Er; [simpl; lia|].
    simpl in He. apply Ascii.eqb_eq in He. subst a.
    rewrite finditer_after_newline. cbn [length].
    assert (Hr : length r < length s) by (simpl in Hlen; lia).
    pose proof (IH _ Hr r eq_refl) as IHr.
    rewrite count_occ_cons_eq in Hc by reflexivity. lia.
  - destruct s as [|a s]; [simpl; lia|].
    pose proof (IH (length s) (Nat.lt_succ_diag_r _) s eq_refl) as IHs.
    simpl. destruct (ascii_dec a newline); lia.
Qed.

(** X2. A text never gives more records than it has lines: every match
    ends at an end of line, and the next one starts after it. *)
Theorem records_at_most_lines (fname content : str) :
  length (parse_content fname content)
  <= S (count_occ ascii_dec content newline).
Proof.
  unfold parse_content. rewrite length_map. apply finditer_length.
Qed.

(** ** What [strip] leaves *)

Lemma lstrip_split s :
  exists l, s = l ++ lstrip s /\ forallb is_space l = true.
Proof.
  induction s as [|a s (l & E & Hl)]; [now exists []|]. simpl.
  destruct (is_space a) eqn:Ea.
  - exists (a :: l). simpl. rewrite Ea, Hl. now rewrite E at 1.
  - now exists [].
Qed.

Lemma lstrip_hd s : lstrip s <> [] -> is_space (hd newline (lstrip s)) = false.
Proof.
  induction s as [|a s IH]; simpl; [congruence|].
  destruct (is_space a) eqn:Ea; [exact IH|]. intros _. exact Ea.
Qed.

Lemma last_rev (l : str) d : List.last (rev l) d = hd d l.
Proof.
  destruct l as [|a l]; [reflexivity|]. simpl. apply last_last.
Qed.

Lemma rstrip_split s :
  exists r, s = rstrip s ++ r /\ forallb is_space r = true.
Proof.
  unfold rstrip. destruct (lstrip_split (rev s)) as (l & E & Hl).
  exists (rev l). split; [|now apply forallb_rev_true].
  rewrite <- rev_app_distr, <- E. now rewrite rev_involutive.
Qed.

Lemma rstrip_last s :
  rstrip s <> [] -> is_space (List.last (rstrip s) newline) = false.
Proof.
  unfold rstrip. intros H. rewrite last_rev. apply lstrip_hd.
  intros E. rewrite E in H. now apply H.
Qed.

Lemma rstrip_hd s :
  is_space (hd newline s) = false ->
  rstrip s <> [] /\ hd newline (rstrip s) = hd newline s.
Proof.
  intros H. destruct (rstrip_split s) as (r & E & Hr).
  destruct (rstrip s) as [|a y] eqn:Ey.
  - exfalso. simpl in E. subst r. destruct s as [|b s]; [discriminate|].
    simpl in *. apply andb_true_iff in Hr as [Hb _]. congruence.
  - split; [discriminate|]. now rewrite E.
Qed.

(** The result of [strip] is empty, or starts and ends with something
    other than white space. *)
Lemma strip_ends s :
  strip s = []
  \/ (is_space (hd newline (strip s)) = false
      /\ is_space (List.last (strip s) newline) = false).
Proof.
  unfold strip. destruct (lstrip s) as [|a y] eqn:E; [now left|].
  right. assert (Hh : is_space (hd newline (a :: y)) = false).
  { rewrite <- E. apply lstrip_hd. now rewrite E. }
  destruct (rstrip_hd _ Hh) as [Hne Hhd]. split.
  - now rewrite Hhd.
  - now apply rstrip_last.
Qed.

Lemma strip_split s :
  exists l r, s = l ++ strip s ++ r.
Proof.
  destruct (lstrip_split s) as (l & El & _).
  destruct (rstrip_split (lstrip s)) as (r & Er & _).
  exists l, r. unfold strip. now rewrite <- Er.
Qed.

(** X3. Every record of the parser carries the name of its file; its
    identifier is [TASK-], its requirement identifier, a dash and a
    non-empty run of digits; the requirement identifier and the status
    are non-empty words; and the description has no line feed and is
    empty or starts and ends with something other than white space. *)
Theorem record_invariants (fname content : str) (t : task) :
  In t (parse_content fname content) ->
  file t = fname
  /\ (exists num,
        id t = lit_str "TASK-" ++ prd_id t ++ lit_str "-" ++ num
        /\ num <> [] /\ forallb is_digit num = true)
  /\ prd_id t <> [] /\ forallb is_word (prd_id t) = true
  /\ status t <> [] /\ forallb is_word (status t) = true
  /\ forallb is_dot (description t) = true
  /\ (description t = []
      \/ (is_space (hd newline (description t)) = false
          /\ is_space (List.last (description t) newline) = false)).
Proof.
  unfold parse_content. intros H. apply in_map_iff in H as (m & <- & H).
  apply finditer_In in H as (pre & suf & _ & H).
  apply task_pattern_Some in H as (ws & gap & _ & Hwf).
  destruct Hwf as [_ [Hp Hpw] [Hn Hnd] _ [_ Hdd] Htag _].
  unfold task_of_match. cbn [file id prd_id status description].
  split; [reflexivity|]. split; [exists (group3 m); auto|].
  split; [exact Hp|]. split; [exact Hpw|].
  assert (Hst : or_else (group5 m)
                  (if Ascii.eqb (group1 m) "x" then lit_str "done"
                   else lit_str "pending") <> []
                /\ forallb is_word
                     (or_else (group5 m)
                        (if Ascii.eqb (group1 m) "x" then lit_str "done"
                         else lit_str "pending")) = true).
  { destruct (group5 m) as [[|c w]|]; simpl.
    - now destruct Htag.
    - destruct Htag as (_ & Hw & _). split; [discriminate|exact Hw].
    - destruct (Ascii.eqb (group1 m) "x"); split;
        (discriminate || reflexivity). }
  destruct Hst as [Hs1 Hs2]. split; [exact Hs1|]. split; [exact Hs2|].
  split; [|apply strip_ends].
  destruct (strip_split (group4 m)) as (l & r & E).
  rewrite E, !forallb_app in Hdd.
  apply andb_true_iff in Hdd as [_ Hdd].
  now apply andb_true_iff in Hdd as [Hdd _].
Qed.

Lemma record_invariants_witness :
  let fname := lit_str "TASKS-AUTH.md" in
  let t :=
    {| id := lit_str "TASK-AUTH-001"; prd_id := lit_str "AUTH";
       description := lit_str "Implement login";
       status := lit_str "done"; file := fname |} in
  file t = fname
  /\ (exists num,
        id t = lit_str "TASK-" ++ prd_id t ++ lit_str "-" ++ num
        /\ num <> [] /\ forallb is_digit num = true)
  /\ prd_id t <> [] /\ forallb is_word (prd_id t) = true
  /\ status t <> [] /\ forallb is_word (status t) = true
  /\ forallb is_dot (description t) = true
  /\ (description t = []
      \/ (is_space (hd newline (description t)) = false
          /\ is_space (List.last (description t) newline) = false)).
Proof.
  intros fname t.
  apply (record_invariants fname
           (lit_str "- [x] TASK-AUTH-001:   Implement login  ") t).
  vm_compute. left. reflexivity.
Defined.

(** ** Checking the lines of a text *)

Lemma header_tail_header c prd num tail :
  is_box c = true ->
  prd <> [] -> forallb is_word prd = true ->
  num <> [] -> forallb is_digit num = true ->
  header_tail (header c prd num ++ tail) = Some tail.
Proof.
  intros Hc Hp Hpw Hn Hnd. unfold header_tail, header. flatten.
  cbn [chars]. rewrite !chr_cons, one_cons by exact Hc. rewrite !chr_cons.
  apply plus_first; [assumption|assumption|now left|]. rewrite chr_cons.
  apply plus_first; [assumption|assumption|now left|]. now rewrite chr_cons.
Qed.

Lemma described_from_spec s :
  described_from s = true ->
  forall mid c prd num tail,
    s = mid ++ header c prd num ++ tail ->
    is_box c = true ->
    prd <> [] -> forallb is_word prd = true ->
    num <> [] -> forallb is_digit num = true ->
    forallb is_space tail = false.
Proof.
  induction s as [|a s IH]; intros H mid c prd num tail E.
  - destruct mid; discriminate.
  - cbn [described_from] in H. apply andb_true_iff in H as [H1 H2].
    destruct mid as [|b mid].
    + intros Hc Hp Hpw Hn Hnd. cbn [app] in E. rewrite E in H1.
      rewrite header_tail_header in H1 by assumption.
      now apply negb_true_iff in H1.
    + injection E as _ E. now apply (IH H2 mid).
Qed.

Lemma described_check line : described_from line = true -> described line.
Proof.
  intros H pre c prd num tail E.
  now apply (described_from_spec line H pre c prd num tail).
Qed.

Lemma is_bare_tag_spec line : bare_tag line -> is_bare_tag line = true.
Proof.
  intros (gap & w & -> & Hg & Hw & Hww). unfold is_bare_tag.
  assert (E : lstrip (gap ++ lit_str "[" ++ w ++ lit_str "]")
              = "["%char :: w ++ ["]"%char]).
  { clear Hw. induction gap as [|a gap IH]; [reflexivity|].
    simpl in Hg. apply andb_true_iff in Hg as [Ha Hg].
    cbn [app lstrip]. rewrite Ha. now apply IH. }
  rewrite E, rev_app_distr. cbn [rev app].
  rewrite !Ascii.eqb_refl.
  rewrite forallb_rev_true by exact Hww. rewrite length_rev.
  destruct w; [congruence|reflexivity].
Qed.

Lemma bare_tag_check line : is_bare_tag line = false -> ~ bare_tag line.
Proof. intros H Hb. apply is_bare_tag_spec in Hb. congruence. Qed.

(** X4. A text whose lines pass the two checks, every header followed on
    its line by something that is not white space and no line that is
    just a bracketed word, is parsed line by line: its records are those
    of its lines, each parsed alone, in the order of the lines. *)
Theorem checked_lines_parse_alone (fname : str) (ls : list str) :
  forallb (fun l => forallb is_dot l && described_from l
                    && negb (is_bare_tag l)) ls = true ->
  parse_content fname (join_lines ls) = flat_map (parse_content fname) ls.
Proof.
  intros H. rewrite List.forallb_forall in H.
  apply line_by_line; apply List.Forall_forall; intros l Hl;
    specialize (H l Hl); apply andb_true_iff in H as [H H3];
    apply andb_true_iff in H as [H1 H2].
  - exact H1.
  - now apply described_check.
  - apply bare_tag_check. now apply negb_true_iff in H3.
Qed.

Lemma checked_lines_parse_alone_witness :
  let fname := lit_str "TASKS-A.md" in
  let ls :=
    [ lit_str "# Tasks for A";
      lit_str "- [x] TASK-A-1: one";
      [];
      lit_str "  - [ ] TASK-A-2: two [blocked]";
      lit_str "see - [ ] TASK-B-7: three" ] in
  parse_content fname (join_lines ls) = flat_map (parse_content fname) ls.
Proof.
  intros fname ls. apply (checked_lines_parse_alone fname ls). reflexivity.
Defined.

Lemma one_line_record_iff_shape_witness :
  let line := lit_str "  - [ ] TASK-A-2: two [blocked]" in
  task_shape line
  <-> exists t, parse_content (lit_str "TASKS-A.md") line = [t].
Proof.
  intros line.
  apply (one_line_record_iff_shape (lit_str "TASKS-A.md") line).
  reflexivity.
Defined.

Lemma tagged_line_status_witness :
  parse_content (lit_str "TASKS-A.md")
    (header "x" (lit_str "A") (lit_str "12") ++ lit_str " "
     ++ lit_str "ship it" ++ lit_str "  " ++ lit_str "[" ++ lit_str "on_hold"
     ++ lit_str "]") =
  [ {| id := lit_str "TASK-" ++ lit_str "A" ++ lit_str "-" ++ lit_str "12";
       prd_id := lit_str "A";
       description := lit_str "ship it";
       status := lit_str "on_hold";
       file := lit_str "TASKS-A.md" |} ].
Proof.
  apply (tagged_line_status (lit_str "TASKS-A.md") "x" (lit_str "A")
           (lit_str "12") (lit_str " ") (lit_str "ship it") (lit_str "  ")
           (lit_str "on_hold")); (reflexivity || discriminate).
Defined.

Lemma blank_description_at_end_witness :
  parse_content (lit_str "TASKS-A.md")
    (header " " (lit_str "A") (lit_str "1") ++ lit_str "  "
     ++ [newline; newline]) =
  [ {| id := lit_str "TASK-" ++ lit_str "A" ++ lit_str "-" ++ lit_str "1";
       prd_id := lit_str "A";
       description := [];
       status :=
         if Ascii.eqb " " "x" then lit_str "done" else lit_str "pending";
       file := lit_str "TASKS-A.md" |} ].
Proof.
  apply (blank_description_at_end (lit_str "TASKS-A.md") " " (lit_str "A")
           (lit_str "1") (lit_str "  ") [newline; newline]);
    (reflexivity || discriminate).
Defined.

(** * Further properties of discovery and of the run *)

Lemma prefix_b_spec (p t : str) : prefix_b p t = true <-> exists r, t = p ++ r.
Proof.
  revert t. induction p as [|a p IH]; intros t; simpl.
  - split; [eauto|reflexivity].
  - destruct t as [|b t].
    + split; [discriminate|]. intros (r & E). discriminate.
    + rewrite andb_true_iff, IH. split.
      * intros [Hab (r & ->)]. apply Ascii.eqb_eq in Hab as ->. eauto.
      * intros (r & E). injection E as -> ->.
        split; [apply Ascii.eqb_refl|eauto].
Qed.

(** A name matches a pattern [<pre>*<suf>] exactly when it is [pre],
    anything, and then [suf]; the two may not overlap. *)
Theorem glob_match_spec (pre suf entry : str) :
  glob_match pre suf entry = true <-> exists mid, entry = pre ++ mid ++ suf.
Proof.
  unfold glob_match. rewrite !andb_true_iff, !prefix_b_spec, Nat.leb_le.
  split.
  - intros [[Hlen (r & E1)] (r' & E2)].
    apply (f_equal (@rev ascii)) in E2.
    rewrite rev_involutive, rev_app_distr, rev_involutive in E2.
    assert (E : pre ++ r = rev r' ++ suf) by congruence.
    apply app_eq_app in E as (z & [[Ep Es]|[Ex Er]]).
    + assert (z = []) as ->.
      { apply length_zero_iff_nil. rewrite E1, Es, !length_app in Hlen.
        lia. }
      exists []. simpl in Es. now rewrite E1, Es.
    + exists z. now rewrite E1, Er.
  - intros (mid & ->). split; [split|].
    + rewrite !length_app. lia.
    + eauto.
    + exists (rev (pre ++ mid)). rewrite app_assoc.
      now rewrite rev_app_distr.
Qed.

(** X6. Discovery never fails: it returns the entries of [tasks/] named
    [TASKS-], anything, [.md], and those of [prds/] named [PRD-], anything,
    [.md], whatever kind of entry they are, and nothing else; a missing
    subdirectory has no entries. *)
Theorem discovery_by_name (w : project_dir) :
  exists task_files prd_files,
    find_task_files w = Returned task_files w
    /\ find_prd_files w = Returned prd_files w
    /\ (forall p,
          In p task_files <->
          parent p = Tasks
          /\ (exists mid, name p = lit_str "TASKS-" ++ mid ++ lit_str ".md")
          /\ exists x, In (name p, x) (default [] (tasks_dir w)))
    /\ (forall p,
          In p prd_files <->
          parent p = Prds
          /\ (exists mid, name p = lit_str "PRD-" ++ mid ++ lit_str ".md")
          /\ exists x, In (name p, x) (default [] (prds_dir w))).
Proof.
  eexists _, _. rewrite find_task_files_eq, find_prd_files_eq.
  split; [reflexivity|]. split; [reflexivity|].
  unfold task_entries, prd_entries. split; intros [d n]; cbn [parent name];
    rewrite in_map_iff; setoid_rewrite filter_In;
    setoid_rewrite glob_match_spec; split.
  - intros ([n' x] & E & Hin & Hm). injection E as <- <-. eauto.
  - intros (-> & Hm & x & Hin). exists (n, x). auto.
  - intros ([n' x] & E & Hin & Hm). injection E as <- <-. eauto.
  - intros (-> & Hm & x & Hin). exists (n, x). auto.
Qed.

Lemma lookup_entry_In n x (l : listing) :
  List.NoDup (map fst l) -> In (n, x) l -> lookup_entry n l = Some x.
Proof.
  induction l as [|[n' x'] l IH]; intros Hnd Hin; [destruct Hin|].
  simpl in Hnd. apply List.NoDup_cons_iff in Hnd as [Hn Hnd]. simpl.
  destruct Hin as [E|Hin].
  - injection E as -> ->. now rewrite bool_decide_eq_true_2.
  - rewrite bool_decide_eq_false_2; [auto|].
    intros ->. apply Hn. apply in_map_iff. now exists (n, x).
Qed.

Lemma forallb_false_ex {A} (f : A -> bool) (l : list A) :
  forallb f l = false -> exists x, In x l /\ f x = false.
Proof.
  induction l as [|a l IH]; simpl; [discriminate|].
  destruct (f a) eqn:E.
  - intros H. destruct (IH H) as (x & Hin & Hx). eauto.
  - intros _. eauto.
Qed.

Lemma records_of_files (all l : listing) (all_tasks : list task) :
  List.NoDup (map fst all) -> incl l all ->
  forallb (fun e => is_file (snd e)) l = true ->
  records_of all l all_tasks = Some (all_tasks ++ flat_map entry_records l).
Proof.
  intros Hnd. revert all_tasks.
  induction l as [|[n x] l IH]; intros all_tasks Hincl Hf.
  - simpl. now rewrite app_nil_r.
  - simpl in Hf. apply andb_true_iff in Hf as [Hx Hf].
    destruct x as [content|]; [|discriminate].
    cbn [records_of].
    rewrite (lookup_entry_In n (File content) all Hnd)
      by (apply Hincl; now left).
    rewrite IH; [|intros e He; apply Hincl; now right|exact Hf].
    cbn [flat_map]. unfold entry_records at 2. cbn [fst snd].
    now rewrite <- app_assoc.
Qed.

Lemma records_of_unreadable (all l : listing) (all_tasks : list task) :
  List.NoDup (map fst all) -> incl l all ->
  forallb (fun e => is_file (snd e)) l = false ->
  records_of all l all_tasks = None.
Proof.
  intros Hnd. revert all_tasks.
  induction l as [|[n x] l IH]; intros all_tasks Hincl Hf; [discriminate|].
  cbn [records_of].
  rewrite (lookup_entry_In n x all Hnd) by (apply Hincl; now left).
  destruct x as [content|]; [|reflexivity].
  simpl in Hf. apply IH; [intros e He; apply Hincl; now right|exact Hf].
Qed.

(** X7. The run fails exactly when one of the discovered task files cannot
    be read; the requirement files are counted and never read, and the
    entries of [tasks/] that do not match are not read either. *)
Theorem run_fails_iff_unreadable (w : project_dir) :
  List.NoDup (map fst (task_entries w)) ->
  get_status_summary w = Raised
  <-> exists n, In (n, Unreadable) (task_entries w).
Proof.
  intros Hnd. rewrite get_status_summary_eq.
  destruct (forallb (fun e => is_file (snd e)) (task_entries w)) eqn:E.
  - rewrite records_of_files by (auto using incl_refl). split.
    + discriminate.
    + intros (n & Hin). rewrite List.forallb_forall in E.
      now apply E in Hin.
  - rewrite records_of_unreadable by (auto using incl_refl).
    split; [|reflexivity]. intros _.
    apply forallb_false_ex in E.
    destruct E as ([n x] & Hin & Hx). exists n.
    destruct x; [discriminate|exact Hin].
Qed.

Lemma run_fails_iff_unreadable_witness :
  let w :=
    {| tasks_dir :=
         Some [(lit_str "TASKS-A.md", File (lit_str "- [ ] TASK-A-1: one"));
               (lit_str "TASKS-B.md", Unreadable);
               (lit_str "README.md", Unreadable)];
       prds_dir := Some [(lit_str "PRD-A.md", Unreadable)] |} in
  get_status_summary w = Raised
  <-> exists n, In (n, Unreadable) (task_entries w).
Proof.
  intros w. apply (run_fails_iff_unreadable w).
  repeat constructor; simpl; intuition discriminate.
Defined.

(** X8. When the discovered task files have distinct names and can all be
    read, the run returns, and the records of its summary are those of the
    first discovered file in the order of its matches, then those of the
    second, and so on; the number of requirement files is the number of
    discovered entries of [prds/]. *)
Theorem run_records_in_order (w : project_dir) :
  List.NoDup (map fst (task_entries w)) ->
  forallb (fun e => is_file (snd e)) (task_entries w) = true ->
  exists s,
    get_status_summary w = Returned s w
    /\ tasks s = flat_map entry_records (task_entries w)
    /\ total_tasks s = length (flat_map entry_records (task_entries w))
    /\ total_prds s = length (prd_entries w).
Proof.
  intros Hnd Hf. rewrite get_status_summary_eq.
  rewrite records_of_files by (auto using incl_refl).
  eexists. split; [reflexivity|]. repeat split.
Qed.

Lemma run_records_in_order_witness :
  let w :=
    {| tasks_dir :=
         Some [(lit_str "TASKS-B.md", File (lit_str "- [ ] TASK-B-1: one"));
               (lit_str "notes.txt", Unreadable);
               (lit_str "TASKS-A.md", File (lit_str "- [x] TASK-A-1: two"))];
       prds_dir := None |} in
  exists s,
    get_status_summary w = Returned s w
    /\ tasks s = flat_map entry_records (task_entries w)
    /\ total_tasks s = length (flat_map entry_records (task_entries w))
    /\ total_prds s = length (prd_entries w).
Proof.
  intros w. apply (run_records_in_order w); [|reflexivity].
  repeat constructor; simpl; intuition discriminate.
Defined.

(** * Further properties of the summary *)

Lemma nearest_tenth_upto_spec (N d t : nat) :
  nearest_tenth_upto N = true -> 0 < t <= N -> d <= t ->
  nearest_tenth d t = true.
Proof.
  unfold nearest_tenth_upto. intros T Ht Hd.
  rewrite forallb_forall in T.
  assert (Hin : In t (seq 1 N)) by (apply in_seq; lia).
  specialize (T t Hin). rewrite forallb_forall in T.
  apply T, in_seq. lia.
Qed.

Lemma nearest_tenth_table : nearest_tenth_upto 200 = true.
Proof. vm_compute. reflexivity. Qed.

Lemma with_status_length key (l : list task) :
  length (with_status key l) <= length l.
Proof. unfold with_status. apply length_filter. Qed.

(** X9. For one to two hundred records, the completion is printed as the
    decimal [n / 10] with exactly one digit after the point, where [n]
    lies between 0 and 1000 and [n / 10] is a one-decimal number nearest
    to the exact percentage of the records with status [done]: the
    floating point division, multiplication and rounding never move the
    figure away from it, and its shortest decimal has no further digit. *)
Theorem completion_nearest_tenth (n_prds : nat) (all_tasks : list task) :
  0 < length all_tasks <= 200 ->
  let done_count :=
    length (filter (fun t => status t = lit_str "done") all_tasks) in
  exists n : Z,
    str_number (completion (summarize n_prds all_tasks)) =
    u (pretty (n / 10)%Z) ++ u "." ++ u (pretty (n mod 10)%Z)
    /\ (0 <= n <= 1000)%Z
    /\ (2 * Z.abs (n * Z.of_nat (length all_tasks)
                   - 1000 * Z.of_nat done_count)
        <= Z.of_nat (length all_tasks))%Z.
Proof.
  intros [Hpos Hle] done_count.
  pose proof (with_status_length "done" all_tasks) as Hd.
  pose proof (nearest_tenth_upto_spec 200 _ _ nearest_tenth_table
                (conj Hpos Hle) Hd) as T.
  unfold nearest_tenth in T.
  apply andb_prop in T as [T T3]. apply andb_prop in T as [T T2].
  apply andb_prop in T as [T0 T1].
  apply bool_decide_eq_true_1 in T0.
  apply Z.leb_le in T1, T2, T3.
  cbn [summarize completion]. rewrite get0_spec.
  assert (E : (0 <? length all_tasks)%nat = true) by (apply Nat.ltb_lt; lia).
  rewrite E. cbn [round1 str_number]. rewrite T0.
  eexists. split; [|split; [split|]; eassumption].
  unfold one_decimal, u, utext. now rewrite !map_app.
Qed.

Lemma completion_nearest_tenth_witness :
  let all_tasks :=
    parse_content (lit_str "TASKS-A.md")
      (lit_str "- [x] TASK-A-1: one
- [ ] TASK-A-2: two
- [ ] TASK-A-3: three") in
  0 < length all_tasks <= 200
  /\ exists n : Z,
       str_number (completion (summarize 1 all_tasks)) =
       u (pretty (n / 10)%Z) ++ u "." ++ u (pretty (n mod 10)%Z)
       /\ (0 <= n <= 1000)%Z
       /\ (2 * Z.abs (n * 3 - 1000 * 1) <= 3)%Z.
Proof.
  intros all_tasks.
  assert (H : 0 < length all_tasks <= 200)
    by (vm_compute; split; [lia|]; repeat constructor).
  split; [exact H|].
  exact (completion_nearest_tenth 1 all_tasks H).
Defined.

(** * Properties of the initialisation script *)

Section InitProperties.

Import Init.

(** ** The file tree *)

Lemma child_put_eq n x es : child n (put n x es) = Some x.
Proof.
  induction es as [|[n' y] es IH]; simpl.
  - now rewrite bool_decide_eq_true_2.
  - destruct (bool_decide (n' = n)) eqn:E; simpl; rewrite E; auto.
Qed.

Lemma child_put_ne m n x es : m <> n -> child m (put n x es) = child m es.
Proof.
  intros Hne. induction es as [|[n' y] es IH]; simpl.
  - now rewrite bool_decide_eq_false_2 by congruence.
  - destruct (bool_decide (n' = n)) eqn:E; simpl.
    + apply bool_decide_eq_true_1 in E as ->.
      now rewrite bool_decide_eq_false_2 by congruence.
    + now rewrite IH.
Qed.

Lemma put_fresh n x es : child n es = None -> put n x es = es ++ [(n, x)].
Proof.
  induction es as [|[n' y] es IH]; simpl; [reflexivity|].
  destruct (bool_decide (n' = n)); [discriminate|].
  intros H. now rewrite IH.
Qed.

Lemma graft_cons n p new es :
  graft (n :: p) new (Directory es) =
  match p with
  | [] => Directory (put n new es)
  | _ =>
      match child n es with
      | Some y => Directory (put n (graft p new y) es)
      | None => Directory es
      end
  end.
Proof. destruct p; simpl; destruct (child n es); reflexivity. Qed.

Lemma graft_deeper n p new es :
  p <> [] ->
  graft (n :: p) new (Directory es) =
  match child n es with
  | Some y => Directory (put n (graft p new y) es)
  | None => Directory es
  end.
Proof. intros H. rewrite graft_cons. now destruct p. Qed.

Lemma walk_app p n r :
  walk (p ++ [n]) r =
  match walk p r with
  | Found (Directory es) =>
      match child n es with
      | Some y => Found y
      | None => NoEntry
      end
  | Found (Regular _) | Found Undecodable => NotDir
  | NoEntry => NoEntry
  | NotDir => NotDir
  end.
Proof.
  revert r. induction p as [|m p IH]; intros r; simpl.
  - destruct r as [c| |es]; [reflexivity..|]. now destruct (child n es).
  - destruct r as [c| |es]; [reflexivity..|].
    destruct (child m es); [apply IH|reflexivity].
Qed.

Lemma walk_graft_same p n x r es :
  walk p r = Found (Directory es) ->
  walk (p ++ [n]) (graft (p ++ [n]) x r) = Found x.
Proof.
  revert r. induction p as [|m p IH]; intros r H.
  - simpl in H. injection H as ->. simpl. now rewrite child_put_eq.
  - destruct r as [c| |es0]; [discriminate..|]. simpl in H.
    destruct (child m es0) as [y|] eqn:E; [|discriminate].
    change ((m :: p) ++ [n]) with (m :: (p ++ [n])).
    rewrite graft_deeper, E by (now destruct p).
    simpl. rewrite child_put_eq. now apply IH.
Qed.

Lemma walk_graft_parent p n x r es :
  walk p r = Found (Directory es) ->
  walk p (graft (p ++ [n]) x r) = Found (Directory (put n x es)).
Proof.
  revert r. induction p as [|m p IH]; intros r H.
  - simpl in H. injection H as ->. reflexivity.
  - destruct r as [c| |es0]; [discriminate..|]. simpl in H.
    destruct (child m es0) as [y|] eqn:E; [|discriminate].
    change ((m :: p) ++ [n]) with (m :: (p ++ [n])).
    rewrite graft_deeper, E by (now destruct p).
    simpl. rewrite child_put_eq. now apply IH.
Qed.

Lemma walk_graft_independent p q x r :
  independent p q = true -> walk q (graft p x r) = walk q r.
Proof.
  revert q r. induction p as [|n p IH]; intros q r H; [discriminate|].
  destruct q as [|m q]; [discriminate|]. simpl in H.
  destruct r as [c| |es]; [reflexivity..|].
  rewrite graft_cons.
  destruct (bool_decide (n = m)) eqn:E.
  - apply bool_decide_eq_true_1 in E as <-.
    destruct p as [|n' p]; [discriminate|].
    destruct (child n es) as [y|] eqn:Ey; [|reflexivity].
    simpl. rewrite child_put_eq, Ey. now apply IH.
  - apply bool_decide_eq_false_1 in E.
    assert (Hput : forall y, child m (put n y es) = child m es)
      by (intros y; apply child_put_ne; congruence).
    destruct p as [|n' p]; simpl; [now rewrite Hput|].
    destruct (child n es); simpl; [now rewrite Hput|reflexivity].
Qed.

(** ** Nothing is lost *)

Lemma kept_refl r : kept r r.
Proof.
  intros p. destruct (resolve p r) as [[c| |es]| |]; eauto.
Qed.

Lemma kept_trans r1 r2 r3 : kept r1 r2 -> kept r2 r3 -> kept r1 r3.
Proof.
  intros H12 H23 p. specialize (H12 p). specialize (H23 p).
  destruct (resolve p r1) as [[c| |es]| |]; [| | |exact I|exact I].
  - now rewrite H12 in H23.
  - now rewrite H12 in H23.
  - destruct H12 as (es' & E). now rewrite E in H23.
Qed.

Lemma kept_kept_but spare r r' : kept r r' -> kept_but spare r r'.
Proof.
  intros H p. specialize (H p).
  destruct (resolve p r) as [[c| |es]| |]; auto.
  exists []. now rewrite app_nil_r.
Qed.

Lemma kept_but_trans spare r1 r2 r3 :
  kept_but spare r1 r2 -> kept_but spare r2 r3 -> kept_but spare r1 r3.
Proof.
  intros H12 H23 p. specialize (H12 p). specialize (H23 p).
  destruct (resolve p r1) as [[c| |es]| |]; [| | |exact I|exact I].
  - destruct H12 as (d & E & Hd). rewrite E in H23.
    destruct H23 as (d' & E' & Hd'). exists (d ++ d').
    rewrite app_assoc. split; [exact E'|].
    intros Hp. now rewrite Hd, Hd'.
  - now rewrite H12 in H23.
  - destruct H12 as (es' & E). now rewrite E in H23.
Qed.

(** Nothing is lost where there was nothing. *)
Lemma kept_absent r : kept Absent r.
Proof. intros p. exact I. Qed.

Lemma kept_graft_new p x (r : fnode) :
  (forall y, walk p r <> Found y) -> kept r (graft p x r).
Proof.
  revert r. induction p as [|n p IH]; intros r Hnew.
  - now destruct (Hnew r).
  - destruct r as [c| |es]; [apply kept_refl..|].
    intros q. cbn [resolve]. destruct q as [|m q].
    + rewrite graft_cons.
      destruct p; [|destruct (child n es)]; simpl; eauto.
    + destruct (bool_decide (m = n)) eqn:Emn.
      * apply bool_decide_eq_true_1 in Emn as ->.
        destruct (child n es) as [y|] eqn:Ey;
          [|cbn [walk]; now rewrite Ey].
        destruct p as [|n' p].
        { exfalso. apply (Hnew y). simpl. now rewrite Ey. }
        rewrite graft_deeper, Ey by discriminate.
        cbn [walk]. rewrite child_put_eq, Ey.
        refine (IH y _ q).
        intros z Hz. apply (Hnew z). cbn [walk]. now rewrite Ey.
      * apply bool_decide_eq_false_1 in Emn.
        assert (E : walk (m :: q) (graft (n :: p) x (Directory es))
                    = walk (m :: q) (Directory es)).
        { rewrite graft_cons.
          destruct p; [|destruct (child n es)]; simpl;
            rewrite ?child_put_ne by exact Emn; reflexivity. }
        rewrite E. apply (kept_refl (Directory es) (m :: q)).
Qed.

Lemma kept_but_graft_append p c d (r : fnode) :
  walk p r = Found (Regular c) ->
  kept_but p r (graft p (Regular (c ++ d)) r).
Proof.
  revert r. induction p as [|n p IH]; intros r Hp.
  - simpl in Hp. injection Hp as ->. intros q.
    destruct q as [|m q]; simpl; [|exact I].
    exists d. split; [reflexivity|]. intros H. now destruct H.
  - destruct r as [c0| |es]; [discriminate..|]. simpl in Hp.
    destruct (child n es) as [y|] eqn:Ey; [|discriminate].
    intros q. cbn [resolve]. destruct q as [|m q].
    + rewrite graft_cons, Ey.
      destruct p; simpl; eauto.
    + destruct (bool_decide (m = n)) eqn:Emn.
      * apply bool_decide_eq_true_1 in Emn as ->.
        destruct p as [|n' p].
        { simpl in Hp. injection Hp as ->.
          simpl. rewrite child_put_eq, Ey.
          destruct q as [|m' q]; simpl; [|exact I].
          exists d. split; [reflexivity|]. intros H. now destruct H. }
        rewrite graft_deeper, Ey by discriminate.
        cbn [walk]. rewrite child_put_eq, Ey.
        specialize (IH y Hp q). cbn [resolve] in IH.
        destruct (walk q y) as [[c1| |es1]| |]; auto.
        destruct IH as (d1 & E1 & Hd1). exists d1. split; [exact E1|].
        intros Hne. apply Hd1. congruence.
      * apply bool_decide_eq_false_1 in Emn.
        assert (E : walk (m :: q)
                      (graft (n :: p) (Regular (c ++ d)) (Directory es))
                    = walk (m :: q) (Directory es)).
        { rewrite graft_cons, Ey.
          destruct p; simpl; rewrite ?child_put_ne by exact Emn;
            reflexivity. }
        rewrite E.
        apply (kept_kept_but _ _ _ (kept_refl (Directory es)) (m :: q)).
Qed.

(** ** Paths in the tree *)

Lemma stat_at p (x : fnode) : stat p x = walk (parts p) x.
Proof. reflexivity. Qed.

Lemma stat_Found p r y : stat p r = Found y -> exists x, r = At x.
Proof. destruct r as [|x]; [discriminate|eauto]. Qed.

Lemma stat_child q n r :
  stat (Child q n) r =
  match stat q r with
  | Found (Directory es) =>
      match child n es with
      | Some y => Found y
      | None => NoEntry
      end
  | Found (Regular _) | Found Undecodable => NotDir
  | NoEntry => NoEntry
  | NotDir => NotDir
  end.
Proof. destruct r as [|x]; [reflexivity|apply walk_app]. Qed.

Lemma stat_store_same q n x r es :
  stat q r = Found (Directory es) ->
  stat (Child q n) (store (Child q n) x r) = Found x.
Proof. destruct r as [|y]; [discriminate|apply walk_graft_same]. Qed.

Lemma stat_store_parent q n x r es :
  stat q r = Found (Directory es) ->
  stat q (store (Child q n) x r) = Found (Directory (put n x es)).
Proof. destruct r as [|y]; [discriminate|apply walk_graft_parent]. Qed.

Lemma stat_store_independent p q x r :
  independent (parts p) (parts q) = true ->
  stat q (store p x r) = stat q r.
Proof. destruct r as [|y]; [reflexivity|apply walk_graft_independent]. Qed.

(** ** Computations that lose nothing *)

Lemma keeps_ret {A} (a : A) : keeps (mret a).
Proof. intros w. apply kept_refl. Qed.

Lemma keeps_bind {A B} (c : cmd A) (k : A -> cmd B) :
  keeps c -> (forall a, keeps (k a)) -> keeps (c ≫= k).
Proof.
  intros Hc Hk w. unfold mbind, cmd_bind. specialize (Hc w).
  destruct (c w) as [a w'|e w']; [|exact Hc].
  exact (kept_trans _ _ _ Hc (Hk a w')).
Qed.

Lemma keeps_keeps_but {A} spare (c : cmd A) : keeps c -> keeps_but spare c.
Proof. intros H w. apply kept_kept_but, H. Qed.

Lemma keeps_but_bind {A B} spare (c : cmd A) (k : A -> cmd B) :
  keeps_but spare c -> (forall a, keeps_but spare (k a)) ->
  keeps_but spare (c ≫= k).
Proof.
  intros Hc Hk w. unfold mbind, cmd_bind. specialize (Hc w).
  destruct (c w) as [a w'|e w']; [|exact Hc].
  exact (kept_but_trans _ _ _ _ Hc (Hk a w')).
Qed.

Lemma keeps_print t : keeps (print t).
Proof. intros w. apply kept_refl. Qed.

Lemma keeps_input t : keeps (input t).
Proof. intros w. unfold input. destruct (stdin w); apply kept_refl. Qed.

Lemma keeps_path_exists p : keeps (path_exists p).
Proof. intros w. apply kept_refl. Qed.

Lemma keeps_getcwd : keeps getcwd.
Proof.
  intros w.
  assert (final (getcwd w) = w) as ->
    by (unfold getcwd; now destruct (root w)).
  apply kept_refl.
Qed.

Lemma keeps_read_text p : keeps (read_text p).
Proof.
  intros w. unfold read_text.
  destruct (stat p (root w)) as [[c| |es]| |]; apply kept_refl.
Qed.

Lemma create_unchanged p x w e w' : create p x w = Err e w' -> w' = w.
Proof.
  unfold create.
  destruct (stat p (root w)) as [y| |], p as [|q n];
    try destruct (stat q (root w)) as [[c| |es]| |];
    intros H; now inversion H.
Qed.

Lemma create_kept p x w :
  (forall y, stat p (root w) <> Found y) ->
  kept (root w) (root (final (create p x w))).
Proof.
  intros Hnew. unfold create.
  destruct (stat p (root w)) as [y| |] eqn:E; [now destruct (Hnew y)| |].
  - destruct p as [|q n].
    + destruct (root w) as [|r]; [apply kept_absent|discriminate].
    + destruct (stat q (root w)) as [[c| |es]| |];
        try apply kept_refl.
      cbn [final root set_root].
      destruct (root w) as [|r]; [apply kept_absent|].
      apply kept_graft_new. rewrite stat_at in E. rewrite E. discriminate.
  - apply kept_refl.
Qed.

Lemma os_mkdir_unchanged p w e w' : os_mkdir p w = Err e w' -> w' = w.
Proof.
  unfold os_mkdir.
  destruct (stat p (root w)) as [y| |];
    [intros H; now inversion H|apply create_unchanged..].
Qed.

Lemma keeps_os_mkdir p : keeps (os_mkdir p).
Proof.
  intros w. unfold os_mkdir.
  destruct (stat p (root w)) as [y| |] eqn:E; [apply kept_refl| |];
    apply create_kept; rewrite E; discriminate.
Qed.

Lemma final_mkdir_exist_ok p w :
  final (mkdir_exist_ok p w) = final (os_mkdir p w).
Proof.
  unfold mkdir_exist_ok.
  destruct (os_mkdir p w) as [a w'|[] w']; try reflexivity;
    now destruct (is_dir p (root w')).
Qed.

Lemma keeps_mkdir_exist_ok p : keeps (mkdir_exist_ok p).
Proof. intros w. rewrite final_mkdir_exist_ok. apply keeps_os_mkdir. Qed.

Lemma mkdir_step_kept (p : path) (rest : cmd unit) w :
  keeps rest ->
  kept (root w)
    (root (final
       match os_mkdir p w with
       | Ok a w' => Ok a w'
       | Err FileNotFoundError w' => rest w'
       | Err e w' => if is_dir p (root w') then Ok tt w' else Err e w'
       end)).
Proof.
  intros Hrest. pose proof (keeps_os_mkdir p w) as H.
  destruct (os_mkdir p w) as [a w'|[] w'] eqn:E;
    try exact H; try (now destruct (is_dir p (root w'))).
  apply os_mkdir_unchanged in E as ->. apply Hrest.
Qed.

Lemma keeps_mkdir p : keeps (mkdir p).
Proof.
  induction p as [|q IH n]; intros w; cbn [mkdir].
  - apply (mkdir_step_kept Root (fun w' => Err FileNotFoundError w')).
    intros w'. apply kept_refl.
  - apply (mkdir_step_kept (Child q n)
             (mkdir q ≫= fun _ => mkdir_exist_ok (Child q n))).
    apply keeps_bind; [exact IH|]. intros _. apply keeps_mkdir_exist_ok.
Qed.

Lemma keeps_touch p : keeps (touch p).
Proof.
  intros w. unfold touch.
  destruct (stat p (root w)) as [y| |] eqn:E; [apply kept_refl| |];
    apply create_kept; rewrite E; discriminate.
Qed.

Lemma open_write_new_kept append p data w :
  (forall y, stat p (root w) <> Found y) ->
  kept (root w) (root (final (open_write append p data w))).
Proof.
  intros Hnew. unfold open_write.
  destruct (stat p (root w)) as [y| |] eqn:E; [now destruct (Hnew y)| |];
    apply create_kept; rewrite E; discriminate.
Qed.

Lemma keeps_but_append p data : keeps_but (parts p) (open_write true p data).
Proof.
  intros w. unfold open_write.
  destruct (stat p (root w)) as [[c| |es]| |] eqn:E.
  - cbn [final root set_root].
    destruct (root w) as [|r]; [discriminate|].
    apply kept_but_graft_append, E.
  - apply kept_kept_but, kept_refl.
  - apply kept_kept_but, kept_refl.
  - apply kept_kept_but, create_kept. rewrite E. discriminate.
  - apply kept_kept_but, create_kept. rewrite E. discriminate.
Qed.

(** ** What the script never does *)

Lemma keeps_create_project_structure : keeps create_project_structure.
Proof.
  unfold create_project_structure.
  repeat (apply keeps_bind; [|intros _]);
    auto using keeps_mkdir, keeps_touch, keeps_ret.
Qed.

Lemma keeps_create_config (project_root now : str) (project_dir : path)
    (project_name : option str) :
  keeps (create_config project_root now project_dir project_name).
Proof.
  intros w. unfold create_config, mbind, cmd_bind, path_exists.
  set (data := dump _).
  destruct (stat _ (root w)) as [y| |] eqn:E; [apply kept_refl| |];
    (assert (H := open_write_new_kept false
                    (project_dir </> ".project-config.json") data w);
     rewrite E in H; specialize (H ltac:(discriminate));
     destruct (open_write false _ data w) as [a w'|e w']; exact H).
Qed.

Lemma keeps_update_gitignore :
  keeps_but [lit_str ".gitignore"] update_gitignore.
Proof.
  intros w. unfold update_gitignore, mbind, cmd_bind, path_exists, write_text.
  destruct (stat _ (root w)) as [y| |] eqn:E; cbn [negb].
  - unfold read_text. rewrite E. destruct y as [c| |es].
    + destruct (contains _ _); [apply kept_kept_but, kept_refl|].
      assert (H := keeps_but_append (Root </> ".gitignore") ignore_entry w).
      destruct (open_write true _ ignore_entry w) as [a w'|e w']; exact H.
    + apply kept_kept_but, kept_refl.
    + apply kept_kept_but, kept_refl.
  - assert (H := open_write_new_kept false (Root </> ".gitignore")
                  ignore_entry w).
    rewrite E in H. specialize (H ltac:(discriminate)).
    apply kept_kept_but.
    destruct (open_write false _ ignore_entry w) as [a w'|e w']; exact H.
  - assert (H := open_write_new_kept false (Root </> ".gitignore")
                  ignore_entry w).
    rewrite E in H. specialize (H ltac:(discriminate)).
    apply kept_kept_but.
    destruct (open_write false _ ignore_entry w) as [a w'|e w']; exact H.
Qed.

Lemma keeps_main (project_root now : str) :
  keeps_but [lit_str ".gitignore"] (main project_root now).
Proof.
  unfold main.
  repeat (apply keeps_but_bind;
          [solve [auto using keeps_keeps_but, keeps_print, keeps_input,
                    keeps_getcwd, keeps_create_project_structure,
                    keeps_create_config, keeps_update_gitignore]
          |intros ?]).
  apply keeps_keeps_but, keeps_print.
Qed.

(** ** Running the calls on a tree *)

Lemma put_put n x y es : put n x (put n y es) = put n x es.
Proof.
  induction es as [|[n' z] es IH]; simpl.
  - now rewrite bool_decide_eq_true_2.
  - destruct (bool_decide (n' = n)) eqn:E; simpl; rewrite E; congruence.
Qed.

Lemma put_same n x es : child n es = Some x -> put n x es = es.
Proof.
  induction es as [|[n' z] es IH]; simpl; [discriminate|].
  destruct (bool_decide (n' = n)); [congruence|].
  intros H. now rewrite IH.
Qed.

Lemma put_swap n m x y es :
  n <> m -> child n es <> None ->
  put n x (put m y es) = put m y (put n x es).
Proof.
  intros Hnm. induction es as [|[n' z] es IH]; simpl; [congruence|].
  destruct (bool_decide (n' = n)) eqn:En, (bool_decide (n' = m)) eqn:Em;
    simpl; rewrite ?En, ?Em; try reflexivity.
  - apply bool_decide_eq_true_1 in En, Em. congruence.
  - intros H. now rewrite IH.
Qed.

Ltac names_differ := intros Hname; cbv in Hname; discriminate Hname.

Ltac tree :=
  unfold mbind, cmd_bind, mret, cmd_ret;
  cbn [resolve walk graft parts app parent root stdin stdout final error_of
       negb];
  rewrite ?child_put_eq, ?put_put;
  rewrite ?child_put_ne by names_differ.

Lemma os_mkdir_top a w es :
  root w = Directory es ->
  os_mkdir (Child Root a) w =
  match child a es with
  | Some _ => Err FileExistsError w
  | None => Ok tt (set_root (Directory (put a (Directory []) es)) w)
  end.
Proof.
  intros Hr. unfold os_mkdir, create, stat, store. tree. rewrite Hr. tree.
  now destruct (child a es).
Qed.

Lemma os_mkdir_below a b w es :
  root w = Directory es ->
  os_mkdir (Child (Child Root a) b) w =
  match child a es with
  | Some (Directory ps) =>
      match child b ps with
      | Some _ => Err FileExistsError w
      | None =>
          Ok tt
            (set_root
               (Directory (put a (Directory (put b (Directory []) ps)) es)) w)
      end
  | Some (Regular _) | Some Undecodable => Err NotADirectoryError w
  | None => Err FileNotFoundError w
  end.
Proof.
  intros Hr. unfold os_mkdir, create, stat, store. tree. rewrite Hr. tree.
  destruct (child a es) as [[c| |ps]|]; try reflexivity.
  now destruct (child b ps).
Qed.

Lemma is_dir_below a b es :
  is_dir (Child (Child Root a) b) (Directory es) =
  match child a es with
  | Some (Directory ps) =>
      match child b ps with
      | Some (Directory _) => true
      | _ => false
      end
  | _ => false
  end.
Proof.
  unfold is_dir, stat. tree.
  destruct (child a es) as [[c| |ps]|]; try reflexivity.
  now destruct (child b ps) as [[c| |qs]|].
Qed.

Lemma mkdir_below (a b : str) (w : world) (es : list (str * fnode)) :
  root w = Directory es ->
  mkdir (Child (Child Root a) b) w =
  match child a es with
  | Some (Directory ps) =>
      match child b ps with
      | Some (Directory _) => Ok tt w
      | Some (Regular _) | Some Undecodable => Err FileExistsError w
      | None =>
          Ok tt
            (set_root
               (Directory (put a (Directory (put b (Directory []) ps)) es)) w)
      end
  | Some (Regular _) | Some Undecodable => Err NotADirectoryError w
  | None =>
      Ok tt
        (set_root
           (Directory (put a (Directory (put b (Directory []) [])) es)) w)
  end.
Proof.
  intros Hr. cbn [mkdir]. rewrite (os_mkdir_below a b w es Hr).
  destruct (child a es) as [[c| |ps]|] eqn:Ea.
  - tree. now rewrite Hr, is_dir_below, Ea.
  - tree. now rewrite Hr, is_dir_below, Ea.
  - destruct (child b ps) as [[c| |qs]|] eqn:Eb; tree;
      rewrite ?Hr, ?is_dir_below, ?Ea, ?Eb; reflexivity.
  - tree. rewrite (os_mkdir_top a w es Hr), Ea. unfold mkdir_exist_ok.
    rewrite (os_mkdir_below a b _ (put a (Directory []) es)) by reflexivity.
    tree. reflexivity.
Qed.

Lemma os_mkdir_absent_child q n w :
  root w = Absent -> os_mkdir (Child q n) w = Err FileNotFoundError w.
Proof.
  intros Hr. unfold os_mkdir, create, stat. rewrite Hr. reflexivity.
Qed.

Lemma os_mkdir_absent_root w :
  root w = Absent -> os_mkdir Root w = Ok tt (set_root (Directory []) w).
Proof.
  intros Hr. unfold os_mkdir, create, stat. rewrite Hr. reflexivity.
Qed.

(** On a missing root, [mkdir] goes on as on an empty one. *)
Lemma mkdir_absent (a b : str) (w : world) :
  root w = Absent ->
  mkdir (Child (Child Root a) b) w =
  mkdir (Child (Child Root a) b) (set_root (Directory []) w).
Proof.
  intros Hr.
  rewrite (mkdir_below a b (set_root (Directory []) w) []) by reflexivity.
  cbn [mkdir child].
  rewrite os_mkdir_absent_child by exact Hr. unfold mbind, cmd_bind.
  rewrite os_mkdir_absent_child by exact Hr. unfold mbind, cmd_bind.
  rewrite os_mkdir_absent_root by exact Hr. unfold mkdir_exist_ok.
  rewrite (os_mkdir_top a _ []) by reflexivity. cbn [child put].
  rewrite (os_mkdir_below a b _ [(a, Directory [])]) by reflexivity.
  cbn [child put]. rewrite bool_decide_eq_true_2 by reflexivity.
  reflexivity.
Qed.

Lemma set_root_same r w : root w = r -> set_root r w = w.
Proof. intros <-. now destruct w. Qed.

(** [mkdir] below an entry of the root, when nothing is in the way. *)
Lemma mkdir_below_ok (a b : str) (w : world) es :
  root w = Directory es ->
  (forall c, child a es <> Some (Regular c)) ->
  child a es <> Some Undecodable ->
  (forall c, child b (entries_of (child a es)) <> Some (Regular c)) ->
  child b (entries_of (child a es)) <> Some Undecodable ->
  mkdir (Child (Child Root a) b) w =
  Ok tt
    (set_root
       (Directory
          (put a
             (Directory
                (put b
                   (Directory (entries_of (child b (entries_of (child a es)))))
                   (entries_of (child a es))))
             es)) w).
Proof.
  intros Hr Ha Ha' Hb Hb'. rewrite (mkdir_below a b w es Hr).
  destruct (child a es) as [[c| |ps]|] eqn:Ea;
    [now destruct (Ha c)|now destruct Ha'| |].
  - cbn [entries_of] in *.
    destruct (child b ps) as [[c| |qs]|] eqn:Eb;
      [now destruct (Hb c)|now destruct Hb'| |].
    + cbn [entries_of]. rewrite (put_same b _ ps Eb).
      rewrite (put_same a _ es Ea). now rewrite set_root_same.
    + reflexivity.
  - reflexivity.
Qed.

Lemma touch_below (a b c : str) (w : world) es ps qs :
  root w = Directory es ->
  child a es = Some (Directory ps) ->
  child b ps = Some (Directory qs) ->
  touch (Child (Child (Child Root a) b) c) w =
  Ok tt
    (set_root
       (Directory
          (put a (Directory (put b (Directory (touched c qs)) ps)) es)) w).
Proof.
  intros Hr Ea Eb. unfold touch, create, stat, store, touched. tree.
  rewrite Hr. tree. rewrite Ea, Eb.
  destruct (child c qs) as [y|] eqn:Ec.
  - rewrite (put_same b _ ps Eb), (put_same a _ es Ea).
    now rewrite set_root_same.
  - reflexivity.
Qed.

Lemma regular_child_false n es :
  regular_child n es = false ->
  (forall c, child (lit_str n) es <> Some (Regular c))
  /\ child (lit_str n) es <> Some Undecodable.
Proof.
  unfold regular_child. intros H. split; [intros c E|intros E];
    now rewrite E in H.
Qed.

Lemma create_project_structure_ok w es :
  root w = Directory es ->
  obstruction (Directory es) = None ->
  create_project_structure w =
  Ok project_path (set_root (Directory (structured es)) w).
Proof.
  intros Hr Hob. cbn [obstruction] in Hob.
  destruct (regular_child ".project" es) eqn:H0; [discriminate|].
  destruct (regular_child "prds" _) eqn:H1; [discriminate|].
  destruct (regular_child "tasks" _) eqn:H2; [discriminate|]. clear Hob.
  pose proof (regular_child_false _ _ H0) as [H0' H0''].
  pose proof (regular_child_false _ _ H1) as [H1' H1''].
  pose proof (regular_child_false _ _ H2) as [H2' H2''].
  set (ps := entries_of (child (lit_str ".project") es)) in *.
  unfold create_project_structure, mbind, cmd_bind.
  rewrite (mkdir_below_ok _ _ w es Hr H0' H0'' H1' H1''). fold ps.
  set (qs := entries_of (child (lit_str "prds") ps)).
  set (ps1 := put (lit_str "prds") (Directory qs) ps).
  lazymatch goal with
  | |- context [mkdir _ (set_root (At (Directory ?e)) ?w0)] =>
      rewrite (mkdir_below_ok _ _ (set_root (Directory e) w0) e eq_refl)
  end.
  2:{ rewrite child_put_eq. discriminate. }
  2:{ rewrite child_put_eq. discriminate. }
  2:{ rewrite child_put_eq. cbn [entries_of]. unfold ps1.
      rewrite child_put_ne by names_differ. exact H2'. }
  2:{ rewrite child_put_eq. cbn [entries_of]. unfold ps1.
      rewrite child_put_ne by names_differ. exact H2''. }
  rewrite child_put_eq, put_put. cbn [entries_of]. unfold ps1 at 1.
  rewrite child_put_ne by names_differ.
  set (ts := entries_of (child (lit_str "tasks") ps)).
  set (ps2 := put (lit_str "tasks") (Directory ts) ps1).
  lazymatch goal with
  | |- context [touch _ (set_root (At (Directory ?e)) ?w0)] =>
      rewrite (touch_below _ _ _ (set_root (Directory e) w0) e ps2 qs eq_refl)
  end.
  2:{ apply child_put_eq. }
  2:{ unfold ps2, ps1. rewrite child_put_ne by names_differ.
      apply child_put_eq. }
  rewrite put_put.
  set (ps3 := put (lit_str "prds") _ ps2).
  lazymatch goal with
  | |- context [touch _ (set_root (At (Directory ?e)) ?w0)] =>
      rewrite (touch_below _ _ _ (set_root (Directory e) w0) e ps3 ts eq_refl)
  end.
  2:{ apply child_put_eq. }
  2:{ unfold ps3, ps2. rewrite child_put_ne by names_differ.
      apply child_put_eq. }
  rewrite put_put. unfold mret, cmd_ret, set_root. cbn [root stdin stdout].
  unfold structured. fold ps. fold qs. fold ts.
  unfold ps3, ps2, ps1.
  rewrite (put_swap (lit_str "prds") (lit_str "tasks"));
    [|names_differ|rewrite child_put_eq; discriminate].
  rewrite !put_put. reflexivity.
Qed.

(** On a missing root, the structure is made as on an empty one. *)
Lemma create_project_structure_absent w :
  root w = Absent ->
  create_project_structure w =
  Ok project_path (set_root (Directory (structured [])) w).
Proof.
  intros Hr.
  transitivity (create_project_structure (set_root (Directory []) w)).
  - unfold create_project_structure, mbind, cmd_bind.
    now rewrite (mkdir_absent _ _ w Hr).
  - now rewrite (create_project_structure_ok (set_root (Directory []) w) []
                   eq_refl eq_refl).
Qed.

Lemma mkdir_in_file (a b : str) (w : world) (x : fnode) :
  root w = x -> (forall es, x <> Directory es) ->
  mkdir (Child (Child Root a) b) w = Err NotADirectoryError w.
Proof.
  intros Hr Hx. cbn [mkdir]. unfold os_mkdir, create, is_dir, stat. tree.
  rewrite Hr. destruct x as [c| |es]; [| |now destruct (Hx es)];
    tree; rewrite Hr; reflexivity.
Qed.

Lemma create_project_structure_error w :
  error_of (create_project_structure w) = obstruction (root w).
Proof.
  destruct (root w) as [|x] eqn:Hr.
  { now rewrite (create_project_structure_absent w Hr). }
  destruct (obstruction x) as [e|] eqn:Hob.
  2:{ destruct x as [c| |es]; [discriminate..|].
      now rewrite (create_project_structure_ok w es Hr Hob). }
  unfold create_project_structure, mbind, cmd_bind.
  destruct x as [c| |es].
  - rewrite (mkdir_in_file _ _ w _ Hr) by discriminate. exact Hob.
  - rewrite (mkdir_in_file _ _ w _ Hr) by discriminate. exact Hob.
  - cbn [obstruction] in Hob. unfold regular_child in Hob.
    rewrite (mkdir_below _ _ w es Hr).
    destruct (child (lit_str ".project") es) as [[c| |ps]|] eqn:E0;
      cbn [entries_of] in Hob; [exact Hob|exact Hob| |discriminate].
    destruct (child (lit_str "prds") ps) as [[c| |qs]|] eqn:E1;
      [exact Hob|exact Hob| |].
    + rewrite (mkdir_below _ _ w es Hr), E0.
      destruct (child (lit_str "tasks") ps) as [[c| |ts]|] eqn:E2;
        [exact Hob|exact Hob|discriminate|discriminate].
    + lazymatch goal with
      | |- context [mkdir _ (set_root (At (Directory ?e)) ?w0)] =>
          rewrite (mkdir_below _ _ (set_root (Directory e) w0) e eq_refl)
      end.
      rewrite child_put_eq, child_put_ne by names_differ.
      destruct (child (lit_str "tasks") ps) as [[c| |ts]|] eqn:E2;
        [exact Hob|exact Hob|discriminate|discriminate].
Qed.

Lemma create_config_run project_root now name w es ps :
  root w = Directory es ->
  child (lit_str ".project") es = Some (Directory ps) ->
  create_config project_root now project_path name w =
  Ok config_path
    (shown [Printed (config_message project_root es)]
       (set_root
          (Directory
             (configured
                (dump
                   (config
                      (or_else name (parent_name project_root project_path))
                      now))
                es)) w)).
Proof.
  intros Hr E0.
  unfold create_config, mbind, cmd_bind, path_exists, open_write, create,
    stat, store, config_message, has_config, configured, config_path,
    project_path.
  tree. rewrite Hr. tree. rewrite E0. cbn [entries_of].
  destruct (child (lit_str ".project-config.json") ps) as [y|] eqn:Ec.
  - unfold print, mret, cmd_ret, shown. rewrite set_root_same by exact Hr.
    reflexivity.
  - tree. rewrite Hr. tree. rewrite E0, Ec. reflexivity.
Qed.

Lemma update_gitignore_run w es :
  root w = Directory es ->
  update_gitignore w =
  match child (lit_str ".gitignore") es with
  | Some (Directory _) => Err IsADirectoryError w
  | Some Undecodable => Err UnicodeDecodeError w
  | _ =>
      Ok tt
        (shown [Printed (gitignore_message es)]
           (set_root (Directory (ignored es)) w))
  end.
Proof.
  intros Hr.
  unfold update_gitignore, mbind, cmd_bind, path_exists, write_text,
    read_text, open_write, create, stat, store, gitignore_message, ignored,
    excludes.
  tree. rewrite Hr. tree.
  destruct (child (lit_str ".gitignore") es) as [[c| |ds]|] eqn:Eg;
    repeat (progress (tree; rewrite ?Hr, ?Eg)).
  - destruct (contains _ _); repeat (progress (tree; rewrite ?Hr, ?Eg)).
    + unfold print, shown. rewrite set_root_same by exact Hr. reflexivity.
    + reflexivity.
  - reflexivity.
  - reflexivity.
  - reflexivity.
Qed.

(** Outside a directory, [update_gitignore] changes nothing. *)
Lemma update_gitignore_stopped w e :
  (forall es, root w <> Directory es) ->
  gitignore_obstruction (root w) = Some e ->
  update_gitignore w = Err e w.
Proof.
  intros Hr Hob.
  unfold update_gitignore, mbind, cmd_bind, path_exists, write_text,
    open_write, create, stat.
  destruct (root w) as [|[c| |es]] eqn:E;
    [| | |now destruct (Hr es)]; injection Hob as <-;
    cbn [resolve parts app walk negb]; rewrite E; reflexivity.
Qed.

(** ** The trees that the script leaves *)

Lemma child_structured_project es :
  child (lit_str ".project") (structured es) =
  Some
    (Directory
       (put (lit_str "tasks")
          (Directory
             (touched (lit_str ".gitkeep")
                (entries_of
                   (child (lit_str "tasks")
                      (entries_of (child (lit_str ".project") es))))))
          (put (lit_str "prds")
             (Directory
                (touched (lit_str ".gitkeep")
                   (entries_of
                      (child (lit_str "prds")
                         (entries_of (child (lit_str ".project") es))))))
             (entries_of (child (lit_str ".project") es))))).
Proof. unfold structured. apply child_put_eq. Qed.

Lemma child_structured_other n es :
  n <> lit_str ".project" -> child n (structured es) = child n es.
Proof. intros H. unfold structured. now apply child_put_ne. Qed.

Lemma has_config_structured es : has_config (structured es) = has_config es.
Proof.
  unfold has_config. rewrite child_structured_project. cbn [entries_of].
  now rewrite !child_put_ne by names_differ.
Qed.

Lemma child_configured_other data n es :
  n <> lit_str ".project" -> child n (configured data es) = child n es.
Proof.
  intros H. unfold configured.
  destruct (child (lit_str ".project-config.json") _); [reflexivity|].
  now apply child_put_ne.
Qed.

Lemma or_else_typed (line b : str) :
  or_else
    match strip line with
    | [] => None
    | _ :: _ => Some (strip line)
    end b =
  match strip line with
  | [] => b
  | name => name
  end.
Proof. now destruct (strip line). Qed.

Lemma print_bind {A} t (k : unit -> cmd A) w :
  (print t ≫= k) w = k tt (shown [Printed t] w).
Proof. reflexivity. Qed.

Lemma getcwd_bind {A} (k : unit -> cmd A) w (x : fnode) :
  root w = x -> (getcwd ≫= k) w = k tt w.
Proof. intros Hr. unfold mbind, cmd_bind, getcwd. now rewrite Hr. Qed.

(** Where the working directory is gone, [main] does nothing. *)
Lemma main_absent (project_root now : str) w :
  root w = Absent -> main project_root now w = Err FileNotFoundError w.
Proof.
  intros Hr. unfold main, mbind, cmd_bind, getcwd. now rewrite Hr.
Qed.

(** A run of [main] that reaches [update_gitignore], in closed form. *)
Lemma main_run_to_gitignore (project_root now : str) w es line rest :
  root w = Directory es ->
  obstruction (Directory es) = None ->
  stdin w = line :: rest ->
  let data := dump (config (project_name_of project_root line) now) in
  main project_root now w =
  match child (lit_str ".gitignore") es with
  | Some (Directory _) =>
      Err IsADirectoryError
        {| root := Directory (configured data (structured es));
           stdin := rest;
           stdout := stdout w ++ take 4 (transcript project_root es) |}
  | Some Undecodable =>
      Err UnicodeDecodeError
        {| root := Directory (configured data (structured es));
           stdin := rest;
           stdout := stdout w ++ take 4 (transcript project_root es) |}
  | _ =>
      Ok tt
        {| root := Directory (ignored (configured data (structured es)));
           stdin := rest;
           stdout := stdout w ++ transcript project_root es |}
  end.
Proof.
  intros Hr Hob Hin data. unfold main.
  rewrite (getcwd_bind _ w _ Hr), print_bind.
  unfold mbind at 1, cmd_bind at 1.
  rewrite (create_project_structure_ok (shown _ w) es Hr Hob).
  rewrite print_bind.
  unfold mbind at 1, cmd_bind at 1, input at 1.
  cbn [shown set_root root stdin stdout]. rewrite Hin.
  unfold mbind at 1, cmd_bind at 1.
  lazymatch goal with
  | |- context [create_config _ _ _ _ ?W] =>
      rewrite (create_config_run project_root now _ W (structured es) _
                 eq_refl (child_structured_project es))
  end.
  rewrite or_else_typed. fold (project_name_of project_root line).
  fold data.
  unfold mbind at 1, cmd_bind at 1.
  lazymatch goal with
  | |- context [update_gitignore ?W] =>
      rewrite (update_gitignore_run W (configured data (structured es))
                 eq_refl)
  end.
  rewrite child_configured_other, child_structured_other by names_differ.
  assert (Ec : config_message project_root (structured es)
               = config_message project_root es)
    by (unfold config_message; now rewrite has_config_structured).
  rewrite Ec.
  assert (Em : gitignore_message (configured data (structured es))
               = gitignore_message es).
  { unfold gitignore_message.
    now rewrite child_configured_other, child_structured_other
      by names_differ. }
  rewrite Em.
  destruct (child (lit_str ".gitignore") es) as [[c| |ds]|] eqn:Eg;
    lazy beta iota; unfold shown, set_root; cbn [root stdin stdout];
    repeat (rewrite print_bind; unfold shown; cbn [root stdin stdout]);
    unfold print, transcript; cbn [root stdin stdout take];
    rewrite <- ?(app_assoc (stdout w)); cbn [app]; reflexivity.
Qed.

(** A run of [main] that nothing stops, in closed form. *)
Lemma main_run (project_root now : str) w es line rest :
  root w = Directory es ->
  obstruction (Directory es) = None ->
  stdin w = line :: rest ->
  gitignore_obstruction (Directory es) = None ->
  main project_root now w =
  Ok tt
    {| root :=
         Directory
           (ignored
              (configured
                 (dump (config (project_name_of project_root line) now))
                 (structured es)));
       stdin := rest;
       stdout := stdout w ++ transcript project_root es |}.
Proof.
  intros Hr Hob Hin Hg.
  rewrite (main_run_to_gitignore project_root now w es line rest Hr Hob Hin).
  cbn [gitignore_obstruction] in Hg.
  destruct (child (lit_str ".gitignore") es) as [[c| |ds]|] eqn:Eg;
    [reflexivity|discriminate|discriminate|reflexivity].
Qed.

Lemma main_obstructed (project_root now : str) w e :
  obstruction (root w) = Some e ->
  error_of (main project_root now w) = Some e.
Proof.
  intros Hob. unfold main.
  destruct (root w) as [|x] eqn:Hr; [discriminate|].
  rewrite (getcwd_bind _ w _ Hr), print_bind.
  unfold mbind at 1, cmd_bind at 1.
  pose proof (create_project_structure_error (shown
    [Printed (u "Initializing project management in " ++ utext project_root)]
    w)) as H.
  cbn [shown root] in H. rewrite Hr, Hob in H.
  destruct (create_project_structure _) as [p w'|e' w']; [discriminate|].
  exact H.
Qed.

Lemma main_without_input (project_root now : str) w (x : fnode) :
  root w = x -> obstruction x = None -> stdin w = [] ->
  error_of (main project_root now w) = Some EOFError.
Proof.
  intros Hr Hob Hin.
  destruct x as [c| |es]; [discriminate..|].
  unfold main. rewrite (getcwd_bind _ w _ Hr), print_bind.
  unfold mbind at 1, cmd_bind at 1.
  rewrite (create_project_structure_ok (shown _ w) es Hr Hob).
  rewrite print_bind.
  unfold mbind at 1, cmd_bind at 1, input at 1.
  cbn [shown set_root root stdin stdout]. rewrite Hin. reflexivity.
Qed.

(** X16. A run of [main] fails exactly in these cases, with these
    exceptions, the first that applies: [FileNotFoundError] when the
    working directory is gone; [NotADirectoryError] when a regular file
    is where the project root or [.project] has to be; [FileExistsError]
    when [.project/prds] or [.project/tasks] is a regular file;
    [EOFError] when there is no line to read; [IsADirectoryError] when
    [.gitignore] is a directory and [UnicodeDecodeError] when it is a
    file that is no text.  In every other case it returns. *)
Theorem main_fails_exactly (project_root now : str) (w : world) :
  error_of (main project_root now w) =
  match root w with
  | Absent => Some FileNotFoundError
  | At (Directory es) =>
      let ps := entries_of (child (lit_str ".project") es) in
      if regular_child ".project" es then Some NotADirectoryError
      else if regular_child "prds" ps || regular_child "tasks" ps
           then Some FileExistsError
      else match stdin w with
           | [] => Some EOFError
           | _ :: _ =>
               match child (lit_str ".gitignore") es with
               | Some (Directory _) => Some IsADirectoryError
               | Some Undecodable => Some UnicodeDecodeError
               | _ => None
               end
           end
  | At _ => Some NotADirectoryError
  end.
Proof.
  transitivity (verdict w).
  2:{ unfold verdict, obstruction, gitignore_obstruction.
      destruct (root w) as [|[c| |es]]; try reflexivity. cbv zeta.
      destruct (regular_child ".project" es); [reflexivity|].
      now destruct (regular_child "prds" _ || regular_child "tasks" _). }
  unfold verdict.
  destruct (root w) as [|x] eqn:Hr.
  { now rewrite (main_absent project_root now w Hr). }
  destruct (obstruction x) as [e|] eqn:Hob.
  { apply main_obstructed. now rewrite Hr. }
  destruct (stdin w) as [|line rest] eqn:Hin.
  { now apply (main_without_input project_root now w x). }
  destruct x as [c| |es]; [discriminate..|].
  rewrite (main_run_to_gitignore project_root now w es line rest Hr Hob Hin).
  cbn [gitignore_obstruction].
  now destruct (child (lit_str ".gitignore") es) as [[c| |ds]|].
Qed.

(** ** The text of [.gitignore] *)

Lemma universal_newlines_suffix (c t : str) :
  exists a,
    universal_newlines (c ++ newline :: t)
    = a ++ newline :: universal_newlines t.
Proof.
  induction c as [c IH] using (induction_ltof1 _ (@length ascii)).
  unfold ltof in IH.
  destruct c as [|x c]; [now exists []|].
  cbn [app universal_newlines].
  destruct (Ascii.eqb x carriage_return).
  - destruct c as [|d c]; cbn [app].
    + now exists [].
    + destruct (Ascii.eqb d newline).
      * destruct (IH c) as (a & E); [simpl; lia|].
        exists (newline :: a). now rewrite E.
      * destruct (IH (d :: c)) as (a & E); [simpl; lia|].
        exists (newline :: a). cbn [app] in E. now rewrite E.
  - destruct (IH c) as (a & E); [simpl; lia|].
    exists (x :: a). now rewrite E.
Qed.

Lemma contains_app_r (needle a t : str) :
  contains needle t = true -> contains needle (a ++ t) = true.
Proof.
  intros H. induction a as [|x a IH]; [exact H|].
  cbn [app contains]. rewrite IH. apply orb_true_r.
Qed.

Lemma excludes_appended (c : str) : excludes (c ++ ignore_entry) = true.
Proof.
  unfold excludes, ignore_entry.
  destruct (universal_newlines_suffix c
              (lit_str "# Project management files"
               ++ newline :: lit_str ".project/" ++ [newline])) as (a & E).
  rewrite E. apply contains_app_r. vm_compute. reflexivity.
Qed.

Lemma excludes_ignore_entry : excludes ignore_entry = true.
Proof. vm_compute. reflexivity. Qed.

(** ** A tree that is initialised *)

Lemma initialized_inv r :
  initialized r = true ->
  exists es ps qs ts c,
    r = Directory es
    /\ child (lit_str ".project") es = Some (Directory ps)
    /\ child (lit_str "prds") ps = Some (Directory qs)
    /\ child (lit_str "tasks") ps = Some (Directory ts)
    /\ child (lit_str ".gitkeep") qs <> None
    /\ child (lit_str ".gitkeep") ts <> None
    /\ child (lit_str ".project-config.json") ps <> None
    /\ child (lit_str ".gitignore") es = Some (Regular c)
    /\ excludes c = true.
Proof.
  unfold initialized, is_dir, present, stat, prds_path, tasks_path,
    config_path, gitignore_path, project_path.
  cbn [parts app]. intros H.
  destruct r as [|[c0| |es]]; [discriminate..|]. cbn [resolve walk] in H.
  destruct (child (lit_str ".project") es) as [[c0| |ps]|] eqn:E0;
    try discriminate.
  destruct (child (lit_str "prds") ps) as [[c0| |qs]|] eqn:E1;
    try discriminate.
  destruct (child (lit_str "tasks") ps) as [[c0| |ts]|] eqn:E2;
    try discriminate.
  destruct (child (lit_str ".gitkeep") qs) as [y1|] eqn:G1;
    try discriminate.
  destruct (child (lit_str ".gitkeep") ts) as [y2|] eqn:G2;
    try discriminate.
  destruct (child (lit_str ".project-config.json") ps) as [y3|] eqn:Ec;
    try discriminate.
  destruct (child (lit_str ".gitignore") es) as [[c| |ds]|] eqn:Eg;
    try discriminate.
  cbn [andb] in H.
  exists es, ps, qs, ts, c. repeat split; congruence.
Qed.

Lemma initialized_fixed r data :
  initialized r = true ->
  exists es,
    r = Directory es
    /\ obstruction r = None
    /\ structured es = es
    /\ configured data es = es
    /\ ignored es = es
    /\ has_config es = true
    /\ gitignore_message es = u ".project/ already in .gitignore"
    /\ gitignore_obstruction r = None.
Proof.
  intros H.
  destruct (initialized_inv r H)
    as (es & ps & qs & ts & c & -> & E0 & E1 & E2 & G1 & G2 & Ec & Eg & Hc).
  exists es. split; [reflexivity|].
  unfold obstruction, gitignore_obstruction, regular_child, structured,
    configured, ignored, has_config, gitignore_message, touched.
  rewrite E0. cbn [entries_of]. rewrite E1, E2, Eg, Hc. cbn [entries_of].
  destruct (child (lit_str ".gitkeep") qs); [|now destruct G1].
  destruct (child (lit_str ".gitkeep") ts); [|now destruct G2].
  destruct (child (lit_str ".project-config.json") ps); [|now destruct Ec].
  rewrite (put_same _ _ ps E1), (put_same _ _ ps E2), (put_same _ _ es E0).
  repeat split.
Qed.

Lemma child_touched n es : child n (touched n es) <> None.
Proof.
  unfold touched. destruct (child n es) eqn:E; [now rewrite E|].
  now rewrite child_put_eq.
Qed.

Lemma child_ignored_other n es :
  n <> lit_str ".gitignore" -> child n (ignored es) = child n es.
Proof.
  intros H. unfold ignored.
  destruct (child (lit_str ".gitignore") es) as [[c| |ds]|];
    [destruct (excludes c)| | |]; try reflexivity; now apply child_put_ne.
Qed.

Lemma child_ignored es :
  gitignore_obstruction (Directory es) = None ->
  exists c,
    child (lit_str ".gitignore") (ignored es) = Some (Regular c)
    /\ excludes c = true.
Proof.
  intros Hg. unfold ignored. cbn [gitignore_obstruction] in Hg.
  destruct (child (lit_str ".gitignore") es) as [[c| |ds]|] eqn:Eg.
  - destruct (excludes c) eqn:Ec.
    + exists c. now rewrite Eg.
    + exists (c ++ ignore_entry). rewrite child_put_eq.
      split; [reflexivity|apply excludes_appended].
  - discriminate.
  - discriminate.
  - exists ignore_entry. rewrite child_put_eq.
    split; [reflexivity|apply excludes_ignore_entry].
Qed.

Lemma child_configured_project data es ps :
  child (lit_str ".project") es = Some (Directory ps) ->
  exists ps',
    child (lit_str ".project") (configured data es) = Some (Directory ps')
    /\ child (lit_str ".project-config.json") ps' <> None
    /\ forall n, n <> lit_str ".project-config.json" ->
                 child n ps' = child n ps.
Proof.
  intros E0. unfold configured. rewrite E0. cbn [entries_of].
  destruct (child (lit_str ".project-config.json") ps) eqn:Ec.
  - exists ps. rewrite E0, Ec. repeat split; discriminate.
  - eexists. rewrite child_put_eq. split; [reflexivity|].
    rewrite child_put_eq. split; [discriminate|].
    intros n Hn. now apply child_put_ne.
Qed.

Lemma initialized_after data es :
  gitignore_obstruction (Directory es) = None ->
  initialized (Directory (ignored (configured data (structured es)))) = true.
Proof.
  intros Hg.
  destruct (child_configured_project data _ _ (child_structured_project es))
    as (ps' & E0 & Ec & Hps).
  destruct (child_ignored (configured data (structured es))) as (c & Eg & Hc).
  { cbn [gitignore_obstruction] in *.
    now rewrite child_configured_other, child_structured_other
      by names_differ. }
  unfold initialized, is_dir, present, stat, prds_path, tasks_path,
    config_path, gitignore_path, project_path.
  cbn [parts app resolve walk].
  rewrite child_ignored_other, E0, Eg, Hc by names_differ.
  rewrite !Hps by names_differ.
  rewrite child_put_eq, child_put_ne, child_put_eq by names_differ.
  destruct (child (lit_str ".project-config.json") ps'); [|now destruct Ec].
  pose proof (child_touched (lit_str ".gitkeep")
                (entries_of
                   (child (lit_str "prds")
                      (entries_of (child (lit_str ".project") es))))) as G1.
  pose proof (child_touched (lit_str ".gitkeep")
                (entries_of
                   (child (lit_str "tasks")
                      (entries_of (child (lit_str ".project") es))))) as G2.
  destruct (child (lit_str ".gitkeep")
              (touched _ (entries_of (child (lit_str "prds") _))));
    [|now destruct G1].
  destruct (child (lit_str ".gitkeep")
              (touched _ (entries_of (child (lit_str "tasks") _))));
    [|now destruct G2].
  reflexivity.
Qed.

(** A run of [main] that returns started in a directory where nothing
    was in the way, with a line to read, and ends as the closed form
    says. *)
Lemma main_returned (project_root now : str) w w' :
  main project_root now w = Ok tt w' ->
  exists es line rest,
    root w = Directory es
    /\ obstruction (Directory es) = None
    /\ stdin w = line :: rest
    /\ gitignore_obstruction (Directory es) = None
    /\ w' =
       {| root :=
            Directory
              (ignored
                 (configured
                    (dump (config (project_name_of project_root line) now))
                    (structured es)));
          stdin := rest;
          stdout := stdout w ++ transcript project_root es |}.
Proof.
  intros H.
  destruct (root w) as [|x] eqn:Hr.
  { now rewrite (main_absent project_root now w Hr) in H. }
  destruct (obstruction x) as [e|] eqn:Hob.
  { rewrite <- Hr in Hob.
    apply (main_obstructed project_root now) in Hob.
    now rewrite H in Hob. }
  destruct (stdin w) as [|line rest] eqn:Hin.
  { apply (main_without_input project_root now w x Hr Hob) in Hin.
    now rewrite H in Hin. }
  destruct x as [c| |es]; [discriminate..|].
  rewrite (main_run_to_gitignore project_root now w es line rest Hr Hob Hin)
    in H.
  exists es, line, rest. cbn [gitignore_obstruction].
  destruct (child (lit_str ".gitignore") es) as [[c| |ds]|] eqn:Eg;
    try discriminate; injection H as <-; repeat split; exact Hob.
Qed.

(** ** The script as its users see it *)

(** X12. [create_project_structure] raises exactly when a regular file is
    where it needs a directory, with [NotADirectoryError] for the root or
    [.project] and [FileExistsError] for [prds] or [tasks].  Otherwise it
    returns the path of [.project]; then [prds] and [tasks] are
    directories, each has an entry [.gitkeep], and nothing was printed or
    read. *)
Theorem create_project_structure_outcome (w : world) :
  match create_project_structure w with
  | Ok p w' =>
      obstruction (root w) = None /\ p = project_path
      /\ stdin w' = stdin w /\ stdout w' = stdout w
      /\ is_dir prds_path (root w') = true
      /\ is_dir tasks_path (root w') = true
      /\ present (prds_path </> ".gitkeep") (root w') = true
      /\ present (tasks_path </> ".gitkeep") (root w') = true
  | Err e _ => obstruction (root w) = Some e
  end.
Proof.
  pose proof (create_project_structure_error w) as He.
  destruct (obstruction (root w)) as [e|] eqn:Hob.
  - destruct (create_project_structure w) as [p w'|e' w']; [discriminate|].
    now injection He as ->.
  - assert (Hes : exists es,
              create_project_structure w =
              Ok project_path (set_root (Directory (structured es)) w)).
    { destruct (root w) as [|[c| |es]] eqn:Hr; try discriminate.
      - exists []. now apply create_project_structure_absent.
      - exists es. now apply create_project_structure_ok. }
    destruct Hes as (es & ->).
    unfold is_dir, present, stat, prds_path, tasks_path, project_path,
      set_root.
    cbn [parts app resolve walk root stdin stdout].
    rewrite child_structured_project.
    rewrite child_put_eq, child_put_ne, child_put_eq by names_differ.
    pose proof (child_touched (lit_str ".gitkeep")
                  (entries_of
                     (child (lit_str "prds")
                        (entries_of (child (lit_str ".project") es)))))
      as G1.
    pose proof (child_touched (lit_str ".gitkeep")
                  (entries_of
                     (child (lit_str "tasks")
                        (entries_of (child (lit_str ".project") es)))))
      as G2.
    destruct (child (lit_str ".gitkeep")
                (touched _ (entries_of (child (lit_str "prds") _))));
      [|now destruct G1].
    destruct (child (lit_str ".gitkeep")
                (touched _ (entries_of (child (lit_str "tasks") _))));
      [|now destruct G2].
    repeat split.
Qed.

(** X13. No function of the script loses anything, however it ends: what
    was a directory is a directory afterwards, and every regular file has
    its text, except that [update_gitignore], and so [main], may have
    written after the text of [.gitignore].  In particular
    [create_config] never writes over a configuration that exists. *)
Theorem script_loses_nothing (project_root now : str) :
  keeps create_project_structure
  /\ (forall project_dir project_name,
        keeps (create_config project_root now project_dir project_name))
  /\ keeps_but [lit_str ".gitignore"] update_gitignore
  /\ keeps_but [lit_str ".gitignore"] (main project_root now).
Proof.
  split; [apply keeps_create_project_structure|].
  split; [intros; apply keeps_create_config|].
  split; [apply keeps_update_gitignore|apply keeps_main].
Qed.

Lemma stat_gitignore es :
  stat gitignore_path (Directory es) =
  match child (lit_str ".gitignore") es with
  | Some y => Found y
  | None => NoEntry
  end.
Proof. reflexivity. Qed.

(** X14. [update_gitignore] raises exactly in these cases:
    [FileNotFoundError] when the project root is missing,
    [NotADirectoryError] when a regular file is where the root has to
    be, [IsADirectoryError] when [.gitignore] is a directory,
    [UnicodeDecodeError] when [.gitignore] is a file that is no text;
    and then it has changed and printed nothing.  Otherwise it returns
    without reading input, and [.gitignore] is a regular file whose text,
    as it is read back, contains [.project/]. *)
Theorem update_gitignore_outcome (w : world) :
  error_of (update_gitignore w) =
  match root w with
  | Absent => Some FileNotFoundError
  | At (Directory es) =>
      match child (lit_str ".gitignore") es with
      | Some (Directory _) => Some IsADirectoryError
      | Some Undecodable => Some UnicodeDecodeError
      | _ => None
      end
  | At _ => Some NotADirectoryError
  end
  /\ match update_gitignore w with
     | Ok _ w' =>
         stdin w' = stdin w
         /\ exists content,
              stat gitignore_path (root w') = Found (Regular content)
              /\ excludes content = true
     | Err _ w' => w' = w
     end.
Proof.
  assert (Hstop : (forall es, root w <> Directory es) ->
                  forall e, gitignore_obstruction (root w) = Some e ->
                  error_of (update_gitignore w) = Some e
                  /\ match update_gitignore w with
                     | Ok _ w' =>
                         stdin w' = stdin w
                         /\ exists content,
                              stat gitignore_path (root w')
                              = Found (Regular content)
                              /\ excludes content = true
                     | Err _ w' => w' = w
                     end).
  { intros Hr e Hob. now rewrite (update_gitignore_stopped w e Hr Hob). }
  destruct (root w) as [|[c| |es]] eqn:Hr;
    [now apply Hstop..|]. clear Hstop.
  rewrite (update_gitignore_run w es Hr).
  destruct (child (lit_str ".gitignore") es) as [[c| |ds]|] eqn:Eg;
    [|now auto|now auto|];
    (split; [reflexivity|]); (split; [reflexivity|]);
    cbn [shown set_root root]; rewrite stat_gitignore;
    (destruct (child_ignored es) as (c' & E & Hc);
     [cbn [gitignore_obstruction]; now rewrite Eg|]);
    rewrite E; eauto.
Qed.

(** X15. After a call of [update_gitignore] that returned, another call
    changes nothing: it prints that [.project/] is already in
    [.gitignore] and returns. *)
Theorem update_gitignore_again (w w' : world) :
  update_gitignore w = Ok tt w' ->
  update_gitignore w' =
  Ok tt (shown [Printed (u ".project/ already in .gitignore")] w').
Proof.
  intros H.
  assert (Hes : exists es, root w = Directory es).
  { destruct (root w) as [|[c| |es]] eqn:Hr; [| | |now eauto]; exfalso;
      (erewrite update_gitignore_stopped in H;
       [discriminate H|rewrite Hr; discriminate|rewrite Hr; reflexivity]). }
  destruct Hes as (es & Hr).
  rewrite (update_gitignore_run w es Hr) in H.
  destruct (child_ignored es) as (c' & E & Hc).
  { cbn [gitignore_obstruction].
    now destruct (child (lit_str ".gitignore") es) as [[c| |ds]|]. }
  assert (Hw : w' = shown [Printed (gitignore_message es)]
                      (set_root (Directory (ignored es)) w))
    by (destruct (child (lit_str ".gitignore") es) as [[c| |ds]|];
        congruence).
  rewrite (update_gitignore_run w' (ignored es)) by now rewrite Hw.
  rewrite E. unfold gitignore_message. rewrite E, Hc.
  assert (Hfix : ignored (ignored es) = ignored es)
    by (unfold ignored at 1; now rewrite E, Hc).
  rewrite Hfix, set_root_same by now rewrite Hw.
  reflexivity.
Qed.

(** X17. After a run of [main] that returned, the project is initialised:
    [.project/prds] and [.project/tasks] are directories with a [.gitkeep]
    entry each, there is a configuration file, and [.gitignore] is a
    regular file that excludes [.project/]. *)
Theorem main_initializes (project_root now : str) (w w' : world) :
  main project_root now w = Ok tt w' -> initialized (root w') = true.
Proof.
  intros H.
  destruct (main_returned project_root now w w' H)
    as (es & line & rest & Hr & Hob & Hin & Hg & ->).
  cbn [root]. now apply initialized_after.
Qed.

(** X18. In a project that is initialised, a run of [main] changes nothing
    in the file tree, whatever is typed and whenever: it returns, and
    reports that the configuration file already exists and that
    [.project/] is already in [.gitignore]. *)
Theorem main_on_initialized (project_root now : str) (w : world)
    (line : str) (rest : list str) :
  initialized (root w) = true ->
  stdin w = line :: rest ->
  exists es,
    root w = Directory es
    /\ main project_root now w =
       Ok tt
         {| root := root w; stdin := rest;
            stdout := stdout w ++ transcript project_root es |}
    /\ config_message project_root es =
       u "Config file already exists at "
       ++ utext (path_str project_root config_path)
    /\ gitignore_message es = u ".project/ already in .gitignore".
Proof.
  intros Hi Hin.
  destruct (initialized_fixed (root w)
              (dump (config (project_name_of project_root line) now)) Hi)
    as (es & Hr & Hob & Hs & Hc & Hg & Hcfg & Hmsg & Hnd).
  exists es. split; [exact Hr|]. rewrite Hr in Hob, Hnd.
  rewrite (main_run project_root now w es line rest Hr Hob Hin Hnd).
  rewrite Hs, Hc, Hg, Hr. unfold config_message. rewrite Hcfg. auto.
Qed.

(** X19. In a root without [.project] and without [.gitignore], a run of
    [main] returns and adds two entries after those that were there: the
    directory [.project] with [prds], [tasks] (each with an empty
    [.gitkeep]) and the configuration, in this order, and the file
    [.gitignore] with the exclusion.  The configuration is the dictionary
    of [create_config] with the typed name without surrounding white
    space, or the name of the root directory when nothing else was
    typed.  What reaches the terminal is what a run prints where it has
    to create the configuration and [.gitignore]. *)
Theorem fresh_run (project_root now : str) (w : world)
    (es : list (str * fnode)) (line : str) (rest : list str) :
  root w = Directory es ->
  child (lit_str ".project") es = None ->
  child (lit_str ".gitignore") es = None ->
  stdin w = line :: rest ->
  main project_root now w =
  Ok tt
    {| root :=
         Directory
           (es ++
            [ (lit_str ".project",
               Directory
                 [ (lit_str "prds",
                    Directory [(lit_str ".gitkeep", Regular [])]);
                   (lit_str "tasks",
                    Directory [(lit_str ".gitkeep", Regular [])]);
                   (lit_str ".project-config.json",
                    Regular
                      (dump
                         (config (project_name_of project_root line) now)))
                 ]);
              (lit_str ".gitignore", Regular ignore_entry) ]);
       stdin := rest;
       stdout := stdout w ++ transcript project_root [] |}.
Proof.
  intros Hr E0 Eg Hin.
  rewrite (main_run project_root now w es line rest Hr).
  - f_equal. f_equal.
    + f_equal. unfold ignored.
      rewrite child_configured_other, child_structured_other, Eg
        by names_differ.
      rewrite put_fresh
        by now rewrite child_configured_other, child_structured_other
             by names_differ.
      unfold configured. rewrite child_structured_project.
      cbn [entries_of]. rewrite !child_put_ne by names_differ.
      rewrite E0. cbn [entries_of child].
      unfold structured. rewrite put_put, (put_fresh _ _ es E0).
      rewrite !put_fresh by (vm_compute; reflexivity).
      rewrite <- app_assoc. reflexivity.
    + unfold transcript, config_message, gitignore_message, has_config.
      now rewrite E0, Eg.
  - unfold obstruction, regular_child. now rewrite E0.
  - exact Hin.
  - cbn [gitignore_obstruction]. now rewrite Eg.
Qed.

(** ** The script and the status aggregator *)

Lemma filter_touched (P : str -> bool) n es :
  P n = false ->
  List.filter (fun e : str * node => P (fst e))
    (map (fun e => (fst e, node_of (snd e))) (touched n es))
  = List.filter (fun e : str * node => P (fst e))
      (map (fun e => (fst e, node_of (snd e))) es).
Proof.
  intros HP. unfold touched.
  destruct (child n es) eqn:E; [reflexivity|].
  rewrite (put_fresh _ _ _ E), map_app, List.filter_app.
  cbn [map List.filter fst]. rewrite HP. apply app_nil_r.
Qed.

Lemma listing_before es sub :
  obstruction (Directory es) = None ->
  sub = "prds"%string \/ sub = "tasks"%string ->
  default []
    (listing_of (stat (project_path </> sub) (Directory es)))
  = map (fun e => (fst e, node_of (snd e)))
      (entries_of
         (child (lit_str sub) (entries_of (child (lit_str ".project") es)))).
Proof.
  intros Hob Hsub. unfold stat, project_path. cbn [parts app resolve walk].
  unfold obstruction, regular_child in Hob.
  destruct (child (lit_str ".project") es) as [[c| |ps]|];
    [discriminate|discriminate| |reflexivity].
  cbn [entries_of] in *.
  destruct Hsub as [-> | ->].
  - now destruct (child (lit_str "prds") ps) as [[c| |qs]|].
  - destruct (child (lit_str "prds") ps) as [[c| |qs]|];
      [discriminate|discriminate| |];
      now destruct (child (lit_str "tasks") ps) as [[c| |ts]|].
Qed.

Lemma listing_after data es sub :
  gitignore_obstruction (Directory es) = None ->
  sub = "prds"%string \/ sub = "tasks"%string ->
  listing_of
    (stat (project_path </> sub)
       (Directory (ignored (configured data (structured es)))))
  = Some
      (map (fun e => (fst e, node_of (snd e)))
         (touched (lit_str ".gitkeep")
            (entries_of
               (child (lit_str sub)
                  (entries_of (child (lit_str ".project") es)))))).
Proof.
  intros Hg Hsub.
  destruct (child_configured_project data _ _ (child_structured_project es))
    as (ps' & E0 & _ & Hps).
  unfold stat, project_path. cbn [parts app resolve walk].
  rewrite child_ignored_other, E0 by names_differ.
  destruct Hsub as [-> | ->]; rewrite Hps by names_differ.
  - now rewrite child_put_ne, child_put_eq by names_differ.
  - now rewrite child_put_eq.
Qed.

(** X20. The initialisation does not change what the status aggregator
    reports: after a run of [main] that returned, the aggregator discovers
    the task files and requirement files that it discovered before, and
    returns the summary that it returned before, or fails as before.  Where
    there was no [.project], the summary is that of no files and no
    tasks. *)
Theorem init_keeps_status (project_root now : str) (w w' : world) :
  main project_root now w = Ok tt w' ->
  task_entries (status_view (root w')) = task_entries (status_view (root w))
  /\ prd_entries (status_view (root w')) = prd_entries (status_view (root w))
  /\ get_status_summary (status_view (root w')) =
     match get_status_summary (status_view (root w)) with
     | Returned s _ => Returned s (status_view (root w'))
     | Raised => Raised
     end
  /\ (present project_path (root w) = false ->
      get_status_summary (status_view (root w')) =
      Returned (summarize 0 []) (status_view (root w'))).
Proof.
  intros H.
  destruct (main_returned project_root now w w' H)
    as (es & line & rest & Hr & Hob & Hin & Hg & ->).
  cbn [root]. rewrite Hr. clear H.
  assert (Ht : task_entries (status_view (Directory (ignored (configured
                 (dump (config (project_name_of project_root line) now))
                 (structured es)))))
               = task_entries (status_view (Directory es))).
  { unfold task_entries, status_view, tasks_path. cbn [tasks_dir].
    rewrite (listing_after _ es "tasks" Hg) by auto.
    rewrite (listing_before es "tasks" Hob) by auto.
    change (default [] (Some ?l)) with l.
    now apply (filter_touched
                 (glob_match (lit_str "TASKS-") (lit_str ".md"))). }
  assert (Hp : prd_entries (status_view (Directory (ignored (configured
                 (dump (config (project_name_of project_root line) now))
                 (structured es)))))
               = prd_entries (status_view (Directory es))).
  { unfold prd_entries, status_view, prds_path. cbn [prds_dir].
    rewrite (listing_after _ es "prds" Hg) by auto.
    rewrite (listing_before es "prds" Hob) by auto.
    change (default [] (Some ?l)) with l.
    now apply (filter_touched
                 (glob_match (lit_str "PRD-") (lit_str ".md"))). }
  split; [exact Ht|]. split; [exact Hp|].
  rewrite !get_status_summary_eq, Ht, Hp.
  split; [now destruct (records_of _ _ _)|].
  unfold present, stat, project_path. cbn [parts app resolve walk]. intros Hnone.
  unfold task_entries, prd_entries, status_view, stat, tasks_path, prds_path,
    project_path.
  cbn [parts app resolve walk tasks_dir prds_dir].
  destruct (child (lit_str ".project") es); [discriminate|].
  reflexivity.
Qed.

(** ** The text of the configuration *)

Lemma json_char_inv_spec (c : ascii) (rest : str) :
  json_char_inv (json_char c ++ rest) = Some (c, rest).
Proof.
  destruct c as [[] [] [] [] [] [] [] []]; vm_compute; reflexivity.
Qed.

Lemma json_char_plain (c : ascii) : forallb plain (json_char c) = true.
Proof.
  destruct c as [[] [] [] [] [] [] [] []]; vm_compute; reflexivity.
Qed.

Lemma json_char_no_quote (c : ascii) (s t : str) :
  json_char c ++ s <> double_quote :: t.
Proof.
  intros E. pose proof (json_char_inv_spec c s) as H. rewrite E in H.
  cbn in H. injection H as <- _. discriminate E.
Qed.

Lemma json_string_plain (s : str) : forallb plain (json_string s) = true.
Proof.
  unfold json_string. cbn [forallb]. rewrite forallb_app.
  replace (forallb plain [double_quote]) with true by reflexivity.
  rewrite andb_true_r. change (plain double_quote) with true. cbn [andb].
  induction s as [|c s IH]; [reflexivity|].
  cbn [flat_map]. now rewrite forallb_app, json_char_plain, IH.
Qed.

Lemma json_string_inj (a b r r' : str) :
  json_string a ++ r = json_string b ++ r' -> a = b /\ r = r'.
Proof.
  unfold json_string. cbn [app]. intros E. injection E as E.
  rewrite <- !app_assoc in E. cbn [app] in E.
  revert b E.
  induction a as [|c a IH]; intros [|d b] E; cbn [flat_map app] in E.
  - now injection E.
  - rewrite <- app_assoc in E. symmetry in E.
    now apply json_char_no_quote in E.
  - rewrite <- app_assoc in E. now apply json_char_no_quote in E.
  - rewrite <- !app_assoc in E.
    pose proof (f_equal json_char_inv E) as H.
    rewrite !json_char_inv_spec in H. injection H as -> H.
    destruct (IH b H) as [-> ->]. auto.
Qed.

Lemma dump_config_shape :
  exists head middle tail : str,
    forallb plain head = true /\ forallb plain middle = true
    /\ forallb plain tail = true
    /\ forall name now,
         dump (config name now)
         = head ++ json_string name ++ middle ++ json_string now ++ tail.
Proof.
  eexists (lit_str "{" ++ newline :: lit_str "  "
           ++ json_string (lit_str "project_name") ++ lit_str ": ").
  eexists (lit_str "," ++ newline :: lit_str "  "
           ++ json_string (lit_str "initialized") ++ lit_str ": ").
  eexists.
  split; [vm_compute; reflexivity|].
  split; [vm_compute; reflexivity|].
  split.
  2:{ intros n t. unfold dump, config.
      cbn [map join fst snd dump_value].
      rewrite <- !app_assoc. cbn [app]. rewrite <- !app_assoc.
      reflexivity. }
  vm_compute. reflexivity.
Qed.

(** X21. The text of the configuration file is plain ASCII whatever the
    project name, and no two pairs of project name and time stamp give the
    same text. *)
Theorem config_text_is_plain_and_faithful (name now name' now' : str) :
  forallb plain (dump (config name now)) = true
  /\ (dump (config name now) = dump (config name' now') ->
      name = name' /\ now = now').
Proof.
  destruct dump_config_shape as (head & middle & tail & Hh & Hm & Ht & E).
  rewrite !E. split.
  - now rewrite !forallb_app, Hh, Hm, Ht, !json_string_plain.
  - intros H. apply app_inv_head in H.
    apply json_string_inj in H as [-> H].
    apply app_inv_head in H.
    now apply json_string_inj in H as [-> _].
Qed.

(** ** The theorems at the two roots *)

Lemma update_gitignore_again_witness :
  update_gitignore (final (update_gitignore used_world)) =
  Ok tt
    (shown [Printed (u ".project/ already in .gitignore")]
       (final (update_gitignore used_world))).
Proof.
  apply (update_gitignore_again used_world). vm_compute. reflexivity.
Defined.

Lemma main_initializes_witness :
  initialized
    (root
       (final
          (main (lit_str "/home/dev/shop") (lit_str "2026-01-05T09:30:00")
             used_world))) = true.
Proof.
  apply (main_initializes (lit_str "/home/dev/shop")
           (lit_str "2026-01-05T09:30:00") used_world).
  vm_compute. reflexivity.
Defined.

Lemma main_on_initialized_witness :
  let w :=
    final
      (main (lit_str "/home/dev/shop") (lit_str "2026-01-05T09:30:00")
         used_world) in
  exists es,
    root w = Directory es
    /\ main (lit_str "/home/dev/shop") (lit_str "2026-02-01T08:00:00") w =
       Ok tt
         {| root := root w; stdin := [];
            stdout := stdout w ++ transcript (lit_str "/home/dev/shop") es |}
    /\ config_message (lit_str "/home/dev/shop") es =
       u "Config file already exists at "
       ++ utext (path_str (lit_str "/home/dev/shop") config_path)
    /\ gitignore_message es = u ".project/ already in .gitignore".
Proof.
  intros w.
  apply (main_on_initialized (lit_str "/home/dev/shop")
           (lit_str "2026-02-01T08:00:00") w [] []);
    vm_compute; reflexivity.
Defined.

Lemma fresh_run_witness :
  main (lit_str "/home/dev/shop") (lit_str "2026-01-05T09:30:00") fresh_world =
  Ok tt
    {| root :=
         Directory
           ([(lit_str "README.md", Regular (lit_str "demo"))] ++
            [ (lit_str ".project",
               Directory
                 [ (lit_str "prds",
                    Directory [(lit_str ".gitkeep", Regular [])]);
                   (lit_str "tasks",
                    Directory [(lit_str ".gitkeep", Regular [])]);
                   (lit_str ".project-config.json",
                    Regular
                      (dump
                         (config
                            (project_name_of (lit_str "/home/dev/shop") [])
                            (lit_str "2026-01-05T09:30:00")))) ]);
              (lit_str ".gitignore", Regular ignore_entry) ]);
       stdin := [];
       stdout :=
         stdout fresh_world ++ transcript (lit_str "/home/dev/shop") [] |}.
Proof.
  apply (fresh_run (lit_str "/home/dev/shop") (lit_str "2026-01-05T09:30:00")
           fresh_world); reflexivity.
Defined.

Lemma init_keeps_status_witness :
  let w' :=
    final
      (main (lit_str "/home/dev/shop") (lit_str "2026-01-05T09:30:00")
         used_world) in
  task_entries (status_view (root w'))
  = task_entries (status_view (root used_world))
  /\ prd_entries (status_view (root w'))
     = prd_entries (status_view (root used_world))
  /\ get_status_summary (status_view (root w')) =
     match get_status_summary (status_view (root used_world)) with
     | Returned s _ => Returned s (status_view (root w'))
     | Raised => Raised
     end
  /\ (present project_path (root used_world) = false ->
      get_status_summary (status_view (root w')) =
      Returned (summarize 0 []) (status_view (root w'))).
Proof.
  intros w'.
  apply (init_keeps_status (lit_str "/home/dev/shop")
           (lit_str "2026-01-05T09:30:00") used_world w').
  vm_compute. reflexivity.
Defined.

Lemma config_text_is_plain_and_faithful_witness :
  forallb plain
    (dump (config (lit_str "shop") (lit_str "2026-01-05T09:30:00"))) = true
  /\ lit_str "shop" = lit_str "shop"
  /\ lit_str "2026-01-05T09:30:00" = lit_str "2026-01-05T09:30:00".
Proof.
  split.
  - apply (config_text_is_plain_and_faithful (lit_str "shop")
             (lit_str "2026-01-05T09:30:00") (lit_str "shop")
             (lit_str "2026-01-05T09:30:00")).
  - apply (config_text_is_plain_and_faithful (lit_str "shop")
             (lit_str "2026-01-05T09:30:00") (lit_str "shop")
             (lit_str "2026-01-05T09:30:00")).
    reflexivity.
Defined.

(** ** Where the calls stop *)

Example update_gitignore_stops :
  let at_root (r : tree) := {| root := r; stdin := []; stdout := [] |} in
  let with_gitignore (x : fnode) :=
    at_root (Directory [(lit_str ".gitignore", x)]) in
  update_gitignore (at_root Absent) = Err FileNotFoundError (at_root Absent)
  /\ update_gitignore (at_root (Regular (lit_str "x"))) =
     Err NotADirectoryError (at_root (Regular (lit_str "x")))
  /\ update_gitignore (with_gitignore Undecodable) =
     Err UnicodeDecodeError (with_gitignore Undecodable)
  /\ update_gitignore (with_gitignore (Directory [])) =
     Err IsADirectoryError (with_gitignore (Directory [])).
Proof. repeat split. Qed.

Example create_project_structure_in_missing_root :
  create_project_structure {| root := Absent; stdin := []; stdout := [] |} =
  Ok project_path
    {| root :=
         Directory
           [ (lit_str ".project",
              Directory
                [ (lit_str "prds",
                   Directory [(lit_str ".gitkeep", Regular [])]);
                  (lit_str "tasks",
                   Directory [(lit_str ".gitkeep", Regular [])]) ]) ];
       stdin := [];
       stdout := [] |}.
Proof. reflexivity. Qed.

Example main_with_unreadable_gitignore :
  let w :=
    {| root := Directory [(lit_str ".gitignore", Undecodable)];
       stdin := [lit_str "shop"];
       stdout := [] |} in
  error_of
    (main (lit_str "/home/dev/shop") (lit_str "2026-01-05T09:30:00") w)
  = Some UnicodeDecodeError
  /\ present config_path
       (root
          (final
             (main (lit_str "/home/dev/shop")
                (lit_str "2026-01-05T09:30:00") w))) = true.
Proof. vm_compute. split; reflexivity. Qed.

End InitProperties.
